(** * Solgrid pixel embedder: rate-limited resumable dispatch engine

    A shallow embedding of [src/embedder.js] (class [OptimizedPixelEmbedder])
    and the properties of its admission gate, dispatch loop and checkpoint
    store.

    Conventions of the embedding.
    - Times are milliseconds as [Z] ([Date.now()]); counters are [Z].
    - The object's fields are the record [Embedder]; the page around it (the
      clock, [localStorage]) and an observation log make up [World].
    - Every method is a function on [World]; what the page decides (timer
      overshoot, the random jitter, how a placement settles, what the credit
      label shows, whether the user confirms or stops) is an argument.
    - One dispatch loop runs at a time, as the code's [isPlacing] check
      intends; the only call from outside that a run sees is [stop()].
    - [console.log] output is not modelled. *)

From Stdlib Require Import ZArith NArith String Ascii DecimalString List Bool Lia.
Import ListNotations.
Open Scope string_scope.
Open Scope Z_scope.

(** ** Strings: [toLowerCase] and [includes] *)

Definition lower_ascii (c : ascii) : ascii :=
  let n := nat_of_ascii c in
  if ((65 <=? n) && (n <=? 90))%nat then ascii_of_nat (n + 32) else c.

Fixpoint toLowerCase (s : string) : string :=
  match s with
  | EmptyString => EmptyString
  | String c s' => String (lower_ascii c) (toLowerCase s')
  end.

(** [includes s needle] is [s.includes(needle)]. *)
Fixpoint includes (s needle : string) : bool :=
  String.prefix needle s
  || match s with
     | EmptyString => false
     | String _ s' => includes s' needle
     end.

(** ** Data *)

Record Pixel := mkPixel { px : Z; py : Z; pcolor : string }.

(** The object written by [saveProgress] (lines 48-56). *)
Record Progress := mkProgress {
  pg_sessionId : option string;
  pg_queue : list Pixel;
  pg_originalPixels : list Pixel;
  pg_pixelsPlaced : Z;
  pg_errors : Z;
  pg_timestamp : Z;
  pg_isActive : bool
}.

(** What sits under the key ['pixelEmbedder_progress']: the JSON text of a
    [Progress], or text that [JSON.parse] rejects. *)
Inductive Item :=
| Json (data : Progress)
| Garbled.

(** [localStorage], reduced to the one key the embedder uses.  [setItem]
    throws when the quota is exhausted; [getItem] and [removeItem] never
    throw. *)
Record Storage := mkStorage {
  slot : option Item;
  quotaExceeded : bool
}.

Definition setItem (v : Item) (ls : Storage) : option Storage :=
  if quotaExceeded ls then None
  else Some {| slot := Some v; quotaExceeded := quotaExceeded ls |}.

Definition removeItem (ls : Storage) : Storage :=
  {| slot := None; quotaExceeded := quotaExceeded ls |}.

(** Fields of [OptimizedPixelEmbedder] that the code writes after
    construction. *)
Record Embedder := mkEmbedder {
  queue : list Pixel;
  isPlacing : bool;
  pixelsPlaced : Z;
  errors : Z;
  currentCredits : option Z;
  sessionId : option string;
  originalPixels : list Pixel;
  currentTier : string;
  tierLogged : bool;
  burstTracker : list Z;
  requestTimes : list Z;
  lastRequestTime : option Z;
  socket : bool
}.

(** Fields assigned once in the constructor (lines 14-23) and only read
    afterwards. *)
Definition baseDelay : Z := 400.
Definition universalDelay : Z := 400.
Definition burstLimit : Z := 15.
Definition burstWindow : Z := 10000.
Definition burstSafetyBuffer : Z := 2000.

(** Observations, kept outside the program state. *)
Inductive Event :=
| EvSleep (ms : Z)                (* [this.sleep(ms)] was requested *)
| EvAdmit (t : Z)                 (* [lastRequestTime = t], line 256 *)
| EvDispatch (p : Pixel) (t : Z)  (* [placePixel] sent [p] as a page event at [t] *)
| EvRecord (t : Z)                (* [recordRequest] ran at [t] *)
| EvTracker (l : list Z)          (* [burstTracker] was written *)
| EvSocket (p : Pixel) (t : Z).   (* [placePixel] sent [p] again, over the socket, at [t] *)

Record World := mkWorld {
  emb : Embedder;
  clock : Z;                (* what [Date.now()] returns *)
  localStorage : Storage;
  trace : list Event        (* most recent event first *)
}.

(** ** Field updates *)

Definition with_emb (f : Embedder -> Embedder) (w : World) : World :=
  {| emb := f (emb w); clock := clock w;
     localStorage := localStorage w; trace := trace w |}.

Definition set_queue (q : list Pixel) : World -> World :=
  with_emb (fun e => mkEmbedder q (isPlacing e) (pixelsPlaced e) (errors e)
    (currentCredits e) (sessionId e) (originalPixels e) (currentTier e)
    (tierLogged e) (burstTracker e) (requestTimes e) (lastRequestTime e)
    (socket e)).

Definition set_isPlacing (b : bool) : World -> World :=
  with_emb (fun e => mkEmbedder (queue e) b (pixelsPlaced e) (errors e)
    (currentCredits e) (sessionId e) (originalPixels e) (currentTier e)
    (tierLogged e) (burstTracker e) (requestTimes e) (lastRequestTime e)
    (socket e)).

Definition set_pixelsPlaced (n : Z) : World -> World :=
  with_emb (fun e => mkEmbedder (queue e) (isPlacing e) n (errors e)
    (currentCredits e) (sessionId e) (originalPixels e) (currentTier e)
    (tierLogged e) (burstTracker e) (requestTimes e) (lastRequestTime e)
    (socket e)).

Definition set_errors (n : Z) : World -> World :=
  with_emb (fun e => mkEmbedder (queue e) (isPlacing e) (pixelsPlaced e) n
    (currentCredits e) (sessionId e) (originalPixels e) (currentTier e)
    (tierLogged e) (burstTracker e) (requestTimes e) (lastRequestTime e)
    (socket e)).

Definition set_currentCredits (c : option Z) : World -> World :=
  with_emb (fun e => mkEmbedder (queue e) (isPlacing e) (pixelsPlaced e)
    (errors e) c (sessionId e) (originalPixels e) (currentTier e)
    (tierLogged e) (burstTracker e) (requestTimes e) (lastRequestTime e)
    (socket e)).

Definition set_sessionId (s : option string) : World -> World :=
  with_emb (fun e => mkEmbedder (queue e) (isPlacing e) (pixelsPlaced e)
    (errors e) (currentCredits e) s (originalPixels e) (currentTier e)
    (tierLogged e) (burstTracker e) (requestTimes e) (lastRequestTime e)
    (socket e)).

Definition set_originalPixels (l : list Pixel) : World -> World :=
  with_emb (fun e => mkEmbedder (queue e) (isPlacing e) (pixelsPlaced e)
    (errors e) (currentCredits e) (sessionId e) l (currentTier e)
    (tierLogged e) (burstTracker e) (requestTimes e) (lastRequestTime e)
    (socket e)).

Definition set_requestTimes (l : list Z) : World -> World :=
  with_emb (fun e => mkEmbedder (queue e) (isPlacing e) (pixelsPlaced e)
    (errors e) (currentCredits e) (sessionId e) (originalPixels e)
    (currentTier e) (tierLogged e) (burstTracker e) l (lastRequestTime e)
    (socket e)).

Definition log (ev : Event) (w : World) : World :=
  {| emb := emb w; clock := clock w;
     localStorage := localStorage w; trace := ev :: trace w |}.

(** Every write to [this.burstTracker] is observed. *)
Definition set_burstTracker (l : list Z) (w : World) : World :=
  log (EvTracker l)
    (with_emb (fun e => mkEmbedder (queue e) (isPlacing e) (pixelsPlaced e)
       (errors e) (currentCredits e) (sessionId e) (originalPixels e)
       (currentTier e) (tierLogged e) l (requestTimes e) (lastRequestTime e)
       (socket e)) w).

Definition set_lastRequestTime (t : option Z) : World -> World :=
  with_emb (fun e => mkEmbedder (queue e) (isPlacing e) (pixelsPlaced e)
    (errors e) (currentCredits e) (sessionId e) (originalPixels e)
    (currentTier e) (tierLogged e) (burstTracker e) (requestTimes e) t
    (socket e)).

Definition set_localStorage (ls : Storage) (w : World) : World :=
  {| emb := emb w; clock := clock w; localStorage := ls; trace := trace w |}.

(** ** Time *)

(** Time that passes while the page does something else. *)
Definition tick (d : N) (w : World) : World :=
  {| emb := emb w; clock := clock w + Z.of_N d;
     localStorage := localStorage w; trace := trace w |}.

(** [sleep(ms)] (lines 575-577): a timer never fires early; [over] is how
    late it fires.  A non-positive delay counts as zero. *)
Definition sleep (ms : Z) (over : N) (w : World) : World :=
  tick over
    (log (EvSleep ms)
       {| emb := emb w; clock := clock w + Z.max 0 ms;
          localStorage := localStorage w; trace := trace w |}).

(** ** Persistence (lines 41-153) *)

(** JavaScript truth of [this.sessionId]: [null] and the empty string are
    false. *)
Definition truthy_string (s : option string) : bool :=
  match s with
  | None => false
  | Some EmptyString => false
  | Some _ => true
  end.

Definition progressData (w : World) : Progress :=
  {| pg_sessionId := sessionId (emb w);
     pg_queue := queue (emb w);
     pg_originalPixels := originalPixels (emb w);
     pg_pixelsPlaced := pixelsPlaced (emb w);
     pg_errors := errors (emb w);
     pg_timestamp := clock w;
     pg_isActive := isPlacing (emb w) |}.

Definition saveProgress (w : World) : World :=
  if negb (truthy_string (sessionId (emb w))) then w
  else
    match setItem (Json (progressData w)) (localStorage w) with
    | Some ls => set_localStorage ls w
    | None => w                       (* caught: 'Could not save progress' *)
    end.

Definition clearProgress (w : World) : World :=
  set_localStorage (removeItem (localStorage w)) w.

Definition dayMs : Z := 24 * (1000 * 60 * 60).

(** [loadProgress] (lines 65-84).  [(now - timestamp) / 3600000 > 24] on
    integer milliseconds is [now - timestamp > 24 * 3600000]. *)
Definition loadProgress (w : World) : option Progress * World :=
  match slot (localStorage w) with
  | None => (None, w)
  | Some Garbled => (None, w)         (* caught: 'Could not load progress' *)
  | Some (Json data) =>
      if dayMs <? clock w - pg_timestamp data
      then (None, clearProgress w)
      else (Some data, w)
  end.

Definition checkForExistingSession (w : World) : bool * World :=
  let (saved, w1) := loadProgress w in
  match saved with
  | Some s => ((0 <? length (pg_queue s))%nat, w1)
  | None => (false, w1)
  end.

Definition clearSession (w : World) : World :=
  let w1 := clearProgress w in
  let w2 := set_queue [] w1 in
  let w3 := set_originalPixels [] w2 in
  let w4 := set_pixelsPlaced 0 w3 in
  let w5 := set_errors 0 w4 in
  let w6 := set_sessionId None w5 in
  set_isPlacing false w6.

(** [getCurrentCredits] (lines 159-190).  [dom] is the number the page shows
    in its credit label, if it shows one. *)
Definition getCurrentCredits (dom : option Z) (w : World) : option Z * World :=
  match dom with
  | Some c => (Some c, set_currentCredits (Some c) w)
  | None => (None, w)
  end.

(** ** The admission gate (lines 221-267) *)

(** [Math.min(...l)]; [None] is the [Infinity] of no arguments. *)
Definition Math_min (l : list Z) : option Z :=
  match l with
  | [] => None
  | t :: ts => Some (fold_left Z.min ts t)
  end.

(** How the promise of [placePixel] settles: the first of a success event,
    a failure event (of the page or of the socket) and the 8000 ms timer.
    One reply leaves it unsettled for ever: a socket failure event without a
    payload, on which line 391 throws after [resolved] is set and the
    timeout cleared.  The turn then never ends and the loop takes no further
    step; what is said of a run is said of the turns that end. *)
Inductive Outcome :=
| Placed (latency : N)                         (* a success event came first *)
| Rejected (latency : N) (message : option string) (* an error event came first *)
| TimedOut (late : N).                         (* the 8000 ms timer came first *)

(** What the page decides about the socket fallback of one placement. *)
Record Fallback := mkFallback {
  windowSocket : bool;        (* [window.socket] is set when the timer fires *)
  fallbackOver : N            (* overshoot of the 200 ms fallback timer *)
}.

(** What the page decides during one turn of the dispatch loop. *)
Record IterEnv := mkIterEnv {
  lag : N;                    (* time before [safeDelay] reads the clock *)
  burstOver : N;              (* overshoot of the burst-protection sleep *)
  spaceOver : N;              (* overshoot of the spacing sleep *)
  jitter : Z;                 (* [Math.random() * 100 + 50] in whole ms *)
  jitterOver : N;             (* overshoot of the jitter sleep *)
  outcome : Outcome;
  fallback : Fallback;
  coolOver : N;               (* overshoot of the cooldown after an error *)
  creditsShown : option Z;    (* the credit label during this turn *)
  stopRequested : bool        (* [stop()] is called while this turn waits *)
}.

Definition inBurstWindow (now t : Z) : bool := now - t <? burstWindow.
Definition inLastMinute (now t : Z) : bool := now - t <? 60000.

Definition safeDelay (e : IterEnv) (w : World) : World :=
  let now := clock w in
  let w1 := set_requestTimes (filter (inLastMinute now) (requestTimes (emb w))) w in
  let w2 := set_burstTracker (filter (inBurstWindow now) (burstTracker (emb w1))) w1 in
  let w3 :=
    if burstLimit <=? Z.of_nat (length (burstTracker (emb w2))) then
      match Math_min (burstTracker (emb w2)) with
      | Some oldestBurst =>
          let timeToWait := burstWindow - (now - oldestBurst) + burstSafetyBuffer in
          if 0 <? timeToWait then
            let w' := sleep timeToWait (burstOver e) w2 in
            set_burstTracker
              (filter (inBurstWindow (clock w')) (burstTracker (emb w'))) w'
          else w2
      | None =>
          (* [timeToWait] is [Infinity]; a timer with that delay fires at once *)
          let w' := sleep 0 (burstOver e) w2 in
          set_burstTracker
            (filter (inBurstWindow (clock w')) (burstTracker (emb w'))) w'
      end
    else w2 in
  let w4 :=
    match lastRequestTime (emb w3) with
    | Some last =>
        if last =? 0 then w3            (* [0] is false in [if (...)] *)
        else
          let timeSinceLastRequest := now - last in
          if timeSinceLastRequest <? universalDelay
          then sleep (universalDelay - timeSinceLastRequest) (spaceOver e) w3
          else w3
    | None => w3
    end in
  let w5 := sleep (jitter e) (jitterOver e) w4 in
  log (EvAdmit (clock w5)) (set_lastRequestTime (Some (clock w5)) w5).

Definition recordRequest (w : World) : World :=
  let now := clock w in
  let w1 := set_requestTimes (requestTimes (emb w) ++ [now]) w in
  let w2 := set_burstTracker (burstTracker (emb w1) ++ [now]) w1 in
  let w3 := set_requestTimes (filter (inLastMinute now) (requestTimes (emb w2))) w2 in
  let w4 := set_burstTracker (filter (inBurstWindow now) (burstTracker (emb w3))) w3 in
  log (EvRecord now) w4.

(** ** Sending one pixel (lines 330-401) *)

Inductive Settled :=
| Resolved
| Threw (message : string).

(** [e.detail?.message || 'Pixel placement failed'], and
    [error.error || error.message || 'Pixel placement failed'] for the
    socket: a missing or empty message is replaced. *)
Definition errorMessage (m : option string) : string :=
  match m with
  | None => "Pixel placement failed"
  | Some EmptyString => "Pixel placement failed"
  | Some s => s
  end.

(** After how long the promise settles. *)
Definition settlesAfter (o : Outcome) : N :=
  match o with
  | Placed l => l
  | Rejected l _ => l
  | TimedOut late => 8000 + late
  end.

(** Lines 369-399: the page event goes out at once; the fallback timer fires
    200 ms later or more, and when nothing has settled by then and the page
    has a socket, the same pixel goes out again over the socket.  When the
    timer and the settlement fall in the same millisecond the timer is taken
    first; the other order is the run of a timer that fires later still. *)
Definition transmit (p : Pixel) (o : Outcome) (f : Fallback) (w : World) : World :=
  let w1 := log (EvDispatch p (clock w)) w in
  let fires := (200 + fallbackOver f)%N in
  if windowSocket f && (fires <=? settlesAfter o)%N
  then log (EvSocket p (clock w + Z.of_N fires)) w1
  else w1.

(** The page event and the socket fallback carry the same pixel; the first
    settlement wins and later ones see [resolved] set. *)
Definition placePixel (p : Pixel) (o : Outcome) (f : Fallback) (w : World)
    : Settled * World :=
  let w1 := transmit p o f w in
  match o with
  | Placed l => (Resolved, recordRequest (tick l w1))
  | Rejected l m => (Threw (errorMessage m), tick l w1)
  | TimedOut late => (Threw "Pixel placement timeout", tick (8000 + late) w1)
  end.

(** ** The dispatch loop (lines 403-537) *)

Definition stop (w : World) : World := set_isPlacing false w.

(** The [catch] block's classification (lines 503-516); the flag is [break]. *)
Definition handleError (message : string) (e : IterEnv) (w : World) : World * bool :=
  let m := toLowerCase message in
  if includes m "burst limit" then
    (sleep 15000 (coolOver e) (set_burstTracker [] w), false)
  else if includes m "rate" || includes m "limit" then
    (sleep 10000 (coolOver e) w, false)
  else if includes m "credit" then
    (set_isPlacing false w, true)
  else
    (sleep 1000 (coolOver e) w, false).

(** One turn of the [while] body (lines 473-517); the flag is [break].  The
    loop guard keeps it away from an empty queue. *)
Definition iteration (e : IterEnv) (w : World) : World * bool :=
  match queue (emb w) with
  | [] => (w, false)
  | pixel :: rest =>
      let w1 := set_queue rest w in                       (* [queue.shift()] *)
      let w2 := safeDelay e (tick (lag e) w1) in
      let w2' := if stopRequested e then stop w2 else w2 in
      match placePixel pixel (outcome e) (fallback e) w2' with
      | (Resolved, w3) =>
          let w4 := set_pixelsPlaced (pixelsPlaced (emb w3) + 1) w3 in
          let w5 := if pixelsPlaced (emb w4) mod 10 =? 0 then saveProgress w4 else w4 in
          let w6 := if pixelsPlaced (emb w5) mod 50 =? 0
                    then snd (getCurrentCredits (creditsShown e) w5) else w5 in
          (w6, false)
      | (Threw message, w3) =>
          let w4 := set_errors (errors (emb w3) + 1) w3 in
          let w5 := saveProgress w4 in
          handleError message e w5
      end
  end.

(** The [while] loop.  Each turn removes one element of the queue, so
    [length queue] turns always suffice; [i] indexes the environment. *)
Fixpoint processLoop (fuel : nat) (env : nat -> IterEnv) (i : nat) (w : World) : World :=
  match fuel with
  | O => w
  | S fuel' =>
      if (0 <? length (queue (emb w)))%nat && isPlacing (emb w) then
        let (w', brk) := iteration (env i) w in
        if brk then w' else processLoop fuel' env (S i) w'
      else w
  end.

(** What the page decides once per run. *)
Record RunEnv := mkRunEnv {
  socketOver : N;             (* overshoot of the 300 ms wait for the socket *)
  creditsAtStart : option Z;  (* the credit label when [embedImage] starts *)
  proceedAnyway : bool;       (* answer to the insufficient-credits dialog *)
  dialogTime : N;             (* how long a dialog stays open *)
  sessionSuffix : string;     (* [Math.random().toString(36).substr(2, 9)] *)
  resumeConfirmed : bool;     (* answer to the resume dialog *)
  creditsAtEnd : option Z     (* the credit label when the summary is shown *)
}.

Definition showSummary (r : RunEnv) (w : World) : World :=
  snd (getCurrentCredits (creditsAtEnd r) w).

Definition processQueue (r : RunEnv) (env : nat -> IterEnv) (w : World) : World :=
  let w1 := processLoop (length (queue (emb w))) env 0 w in
  let w2 := set_isPlacing false w1 in
  let w3 := if (length (queue (emb w2)) =? 0)%nat
            then clearProgress w2 else saveProgress w2 in
  showSummary r w3.

Definition decimal (n : Z) : string :=
  NilZero.string_of_int (Z.to_int n).

Definition generateSessionId (r : RunEnv) (w : World) : string :=
  "embed_" ++ decimal (clock w) ++ "_" ++ sessionSuffix r.

(** Lines 445-464 of [embedImage]: the new session. *)
Definition startSession (r : RunEnv) (pixels : list Pixel) (w : World) : World :=
  let w1 := set_sessionId (Some (generateSessionId r w)) w in
  let w2 := set_originalPixels pixels w1 in
  let w3 := set_pixelsPlaced 0 w2 in
  let w4 := set_errors 0 w3 in
  let w5 := set_burstTracker [] w4 in
  let w6 := set_lastRequestTime None w5 in
  let w7 := set_queue pixels w6 in
  let w8 := set_isPlacing true w7 in
  saveProgress w8.

(** Lines 407-443 of [embedImage]; the flag says whether a session is to be
    started. *)
Definition preflight (r : RunEnv) (pixels : list Pixel) (w : World) : World * bool :=
  if isPlacing (emb w) then (w, false)
  else
    let w1 := if socket (emb w) then sleep 300 (socketOver r) w else w in
    if (length pixels =? 0)%nat then (w1, false)
    else
      let (credits, w2) := getCurrentCredits (creditsAtStart r) w1 in
      match credits with
      | Some c =>
          if c <? Z.of_nat (length pixels) then
            (tick (dialogTime r) w2, proceedAnyway r)
          else (w2, true)
      | None => (w2, true)
      end.

Definition embedImage (r : RunEnv) (env : nat -> IterEnv) (pixels : list Pixel)
    (w : World) : World :=
  let (w1, go) := preflight r pixels w in
  if go then processQueue r env (startSession r pixels w1) else w1.

(** [resumeEmbedding] (lines 105-142).  The method returns [true] as soon as
    it has started [processQueue]; the world returned here is the one the
    started loop leaves behind. *)
Definition restore (saved : Progress) (w : World) : World :=
  let w1 := set_sessionId (pg_sessionId saved) w in
  let w2 := set_queue (pg_queue saved) w1 in
  let w3 := set_originalPixels (pg_originalPixels saved) w2 in
  let w4 := set_pixelsPlaced (pg_pixelsPlaced saved) w3 in
  set_errors (pg_errors saved) w4.

Definition resumeEmbedding (r : RunEnv) (env : nat -> IterEnv) (w : World)
    : bool * World :=
  let (saved, w1) := loadProgress w in
  match saved with
  | None => (false, w1)
  | Some s =>
      if (length (pg_queue s) =? 0)%nat then (false, w1)
      else if isPlacing (emb w1) then (false, w1)
      else
        let w2 := tick (dialogTime r) (restore s w1) in
        if resumeConfirmed r
        then (true, processQueue r env (set_isPlacing true w2))
        else (false, w2)
  end.

(** ** Status (lines 554-573) *)

Record Status := mkStatus {
  st_isPlacing : bool;
  st_queueLength : nat;
  st_originalPixelsCount : nat;
  st_pixelsPlaced : Z;
  st_errors : Z;
  st_currentRate : nat;
  st_tier : string;
  st_burstUsed : nat;
  st_burstLimit : Z;
  st_credits : option Z;
  st_delay : Z;
  st_sessionId : option string;
  st_hasResumableSession : bool
}.

Definition isSome {A} (o : option A) : bool :=
  match o with Some _ => true | None => false end.

Definition getStatus (dom : option Z) (w : World) : Status * World :=
  let burstUsed := length (filter (inBurstWindow (clock w)) (burstTracker (emb w))) in
  let (credits, w1) := getCurrentCredits dom w in
  let (saved, w2) := loadProgress w1 in
  ({| st_isPlacing := isPlacing (emb w1);
      st_queueLength := length (queue (emb w1));
      st_originalPixelsCount := length (originalPixels (emb w1));
      st_pixelsPlaced := pixelsPlaced (emb w1);
      st_errors := errors (emb w1);
      st_currentRate := length (requestTimes (emb w1));
      st_tier := currentTier (emb w1);
      st_burstUsed := burstUsed;
      st_burstLimit := 15;
      st_credits := credits;
      st_delay := universalDelay;
      st_sessionId := sessionId (emb w1);
      st_hasResumableSession := isSome saved |}, w2).

(** The constructor (lines 4-35) on a page whose storage is [ls] at time
    [now]; [checkForExistingSession] runs [loadProgress] once. *)
Definition newEmbedder (hasSocket : bool) (now : Z) (ls : Storage) : World :=
  snd (checkForExistingSession
    {| emb := {| queue := []; isPlacing := false; pixelsPlaced := 0; errors := 0;
                 currentCredits := None; sessionId := None; originalPixels := [];
                 currentTier := "Standard"; tierLogged := false;
                 burstTracker := []; requestTimes := []; lastRequestTime := None;
                 socket := hasSocket |};
       clock := now; localStorage := ls; trace := [] |}).

(** ** Views used by the proofs *)

(** The part of the world that belongs to the session and its checkpoint. *)
Definition session (w : World) :=
  (queue (emb w), isPlacing (emb w), pixelsPlaced (emb w), errors (emb w),
   sessionId (emb w), originalPixels (emb w), localStorage w).

(** The part of the world that belongs to the admission gate. *)
Definition limiter (w : World) :=
  (burstTracker (emb w), lastRequestTime (emb w), clock w, trace w).

(** The checkpoint in the store is older than 24 hours. *)
Definition expired (w : World) : bool :=
  match slot (localStorage w) with
  | Some (Json data) => dayMs <? clock w - pg_timestamp data
  | _ => false
  end.

(** The [catch] block takes its out-of-credits branch on [message]. *)
Definition isCreditError (message : string) : bool :=
  let m := toLowerCase message in
  negb (includes m "burst limit")
  && negb (includes m "rate" || includes m "limit")
  && includes m "credit".

(** ** Reading the observation log *)

Definition recorded (tr : list Event) : list Z :=
  flat_map (fun ev => match ev with EvRecord t => [t] | _ => [] end) tr.

Definition admitted (tr : list Event) : list Z :=
  flat_map (fun ev => match ev with EvAdmit t => [t] | _ => [] end) tr.

(** The pixels handed to [placePixel], which sends each as a page event. *)
Definition dispatched (tr : list Event) : list Pixel :=
  flat_map (fun ev => match ev with EvDispatch p _ => [p] | _ => [] end) tr.

Definition slept (tr : list Event) : list Z :=
  flat_map (fun ev => match ev with EvSleep ms => [Z.max 0 ms] | _ => [] end) tr.

Definition trackerSizes (tr : list Event) : list nat :=
  flat_map (fun ev => match ev with EvTracker l => [length l] | _ => [] end) tr.

(** ** Concrete pages and runs *)

(** A page without [window.socket]. *)
Definition noSocket : Fallback := {| windowSocket := false; fallbackOver := 0 |}.

Definition quietTurn : IterEnv :=
  {| lag := 0; burstOver := 0; spaceOver := 0; jitter := 50; jitterOver := 0;
     outcome := Placed 1; fallback := noSocket; coolOver := 0;
     creditsShown := None; stopRequested := false |}.

Definition creditFailure : IterEnv :=
  {| lag := 0; burstOver := 0; spaceOver := 0; jitter := 50; jitterOver := 0;
     outcome := Rejected 3 (Some "Insufficient credits"); fallback := noSocket;
     coolOver := 0; creditsShown := None; stopRequested := false |}.

Definition quietRun : RunEnv :=
  {| socketOver := 0; creditsAtStart := None; proceedAnyway := true;
     dialogTime := 0; sessionSuffix := "k3x9q2m1z"; resumeConfirmed := true;
     creditsAtEnd := None |}.

Definition emptyStorage : Storage := {| slot := None; quotaExceeded := false |}.

Definition freshPage : World := newEmbedder false 1700000000000 emptyStorage.

Definition pixelRow (n : nat) : list Pixel :=
  map (fun i => mkPixel (Z.of_nat i) 0 "#FFFFFF") (seq 0 n).

(** A batch of ten whose page is closed right after the tenth pixel's save
    (line 484), before the loop comes round again. *)
Definition interruptedAfterTen : World :=
  processLoop 10 (fun _ => quietTurn) 0 (startSession quietRun (pixelRow 10) freshPage).

(** The same browser a minute later, with a new embedder on the page. *)
Definition reloadedPage : World :=
  newEmbedder false (clock interruptedAfterTen + 60000)
    (localStorage interruptedAfterTen).

(** A batch of five that runs out of credits on its third pixel. *)
Definition stalledRun : World :=
  embedImage quietRun
    (fun i => if (i =? 2)%nat then creditFailure else quietTurn)
    (pixelRow 5) freshPage.

(** The page of [stalledRun], left open for twenty-five hours. *)
Definition nextDay : World := tick 90000000 stalledRun.

(** The pending queue of the checkpoint in the store, if there is one. *)
Definition storedQueue (w : World) : option (list Pixel) :=
  match slot (localStorage w) with
  | Some (Json data) => Some (pg_queue data)
  | _ => None
  end.

(** ** Invariants *)

(** Queue conservation: every pixel of the batch is placed, failed or still
    pending. *)
Definition conserved (w : World) : Prop :=
  pixelsPlaced (emb w) + errors (emb w) + Z.of_nat (length (queue (emb w)))
  = Z.of_nat (length (originalPixels (emb w))).

(** The guard of the [while] loop (line 472). *)
Definition loopGuard (w : World) : bool :=
  (0 <? length (queue (emb w)))%nat && isPlacing (emb w).

(** ** The parts of one turn

    [iteration] on a queue [pixel :: rest] is [settle] applied to what
    [placePixel] returns in the state [gate] leaves. *)

(** Lines 473-477: the shift and the admission gate. *)
Definition gate (e : IterEnv) (rest : list Pixel) (w : World) : World :=
  let w2 := safeDelay e (tick (lag e) (set_queue rest w)) in
  if stopRequested e then stop w2 else w2.

(** Lines 480-493: after a placement that succeeded. *)
Definition onSuccess (e : IterEnv) (w3 : World) : World :=
  let w4 := set_pixelsPlaced (pixelsPlaced (emb w3) + 1) w3 in
  let w5 := if pixelsPlaced (emb w4) mod 10 =? 0 then saveProgress w4 else w4 in
  if pixelsPlaced (emb w5) mod 50 =? 0
  then snd (getCurrentCredits (creditsShown e) w5) else w5.

(** Lines 496-516: after a placement that failed. *)
Definition onFailure (message : string) (e : IterEnv) (w3 : World) : World * bool :=
  handleError message e (saveProgress (set_errors (errors (emb w3) + 1) w3)).

Definition settle (e : IterEnv) (r : Settled * World) : World * bool :=
  match r with
  | (Resolved, w3) => (onSuccess e w3, false)
  | (Threw message, w3) => onFailure message e w3
  end.

(** The state just before the result of [placePixel] is handled. *)
Definition inFlight (e : IterEnv) (p : Pixel) (rest : list Pixel) (w : World) : World :=
  snd (placePixel p (outcome e) (fallback e) (gate e rest w)).

(** The message [placePixel] rejects with, if it rejects. *)
Definition failure (o : Outcome) : option string :=
  match o with
  | Placed _ => None
  | Rejected _ m => Some (errorMessage m)
  | TimedOut _ => Some "Pixel placement timeout"
  end.

(** The scenario of a batch of 100 whose 51st placement is refused for lack
    of credits. *)
Definition failsAt51 (i : nat) : IterEnv :=
  if (i =? 50)%nat then creditFailure else quietTurn.

(** ** The stages of [safeDelay]

    [safeDelay] is the composition of these five steps; [now] is the clock
    reading of line 222, which the later steps keep using. *)

(** Lines 225-226. *)
Definition cleanStage (w : World) : World :=
  let now := clock w in
  let w1 := set_requestTimes (filter (inLastMinute now) (requestTimes (emb w))) w in
  set_burstTracker (filter (inBurstWindow now) (burstTracker (emb w1))) w1.

(** Lines 229-241. *)
Definition burstStage (e : IterEnv) (now : Z) (w2 : World) : World :=
  if burstLimit <=? Z.of_nat (length (burstTracker (emb w2))) then
    match Math_min (burstTracker (emb w2)) with
    | Some oldestBurst =>
        let timeToWait := burstWindow - (now - oldestBurst) + burstSafetyBuffer in
        if 0 <? timeToWait then
          let w' := sleep timeToWait (burstOver e) w2 in
          set_burstTracker
            (filter (inBurstWindow (clock w')) (burstTracker (emb w'))) w'
        else w2
    | None =>
        let w' := sleep 0 (burstOver e) w2 in
        set_burstTracker
          (filter (inBurstWindow (clock w')) (burstTracker (emb w'))) w'
    end
  else w2.

(** Lines 244-250. *)
Definition spacingStage (e : IterEnv) (now : Z) (w3 : World) : World :=
  match lastRequestTime (emb w3) with
  | Some last =>
      if last =? 0 then w3
      else
        let timeSinceLastRequest := now - last in
        if timeSinceLastRequest <? universalDelay
        then sleep (universalDelay - timeSinceLastRequest) (spaceOver e) w3
        else w3
  | None => w3
  end.

(** Lines 253-254. *)
Definition jitterStage (e : IterEnv) (w4 : World) : World :=
  sleep (jitter e) (jitterOver e) w4.

(** Line 256. *)
Definition admitStage (w5 : World) : World :=
  log (EvAdmit (clock w5)) (set_lastRequestTime (Some (clock w5)) w5).

(** The burst log has never held more than [burstLimit] timestamps: neither
    now nor at any write the observation log has seen. *)
Definition trackerBound (w : World) : Prop :=
  Z.of_nat (length (burstTracker (emb w))) <= burstLimit /\
  Forall (fun n => Z.of_nat n <= burstLimit) (trackerSizes (trace w)).

(** ** The rate bound *)

(** [t] lies in the window of length [burstWindow] that starts at [a]
    (both ends included). *)
Definition inWindow (a t : Z) : bool := (a <=? t) && (t <=? a + burstWindow).

(** Recorded sends that fall in the window starting at [a]. *)
Definition windowCount (a : Z) (tr : list Event) : nat :=
  length (filter (inWindow a) (recorded tr)).

(** Consecutive times of a list (most recent first) are at least [gap]
    apart. *)
Fixpoint spaced (gap : Z) (newestFirst : list Z) : Prop :=
  match newestFirst with
  | [] => True
  | t2 :: earlier =>
      match earlier with
      | [] => True
      | t1 :: _ => t1 + gap <= t2
      end /\ spaced gap earlier
  end.

(** The timestamps of [l] from [theta] on. *)
Definition newer (theta : Z) (l : list Z) : list Z :=
  filter (fun t => theta <=? t) l.

(** From [theta] on, the burst log [trk] has an entry for every recorded
    send of [rec]. *)
Definition covers (theta : Z) (rec trk : list Z) : Prop :=
  forall theta', theta <= theta' ->
    (length (newer theta' rec) <= length (newer theta' trk))%nat.

(** The last admission the log has seen is the one in [lastRequestTime]. *)
Definition lastAdmission (w : World) : Prop :=
  match admitted (trace w) with
  | [] => True
  | t :: _ => lastRequestTime (emb w) = Some t /\ 0 < t
  end.

(** What holds of the admission gate's state with [slack] ms to spare and at
    most [room] entries in the burst log.  At the turn boundaries of the
    loop [slack = burstWindow - 1] and [room = burstLimit]; when [safeDelay]
    has returned, [slack = burstWindow] and [room = burstLimit - 1]. *)
Definition rateInv (slack room : Z) (w : World) : Prop :=
  0 < clock w /\
  Forall (fun t => t <= clock w) (recorded (trace w)) /\
  covers (clock w - slack) (recorded (trace w)) (burstTracker (emb w)) /\
  Z.of_nat (length (burstTracker (emb w))) <= room /\
  (forall a, Z.of_nat (windowCount a (trace w)) <= burstLimit) /\
  spaced universalDelay (admitted (trace w)) /\
  lastAdmission w.

(** The jitter is [Math.random() * 100 + 50] (line 253). *)
Definition jitterOk (e : IterEnv) : Prop := 50 <= jitter e < 150.

(** The spacing since the last admission has been waited out. *)
Definition spacedOut (w : World) : Prop :=
  forall t, lastRequestTime (emb w) = Some t -> 0 < t ->
    t + universalDelay <= clock w.

(** ** How long the admission gate waits *)

(** The sum of the delays asked of [sleep] so far. *)
Definition totalSlept (tr : list Event) : Z := fold_right Z.add 0 (slept tr).

(** The delays asked of [sleep] between the states [w] and [w']. *)
Definition requested (w w' : World) : Z :=
  totalSlept (trace w') - totalSlept (trace w).

(** Each timestamp of a list (oldest first) is at least [gap] before every
    later one. *)
Fixpoint ascending (gap : Z) (oldestFirst : list Z) : Prop :=
  match oldestFirst with
  | [] => True
  | t :: later => Forall (fun u => t + gap <= u) later /\ ascending gap later
  end.

(** Nothing the gate remembers lies in the future. *)
Definition notAhead (w : World) : Prop :=
  Forall (fun t => t <= clock w) (burstTracker (emb w)) /\
  (forall t, lastRequestTime (emb w) = Some t -> t <= clock w).

(** The state of the gate during a run: the burst log is in order with its
    entries at least 50 ms (the least jitter) apart and every entry at least
    [lead] ms old, and nothing the gate remembers lies in the future. *)
Definition paced (lead : Z) (w : World) : Prop :=
  ascending 50 (burstTracker (emb w)) /\
  Forall (fun t => t + lead <= clock w) (burstTracker (emb w)) /\
  (forall t, lastRequestTime (emb w) = Some t -> t <= clock w).

(** Fifteen placements made through [placePixel] directly and confirmed
    within the same millisecond. *)
Definition flooded : World :=
  Nat.iter 15
    (fun w => snd (placePixel (mkPixel 0 0 "#000000") (Placed 0) noSocket w))
    freshPage.

(** The times at which [placePixel] sent a pixel as a page event (most
    recent first). *)
Definition dispatchTimes (tr : list Event) : list Z :=
  flat_map (fun ev => match ev with EvDispatch _ t => [t] | _ => [] end) tr.

(** A page whose first confirmation takes half a second and whose second
    comes at once. *)
Definition slowThenFast (i : nat) : IterEnv :=
  {| lag := 0; burstOver := 0; spaceOver := 0; jitter := 50; jitterOver := 0;
     outcome := if (i =? 0)%nat then Placed 500 else Placed 0;
     fallback := noSocket;
     coolOver := 0; creditsShown := None; stopRequested := false |}.

(** ** What goes out to the server *)

(** The two ways [placePixel] sends a pixel: the page event of line 369 and
    the socket emission of line 397. *)
Inductive Channel := PageEvent | SocketEmit.

(** Every transmission the log has seen (most recent first). *)
Definition transmissions (tr : list Event) : list (Channel * Pixel * Z) :=
  flat_map (fun ev => match ev with
                      | EvDispatch p t => [(PageEvent, p, t)]
                      | EvSocket p t => [(SocketEmit, p, t)]
                      | _ => []
                      end) tr.

(** The pixels that went out as page events, among transmissions. *)
Definition pageEvents (l : list (Channel * Pixel * Z)) : list Pixel :=
  flat_map (fun s => match s with
                     | (PageEvent, p, _) => [p]
                     | (SocketEmit, _, _) => []
                     end) l.


(** Every socket emission of a list of transmissions (most recent first)
    comes right after a page event, repeats its pixel, and is at least
    200 ms later. *)
Fixpoint echoed (newestFirst : list (Channel * Pixel * Z)) : Prop :=
  match newestFirst with
  | [] => True
  | (SocketEmit, p, t) :: earlier =>
      match earlier with
      | (PageEvent, q, u) :: _ => q = p /\ u + 200 <= t
      | _ => False
      end /\ echoed earlier
  | (PageEvent, _, _) :: earlier => echoed earlier
  end.

(** A page with a socket, on which a confirmation takes half a second. *)
Definition socketPage : World := newEmbedder true 1700000000000 emptyStorage.

Definition slowSocketTurn : IterEnv :=
  {| lag := 0; burstOver := 0; spaceOver := 0; jitter := 50; jitterOver := 0;
     outcome := Placed 500;
     fallback := {| windowSocket := true; fallbackOver := 0 |};
     coolOver := 0; creditsShown := None; stopRequested := false |}.

(** The state in which the loop of a quiet run of sixteen calls [safeDelay]
    for the sixteenth pixel: the fifteen sends before it are in the burst
    log, and the last of them was admitted 1 ms ago. *)
Definition sixteenthCall : World :=
  tick (lag quietTurn)
    (set_queue []
       (processLoop 15 (fun _ => quietTurn) 0
          (startSession quietRun (pixelRow 16) freshPage))).

(** A turn whose burst-protection timer fires seven seconds late, as the
    timers of a page in the background do. *)
Definition lateTimer : IterEnv :=
  {| lag := 0; burstOver := 7000; spaceOver := 0; jitter := 50; jitterOver := 0;
     outcome := Placed 1; fallback := noSocket; coolOver := 0;
     creditsShown := None; stopRequested := false |}.


(** ** Further definitions *)

(** The ledger of a run: the pixels handed to [placePixel] so far, in that
    order, followed by the queue, are the batch; [pixelsPlaced] counts the
    placements that were recorded and [errors] the others. *)
Definition accounted (w : World) : Prop :=
  (rev (dispatched (trace w)) ++ queue (emb w))%list = originalPixels (emb w) /\
  Z.of_nat (length (recorded (trace w))) = pixelsPlaced (emb w) /\
  Z.of_nat (length (dispatched (trace w))) = pixelsPlaced (emb w) + errors (emb w).

(** Each time of a list (most recent first) is at least as late as every
    earlier one. *)
Fixpoint descending (newestFirst : list Z) : Prop :=
  match newestFirst with
  | [] => True
  | t :: earlier => Forall (fun u => u <= t) earlier /\ descending earlier
  end.

(** The recorded sends of a run that began at [start], in the order of the
    clock. *)
Definition timeline (start : Z) (w : World) : Prop :=
  start <= clock w /\
  Forall (fun t => start <= t <= clock w) (recorded (trace w)) /\
  descending (recorded (trace w)).

(** The checkpoint in the store is the current progress, short of at most
    nine pixels placed since the last save: its queue is those pixels
    ([redo]) followed by the current queue. *)
Definition checkpointed (w : World) : Prop :=
  exists data redo,
    slot (localStorage w) = Some (Json data) /\
    pg_queue data = (redo ++ queue (emb w))%list /\
    Z.of_nat (length redo) <= pixelsPlaced (emb w) mod 10 /\
    pg_pixelsPlaced data + Z.of_nat (length redo) = pixelsPlaced (emb w) /\
    pg_errors data = errors (emb w) /\
    pg_originalPixels data = originalPixels (emb w) /\
    pg_sessionId data = sessionId (emb w).

(** ** Reading an image: the pixel loop of [loadImage] (lines 292-312) *)

From Stdlib Require HexadecimalString Strings.Byte.

Definition upper_ascii (c : ascii) : ascii :=
  let n := nat_of_ascii c in
  if ((97 <=? n) && (n <=? 122))%nat then ascii_of_nat (n - 32) else c.

(** [s.toUpperCase()], on the ASCII strings the loop builds. *)
Fixpoint toUpperCase (s : string) : string :=
  match s with
  | EmptyString => EmptyString
  | String c s' => String (upper_ascii c) (toUpperCase s')
  end.

(** [n.toString(16)]: lower-case hexadecimal digits, no leading zero. *)
Definition toString16 (n : N) : string :=
  HexadecimalString.NilZero.string_of_uint (N.to_hex_uint n).

(** [s.padStart(n, c)] for a pad string of one character. *)
Definition padStart (n : nat) (c : ascii) (s : string) : string :=
  string_of_list_ascii (repeat c (n - String.length s)) ++ s.

(** Line 304: the colour of a pixel from its three channels. *)
Definition colorOf (r g b : Byte.byte) : string :=
  toUpperCase
    ("#" ++ padStart 2 "0" (toString16 (Strings.Byte.to_N r))
         ++ padStart 2 "0" (toString16 (Strings.Byte.to_N g))
         ++ padStart 2 "0" (toString16 (Strings.Byte.to_N b))).

(** One turn of the inner loop (lines 296-310), as the pixels it pushes.
    [imageData.data] is a byte array; an index beyond its end reads
    [undefined], which is not below 128 and has no [toString]: [None] is
    the [TypeError] of line 304. *)
Definition scanPixel (width : nat) (data : list Byte.byte) (startX startY : Z)
    (y x : nat) : option (list Pixel) :=
  let i := ((y * width + x) * 4)%nat in
  let skip :=
    match nth_error data (i + 3) with
    | Some a => (Strings.Byte.to_N a <? 128)%N
    | None => false
    end in
  if skip then Some []
  else
    match nth_error data i, nth_error data (i + 1), nth_error data (i + 2) with
    | Some r, Some g, Some b =>
        Some [mkPixel (startX + Z.of_nat x) (startY + Z.of_nat y) (colorOf r g b)]
    | _, _, _ => None
    end.

(** A loop whose turns push pixels, until one throws. *)
Fixpoint collect {A : Type} (turn : A -> option (list Pixel)) (l : list A)
    : option (list Pixel) :=
  match l with
  | [] => Some []
  | a :: l' =>
      match turn a with
      | None => None
      | Some pushed =>
          match collect turn l' with
          | None => None
          | Some rest => Some (pushed ++ rest)%list
          end
      end
  end.

(** Lines 292-312: rows from the top, each from the left. *)
Definition extractPixels (width height : nat) (data : list Byte.byte)
    (startX startY : Z) : option (list Pixel) :=
  collect
    (fun y => collect (scanPixel width data startX startY y) (seq 0 width))
    (seq 0 height).

(** What the browser makes of the file: the bytes that [getImageData]
    returns for the scaled [width] by [height] image (lines 280-291), or
    nothing when the file does not decode ([onerror], lines 321-324). *)
Inductive Image :=
  | Decoded (width height : nat) (data : list Byte.byte)
  | Undecodable.

(** [loadImage] (lines 269-328), as the list its promise resolves to;
    [None] when the pixel loop throws and the promise never settles. *)
Definition loadImage (img : Image) (startX startY : Z) : option (list Pixel) :=
  match img with
  | Decoded width height data => extractPixels width height data startX startY
  | Undecodable => Some []
  end.

(** [embedAtCenter] (lines 665-673): the arguments it passes to
    [embedImage], for a whole number [maxWidth]. *)
Definition embedAtCenter (maxWidth : Z) : Z * Z * Z :=
  let canvasWidth := 1000 in
  let canvasHeight := 1000 in
  let centerX := (canvasWidth - maxWidth) / 2 in
  let centerY := (canvasHeight - maxWidth) / 2 in
  (centerX, centerY, maxWidth).

(** The image has an opaque pixel at column [x] of row [y], and [p] is
    what the loop makes of it. *)
Definition opaqueAt (width : nat) (data : list Byte.byte) (startX startY : Z)
    (y x : nat) (p : Pixel) : Prop :=
  exists r g b a,
    nth_error data ((y * width + x) * 4) = Some r /\
    nth_error data ((y * width + x) * 4 + 1) = Some g /\
    nth_error data ((y * width + x) * 4 + 2) = Some b /\
    nth_error data ((y * width + x) * 4 + 3) = Some a /\
    (128 <= Strings.Byte.to_N a)%N /\
    p = mkPixel (startX + Z.of_nat x) (startY + Z.of_nat y) (colorOf r g b).

(** Reading order: rows from the top, each row from the left. *)
Definition rowMajor (p q : Pixel) : Prop :=
  py p < py q \/ (py p = py q /\ px p < px q).

(** The characters of a colour after the hash sign. *)
Definition hexUpper (c : ascii) : bool :=
  existsb (Ascii.eqb c) (list_ascii_of_string "0123456789ABCDEF").

(** The value of a hexadecimal digit. *)
Definition hexValue (c : ascii) : N :=
  let n := N_of_ascii c in
  if (n <? 58)%N then (n - 48)%N else (n - 55)%N.

(** A small image: two rows of three, the middle column transparent. *)
Definition twoByThree : list Byte.byte :=
  let opaque := [Byte.xff; Byte.x80; Byte.x00; Byte.xff] in
  let clear := [Byte.x00; Byte.x00; Byte.x00; Byte.x7f] in
  (opaque ++ clear ++ opaque ++ opaque ++ clear ++ opaque)%list.

(** Every element of a list stands before the later ones in the order [R]. *)
Fixpoint ordered (R : Pixel -> Pixel -> Prop) (l : list Pixel) : Prop :=
  match l with
  | [] => True
  | p :: rest => Forall (R p) rest /\ ordered R rest
  end.

(** A position of the 1000 by 1000 canvas. *)
Definition onCanvas (p : Pixel) : Prop :=
  0 <= px p < 1000 /\ 0 <= py p < 1000.

(** * Properties *)

(** ** What each step leaves alone *)

Arguments safeDelay : simpl never.
Arguments saveProgress : simpl never.
Arguments iteration : simpl never.
Arguments handleError : simpl never.
Arguments processQueue : simpl never.

(** Case analysis on every condition the goal branches on. *)
Ltac case_if :=
  match goal with
  | |- context [if ?c then _ else _] => destruct c
  end.

Ltac case_branches :=
  repeat match goal with
         | |- context [if ?c then _ else _] => destruct c
         | |- context [match ?x with _ => _ end] => destruct x
         end.

Lemma session_fields :
  forall w w', session w' = session w ->
    queue (emb w') = queue (emb w) /\
    isPlacing (emb w') = isPlacing (emb w) /\
    pixelsPlaced (emb w') = pixelsPlaced (emb w) /\
    errors (emb w') = errors (emb w) /\
    sessionId (emb w') = sessionId (emb w) /\
    originalPixels (emb w') = originalPixels (emb w) /\
    localStorage w' = localStorage w.
Proof.
  unfold session. intros w w' H. inversion H. repeat split; assumption.
Qed.

Lemma limiter_fields :
  forall w w', limiter w' = limiter w ->
    burstTracker (emb w') = burstTracker (emb w) /\
    lastRequestTime (emb w') = lastRequestTime (emb w) /\
    clock w' = clock w /\
    trace w' = trace w.
Proof.
  unfold limiter. intros w w' H. inversion H. repeat split; assumption.
Qed.

Lemma sleep_session : forall ms o w, session (sleep ms o w) = session w.
Proof. reflexivity. Qed.

Lemma safeDelay_session : forall e w, session (safeDelay e w) = session w.
Proof.
  intros e w. unfold safeDelay.
  case_branches; reflexivity.
Qed.

Lemma recordRequest_session : forall w, session (recordRequest w) = session w.
Proof. reflexivity. Qed.

(** The transmissions of [placePixel] touch the observation log only. *)
Lemma transmit_state :
  forall p o f w,
    emb (transmit p o f w) = emb w /\
    clock (transmit p o f w) = clock w /\
    localStorage (transmit p o f w) = localStorage w.
Proof.
  intros p o f w. unfold transmit. destruct (_ && _); repeat split.
Qed.

Lemma transmit_log :
  forall p o f w,
    recorded (trace (transmit p o f w)) = recorded (trace w) /\
    admitted (trace (transmit p o f w)) = admitted (trace w) /\
    slept (trace (transmit p o f w)) = slept (trace w) /\
    trackerSizes (trace (transmit p o f w)) = trackerSizes (trace w) /\
    dispatched (trace (transmit p o f w)) = p :: dispatched (trace w) /\
    dispatchTimes (trace (transmit p o f w)) = clock w :: dispatchTimes (trace w).
Proof.
  intros p o f w. unfold transmit. destruct (_ && _); repeat split.
Qed.

Lemma placePixel_session :
  forall p o f w, session (snd (placePixel p o f w)) = session w.
Proof.
  intros p o f w.
  assert (H : session (transmit p o f w) = session w).
  { unfold transmit. destruct (_ && _); reflexivity. }
  unfold placePixel. destruct o; cbn [snd]; rewrite <- H; reflexivity.
Qed.

Lemma getCurrentCredits_session :
  forall dom w, session (snd (getCurrentCredits dom w)) = session w.
Proof. intros [c|] w; reflexivity. Qed.

Lemma getCurrentCredits_limiter :
  forall dom w, limiter (snd (getCurrentCredits dom w)) = limiter w.
Proof. intros [c|] w; reflexivity. Qed.

Lemma saveProgress_limiter : forall w, limiter (saveProgress w) = limiter w.
Proof.
  intros w. unfold saveProgress.
  destruct (negb _); [reflexivity|].
  destruct (setItem _ _); reflexivity.
Qed.

Lemma saveProgress_emb : forall w, emb (saveProgress w) = emb w.
Proof.
  intros w. unfold saveProgress.
  destruct (negb _); [reflexivity|].
  destruct (setItem _ _); reflexivity.
Qed.

Lemma saveProgress_quota :
  forall w, quotaExceeded (localStorage (saveProgress w)) = quotaExceeded (localStorage w).
Proof.
  intros w. unfold saveProgress, setItem.
  destruct (negb _); [reflexivity|].
  destruct (quotaExceeded (localStorage w)) eqn:Q; [exact Q|reflexivity].
Qed.

(** A save that goes through leaves exactly the current progress behind. *)
Lemma saveProgress_stores :
  forall w,
    truthy_string (sessionId (emb w)) = true ->
    quotaExceeded (localStorage w) = false ->
    slot (localStorage (saveProgress w)) = Some (Json (progressData w)).
Proof.
  intros w Hs Hq. unfold saveProgress, setItem. rewrite Hs, Hq. reflexivity.
Qed.

Lemma saveProgress_falsy :
  forall w, truthy_string (sessionId (emb w)) = false -> saveProgress w = w.
Proof. intros w H. unfold saveProgress. rewrite H. reflexivity. Qed.

(** ** The checkpoint store *)

Lemma clearProgress_slot : forall w, slot (localStorage (clearProgress w)) = None.
Proof. reflexivity. Qed.

Lemma loadProgress_absent :
  forall w, slot (localStorage w) = None -> loadProgress w = (None, w).
Proof. intros w H. unfold loadProgress. rewrite H. reflexivity. Qed.

Lemma loadProgress_spec :
  forall w,
    loadProgress w =
    if expired w then (None, clearProgress w)
    else (match slot (localStorage w) with
          | Some (Json data) => Some data
          | _ => None
          end, w).
Proof.
  intros w. unfold loadProgress, expired.
  destruct (slot (localStorage w)) as [[data|]|]; reflexivity.
Qed.

(** C4.  A checkpoint whose timestamp is more than 24 hours old is removed
    by [loadProgress], which returns [null]; any later [loadProgress] finds
    the store empty and returns [null] too. *)
Theorem loadProgress_expired_purges :
  forall (w : World) (data : Progress) (later : N),
    slot (localStorage w) = Some (Json data) ->
    dayMs < clock w - pg_timestamp data ->
    loadProgress w = (None, clearProgress w) /\
    slot (localStorage (clearProgress w)) = None /\
    loadProgress (tick later (clearProgress w))
      = (None, tick later (clearProgress w)).
Proof.
  intros w data later Hslot Hold. split; [|split].
  - unfold loadProgress. rewrite Hslot.
    apply Z.ltb_lt in Hold. rewrite Hold. reflexivity.
  - apply clearProgress_slot.
  - apply loadProgress_absent. reflexivity.
Qed.

Lemma loadProgress_expired_purges_witness :
  slot (localStorage nextDay) <> None /\
  loadProgress nextDay = (None, clearProgress nextDay) /\
  slot (localStorage (clearProgress nextDay)) = None /\
  loadProgress (tick 5000 (clearProgress nextDay))
    = (None, tick 5000 (clearProgress nextDay)).
Proof.
  split.
  - vm_compute. discriminate.
  - eapply loadProgress_expired_purges.
    + vm_compute. reflexivity.
    + vm_compute. reflexivity.
Defined.

(** C10.  Without a session ([sessionId] is [null]) [saveProgress] changes
    nothing, the store included; that is the state of a new embedder and the
    state [clearSession] leaves, whose store is empty as well. *)
Theorem saveProgress_noop_without_session :
  forall w : World,
    sessionId (emb w) = None ->
    saveProgress w = w /\
    saveProgress (clearSession w) = clearSession w /\
    slot (localStorage (saveProgress (clearSession w))) = None /\
    (forall hasSocket now ls,
        saveProgress (newEmbedder hasSocket now ls) = newEmbedder hasSocket now ls).
Proof.
  intros w H. split; [|split; [|split]].
  - apply saveProgress_falsy. rewrite H. reflexivity.
  - reflexivity.
  - reflexivity.
  - intros hasSocket now ls. apply saveProgress_falsy.
    unfold newEmbedder, checkForExistingSession.
    rewrite loadProgress_spec.
    destruct (expired _); [reflexivity|].
    cbn. destruct ls as [[[d|]|] q]; reflexivity.
Qed.

Lemma saveProgress_noop_without_session_witness :
  sessionId (emb freshPage) = None /\ saveProgress freshPage = freshPage.
Proof.
  split; [reflexivity|].
  apply (saveProgress_noop_without_session freshPage). reflexivity.
Defined.

(** ** Resuming *)

(** C7, as the claim states it, fails: a checkpoint with an empty queue (left
    by a page closed after the tenth pixel of a batch of ten) is still in the
    store after [resumeEmbedding]. *)
Lemma resume_empty_checkpoint_not_purged :
  storedQueue reloadedPage = Some [] /\
  storedQueue (snd (resumeEmbedding quietRun (fun _ => quietTurn) reloadedPage))
    = Some [].
Proof. split; vm_compute; reflexivity. Qed.

(** C7, amended.  Resuming from a checkpoint whose pending queue is empty is
    refused: [resumeEmbedding] returns [false], sends no pixel and restores
    nothing.  The checkpoint is not purged by the resume; it leaves the store
    only through the 24-hour expiry of [loadProgress]. *)
Theorem resume_empty_checkpoint_refused :
  forall (r : RunEnv) (env : nat -> IterEnv) (w : World) (data : Progress),
    slot (localStorage w) = Some (Json data) ->
    pg_queue data = [] ->
    resumeEmbedding r env w = (false, if expired w then clearProgress w else w) /\
    emb (snd (resumeEmbedding r env w)) = emb w /\
    dispatched (trace (snd (resumeEmbedding r env w))) = dispatched (trace w) /\
    (expired w = false ->
     slot (localStorage (snd (resumeEmbedding r env w))) = Some (Json data)).
Proof.
  intros r env w data Hslot Hq.
  assert (E : resumeEmbedding r env w
              = (false, if expired w then clearProgress w else w)).
  { unfold resumeEmbedding. rewrite loadProgress_spec.
    destruct (expired w); [reflexivity|].
    rewrite Hslot, Hq. reflexivity. }
  rewrite E. cbn [snd]. split; [reflexivity|].
  destruct (expired w); repeat split; try reflexivity.
  - discriminate.
  - intros _. exact Hslot.
Qed.

Lemma resume_empty_checkpoint_refused_witness :
  resumeEmbedding quietRun (fun _ => quietTurn) reloadedPage
    = (false, if expired reloadedPage then clearProgress reloadedPage
              else reloadedPage).
Proof.
  eapply (proj1 (resume_empty_checkpoint_refused quietRun (fun _ => quietTurn)
                   reloadedPage _ _ _)).
  Unshelve.
  - exact (mkProgress (Some "embed_1700000000000_k3x9q2m1z") [] (pixelRow 10)
             10 0 1700000004101 true).
  - vm_compute. reflexivity.
  - reflexivity.
Defined.

(** ** Status *)

(** C8, as the claim states it, fails: [getStatus] removes a checkpoint that
    is more than 24 hours old from the store, and it overwrites
    [currentCredits] with what the page shows. *)
Lemma getStatus_writes :
  localStorage (snd (getStatus None nextDay)) <> localStorage nextDay /\
  currentCredits (emb (snd (getStatus (Some 7) freshPage)))
    <> currentCredits (emb freshPage).
Proof. split; vm_compute; discriminate. Qed.

(** C8, amended.  [getStatus] returns the status record and leaves the
    session, the queue, the counters, the rate-limiter logs and the clock as
    they were.  It has two effects: [currentCredits] takes the number the page
    shows (when it shows one), and a checkpoint older than 24 hours is removed
    from the store; a store without an expired checkpoint is unchanged. *)
Theorem getStatus_effects :
  forall (dom : option Z) (w : World),
    fst (getStatus dom w) =
      {| st_isPlacing := isPlacing (emb w);
         st_queueLength := length (queue (emb w));
         st_originalPixelsCount := length (originalPixels (emb w));
         st_pixelsPlaced := pixelsPlaced (emb w);
         st_errors := errors (emb w);
         st_currentRate := length (requestTimes (emb w));
         st_tier := currentTier (emb w);
         st_burstUsed :=
           length (filter (inBurstWindow (clock w)) (burstTracker (emb w)));
         st_burstLimit := 15;
         st_credits := dom;
         st_delay := universalDelay;
         st_sessionId := sessionId (emb w);
         st_hasResumableSession :=
           match slot (localStorage w) with
           | Some (Json _) => negb (expired w)
           | _ => false
           end |} /\
    emb (set_currentCredits None (snd (getStatus dom w)))
      = emb (set_currentCredits None w) /\
    currentCredits (emb (snd (getStatus dom w)))
      = match dom with Some c => Some c | None => currentCredits (emb w) end /\
    clock (snd (getStatus dom w)) = clock w /\
    trace (snd (getStatus dom w)) = trace w /\
    localStorage (snd (getStatus dom w))
      = if expired w then removeItem (localStorage w) else localStorage w.
Proof.
  intros dom w. unfold getStatus.
  destruct dom as [c|]; cbn [getCurrentCredits];
    rewrite loadProgress_spec;
    unfold expired; cbn;
    destruct (slot (localStorage w)) as [[data|]|]; cbn;
    try match goal with
        | |- context [if ?b then _ else _] => destruct b; cbn
        end;
    repeat split; reflexivity.
Qed.

(** ** One turn of the dispatch loop *)

Lemma handleError_credit :
  forall message e w,
    isCreditError message = true ->
    handleError message e w = (set_isPlacing false w, true).
Proof.
  intros message e w H. unfold isCreditError in H. unfold handleError.
  destruct (includes (toLowerCase message) "burst limit"); [discriminate|].
  destruct (includes (toLowerCase message) "rate" || includes (toLowerCase message) "limit");
    [discriminate|].
  cbn in H. rewrite H. reflexivity.
Qed.

Lemma handleError_frame :
  forall message e w,
    let w' := fst (handleError message e w) in
    queue (emb w') = queue (emb w) /\
    pixelsPlaced (emb w') = pixelsPlaced (emb w) /\
    errors (emb w') = errors (emb w) /\
    sessionId (emb w') = sessionId (emb w) /\
    originalPixels (emb w') = originalPixels (emb w) /\
    localStorage w' = localStorage w /\
    isPlacing (emb w') = isPlacing (emb w) && negb (snd (handleError message e w)).
Proof.
  intros message e w. unfold handleError.
  repeat case_if; cbn; repeat split; try reflexivity;
  destruct (isPlacing (emb w)); reflexivity.
Qed.

Lemma stop_session :
  forall w,
    session (stop w)
    = (queue (emb w), false, pixelsPlaced (emb w), errors (emb w),
       sessionId (emb w), originalPixels (emb w), localStorage w).
Proof. reflexivity. Qed.

Lemma shift_session :
  forall d rest w,
    session (tick d (set_queue rest w))
    = (rest, isPlacing (emb w), pixelsPlaced (emb w), errors (emb w),
       sessionId (emb w), originalPixels (emb w), localStorage w).
Proof. reflexivity. Qed.

Lemma inFlight_session :
  forall e p rest w,
    session (inFlight e p rest w)
    = (rest, isPlacing (emb w) && negb (stopRequested e), pixelsPlaced (emb w),
       errors (emb w), sessionId (emb w), originalPixels (emb w), localStorage w).
Proof.
  intros e p rest w. unfold inFlight, gate.
  rewrite placePixel_session.
  pose proof (safeDelay_session e (tick (lag e) (set_queue rest w))) as H.
  rewrite shift_session in H.
  generalize dependent (safeDelay e (tick (lag e) (set_queue rest w))).
  intros w2 H.
  destruct (stopRequested e).
  - rewrite stop_session. unfold session in H. inversion H.
    rewrite andb_false_r. reflexivity.
  - rewrite H, andb_true_r. reflexivity.
Qed.

Lemma iteration_eq :
  forall e w p rest,
    queue (emb w) = p :: rest ->
    iteration e w = settle e (placePixel p (outcome e) (fallback e) (gate e rest w)).
Proof.
  intros e w p rest Hq. unfold iteration. rewrite Hq. reflexivity.
Qed.

(** A turn whose placement succeeds. *)
Lemma iteration_placed :
  forall e w p rest l,
    queue (emb w) = p :: rest ->
    outcome e = Placed l ->
    exists w',
      iteration e w = (w', false) /\
      queue (emb w') = rest /\
      isPlacing (emb w') = isPlacing (emb w) && negb (stopRequested e) /\
      pixelsPlaced (emb w') = pixelsPlaced (emb w) + 1 /\
      errors (emb w') = errors (emb w) /\
      sessionId (emb w') = sessionId (emb w) /\
      originalPixels (emb w') = originalPixels (emb w) /\
      quotaExceeded (localStorage w') = quotaExceeded (localStorage w).
Proof.
  intros e w p rest l Hq Ho.
  pose proof (inFlight_session e p rest w) as H.
  apply (f_equal Some) in H.
  rewrite (iteration_eq e w p rest Hq).
  unfold inFlight in H.
  destruct (placePixel p (outcome e) (fallback e) _) as [s w3] eqn:E.
  assert (s = Resolved) as ->.
  { rewrite Ho in E. cbn in E. inversion E. reflexivity. }
  cbn [snd] in H. injection H as Hq3 Hp3 Hn3 He3 Hs3 Ho3 Hl3.
  unfold settle, onSuccess.
  eexists. split; [reflexivity|].
  set (w4 := set_pixelsPlaced (pixelsPlaced (emb w3) + 1) w3).
  assert (F4 : queue (emb w4) = rest /\
               isPlacing (emb w4) = isPlacing (emb w) && negb (stopRequested e) /\
               pixelsPlaced (emb w4) = pixelsPlaced (emb w) + 1 /\
               errors (emb w4) = errors (emb w) /\
               sessionId (emb w4) = sessionId (emb w) /\
               originalPixels (emb w4) = originalPixels (emb w) /\
               quotaExceeded (localStorage w4) = quotaExceeded (localStorage w)).
  { subst w4. cbn. rewrite Hq3, Hp3, Hn3, He3, Hs3, Ho3, Hl3. repeat split. }
  clearbody w4.
  set (w5 := if pixelsPlaced (emb w4) mod 10 =? 0 then saveProgress w4 else w4).
  assert (F5 : emb w5 = emb w4 /\
               quotaExceeded (localStorage w5) = quotaExceeded (localStorage w4)).
  { subst w5. destruct (_ =? 0); [|split; reflexivity].
    split; [apply saveProgress_emb | apply saveProgress_quota]. }
  destruct F5 as [E5 Q5]. clearbody w5.
  destruct (pixelsPlaced (emb w5) mod 50 =? 0);
    try (destruct (creditsShown e)); cbn; rewrite ?E5, ?Q5; exact F4.
Qed.

(** A turn whose placement fails with [message]. *)
Lemma iteration_failed :
  forall e w p rest message,
    queue (emb w) = p :: rest ->
    failure (outcome e) = Some message ->
    exists w5,
      iteration e w = handleError message e (saveProgress w5) /\
      queue (emb w5) = rest /\
      isPlacing (emb w5) = isPlacing (emb w) && negb (stopRequested e) /\
      pixelsPlaced (emb w5) = pixelsPlaced (emb w) /\
      errors (emb w5) = errors (emb w) + 1 /\
      sessionId (emb w5) = sessionId (emb w) /\
      originalPixels (emb w5) = originalPixels (emb w) /\
      localStorage w5 = localStorage w.
Proof.
  intros e w p rest message Hq Hf.
  pose proof (inFlight_session e p rest w) as H.
  apply (f_equal Some) in H.
  rewrite (iteration_eq e w p rest Hq).
  unfold inFlight in H.
  destruct (placePixel p (outcome e) (fallback e) _) as [s w3] eqn:E.
  assert (s = Threw message) as ->.
  { destruct (outcome e); cbn in Hf, E; inversion E; congruence. }
  cbn [snd] in H. injection H as Hq3 Hp3 Hn3 He3 Hs3 Ho3 Hl3.
  exists (set_errors (errors (emb w3) + 1) w3).
  split; [reflexivity|].
  cbn. rewrite Hq3, Hp3, Hn3, He3, Hs3, Ho3, Hl3. repeat split.
Qed.

(** What any turn does to the session. *)
Lemma iteration_frame :
  forall e w p rest,
    queue (emb w) = p :: rest ->
    let w' := fst (iteration e w) in
    queue (emb w') = rest /\
    pixelsPlaced (emb w') + errors (emb w')
      = pixelsPlaced (emb w) + errors (emb w) + 1 /\
    sessionId (emb w') = sessionId (emb w) /\
    originalPixels (emb w') = originalPixels (emb w) /\
    quotaExceeded (localStorage w') = quotaExceeded (localStorage w) /\
    (snd (iteration e w) = true -> isPlacing (emb w') = false).
Proof.
  intros e w p rest Hq.
  destruct (failure (outcome e)) as [message|] eqn:Hf.
  - destruct (iteration_failed e w p rest message Hq Hf)
      as (w5 & E & Q & P & N & R & Hs & O & L).
    cbn zeta. rewrite E.
    pose proof (handleError_frame message e (saveProgress w5)) as F.
    cbn zeta in F. destruct F as (Fq & Fn & Fe & Fs & Fo & Fl & Fp).
    rewrite Fq, Fn, Fe, Fs, Fo, Fl, Fp, !saveProgress_emb, saveProgress_quota.
    rewrite Q, N, R, Hs, O, L.
    repeat split; try lia.
    intros ->. rewrite andb_false_r. reflexivity.
  - destruct (outcome e) as [l| |] eqn:Ho; try discriminate.
    destruct (iteration_placed e w p rest l Hq Ho)
      as (w' & E & Q & P & N & R & Hs & O & L).
    cbn zeta. rewrite E. cbn [fst snd].
    rewrite Q, N, R, Hs, O, L. repeat split; try lia.
Qed.

(** ** The loop as a whole *)

Lemma processLoop_S :
  forall fuel env i w,
    processLoop (S fuel) env i w =
    if loopGuard w then
      if snd (iteration (env i) w) then fst (iteration (env i) w)
      else processLoop fuel env (S i) (fst (iteration (env i) w))
    else w.
Proof.
  intros fuel env i w. cbn [processLoop]. unfold loopGuard.
  destruct (_ && _); [|reflexivity].
  destruct (iteration (env i) w) as [w' brk]. reflexivity.
Qed.

Lemma loopGuard_true :
  forall w, loopGuard w = true ->
    isPlacing (emb w) = true /\ exists p rest, queue (emb w) = p :: rest.
Proof.
  intros w H. unfold loopGuard in H. apply andb_true_iff in H.
  destruct H as [Hq Hp]. split; [exact Hp|].
  destruct (queue (emb w)) as [|p rest]; [discriminate|eauto].
Qed.

Lemma loopGuard_empty :
  forall w, queue (emb w) = [] -> loopGuard w = false.
Proof. intros w H. unfold loopGuard. rewrite H. reflexivity. Qed.

Lemma processLoop_guard_false :
  forall fuel env i w, loopGuard w = false -> processLoop fuel env i w = w.
Proof.
  intros [|fuel] env i w H; [reflexivity|].
  rewrite processLoop_S, H. reflexivity.
Qed.


(** More fuel than [length queue] changes nothing. *)
Lemma processLoop_fuel :
  forall extra fuel env i w,
    (length (queue (emb w)) <= fuel)%nat ->
    processLoop (fuel + extra) env i w = processLoop fuel env i w.
Proof.
  intros extra. induction fuel as [|fuel IH]; intros env i w Hlen.
  - cbn [processLoop Nat.add]. apply processLoop_guard_false.
    apply loopGuard_empty.
    destruct (queue (emb w)); [reflexivity|cbn in Hlen; lia].
  - cbn [Nat.add]. rewrite !processLoop_S.
    destruct (loopGuard w) eqn:G; [|reflexivity].
    destruct (loopGuard_true w G) as (_ & p & rest & Hq).
    pose proof (iteration_frame (env i) w p rest Hq) as F.
    cbn zeta in F. destruct F as (Q & _).
    destruct (snd (iteration (env i) w)); [reflexivity|].
    apply IH. rewrite Q. rewrite Hq in Hlen. cbn in Hlen. lia.
Qed.

(** What the loop leaves alone, and what it conserves. *)
Lemma processLoop_frame :
  forall fuel env i w,
    let w' := processLoop fuel env i w in
    sessionId (emb w') = sessionId (emb w) /\
    originalPixels (emb w') = originalPixels (emb w) /\
    quotaExceeded (localStorage w') = quotaExceeded (localStorage w) /\
    pixelsPlaced (emb w') + errors (emb w') + Z.of_nat (length (queue (emb w')))
      = pixelsPlaced (emb w) + errors (emb w) + Z.of_nat (length (queue (emb w))).
Proof.
  induction fuel as [|fuel IH]; intros env i w; cbn zeta.
  - cbn [processLoop]. repeat split.
  - rewrite processLoop_S. destruct (loopGuard w) eqn:G; [|repeat split].
    destruct (loopGuard_true w G) as (_ & p & rest & Hq).
    pose proof (iteration_frame (env i) w p rest Hq) as F.
    cbn zeta in F. destruct F as (Q & N & Hs & O & L & _).
    assert (C : pixelsPlaced (emb (fst (iteration (env i) w)))
                + errors (emb (fst (iteration (env i) w)))
                + Z.of_nat (length (queue (emb (fst (iteration (env i) w)))))
                = pixelsPlaced (emb w) + errors (emb w)
                  + Z.of_nat (length (queue (emb w)))).
    { rewrite Q, Hq. cbn [length]. lia. }
    destruct (snd (iteration (env i) w)).
    + repeat split; assumption.
    + specialize (IH env (Datatypes.S i) (fst (iteration (env i) w))).
      cbn zeta in IH. destruct IH as (S' & O' & L' & C').
      rewrite S', O', L', C'. repeat split; assumption.
Qed.

(** ** Starting and finishing a run *)

Lemma embedImage_runs :
  forall r env pixels w,
    embedImage r env pixels w =
    if snd (preflight r pixels w)
    then processQueue r env (startSession r pixels (fst (preflight r pixels w)))
    else fst (preflight r pixels w).
Proof.
  intros r env pixels w. unfold embedImage.
  destruct (preflight r pixels w) as [w1 go]. reflexivity.
Qed.

Lemma preflight_storage :
  forall r pixels w, localStorage (fst (preflight r pixels w)) = localStorage w.
Proof.
  intros r pixels w. unfold preflight.
  destruct (isPlacing (emb w)); [reflexivity|].
  destruct (socket (emb w)); destruct (length pixels =? 0)%nat; try reflexivity;
    destruct (creditsAtStart r) as [c|]; cbn; try reflexivity;
    destruct (c <? Z.of_nat (length pixels)); reflexivity.
Qed.

Lemma generateSessionId_truthy :
  forall r w, truthy_string (Some (generateSessionId r w)) = true.
Proof. reflexivity. Qed.

Lemma startSession_session :
  forall r pixels w,
    let w' := startSession r pixels w in
    queue (emb w') = pixels /\
    isPlacing (emb w') = true /\
    pixelsPlaced (emb w') = 0 /\
    errors (emb w') = 0 /\
    sessionId (emb w') = Some (generateSessionId r w) /\
    originalPixels (emb w') = pixels /\
    quotaExceeded (localStorage w') = quotaExceeded (localStorage w).
Proof.
  intros r pixels w. cbn zeta. unfold startSession.
  rewrite saveProgress_emb, saveProgress_quota. cbn. repeat split.
Qed.

(** The epilogue of [processQueue] (lines 520-530) on the state [w1] the loop
    left. *)
Lemma processQueue_epilogue :
  forall r env w,
    let w1 := processLoop (length (queue (emb w))) env 0 w in
    let w' := processQueue r env w in
    queue (emb w') = queue (emb w1) /\
    isPlacing (emb w') = false /\
    pixelsPlaced (emb w') = pixelsPlaced (emb w1) /\
    errors (emb w') = errors (emb w1) /\
    sessionId (emb w') = sessionId (emb w1) /\
    originalPixels (emb w') = originalPixels (emb w1) /\
    clock w' = clock w1 /\
    localStorage w' =
      localStorage (if (length (queue (emb w1)) =? 0)%nat
                    then clearProgress (set_isPlacing false w1)
                    else saveProgress (set_isPlacing false w1)).
Proof.
  intros r env w. cbn zeta. unfold processQueue, showSummary.
  set (w1 := processLoop _ env 0 w).
  change (queue (emb (set_isPlacing false w1))) with (queue (emb w1)).
  destruct (length (queue (emb w1)) =? 0)%nat;
    destruct (creditsAtEnd r); cbn;
    rewrite ?saveProgress_emb;
    try (pose proof (saveProgress_limiter (set_isPlacing false w1)) as L;
         apply limiter_fields in L; destruct L as (_ & _ & L & _); rewrite L);
    cbn; repeat split.
Qed.

(** C3.  In a run started by [embedImage], at every turn boundary of the
    dispatch loop ([processLoop k] is the state after [k] turns, or the state
    at which the loop stopped if that came earlier) and when [processQueue]
    has finished, [pixelsPlaced + errors + |queue| = |originalPixels|]. *)
Theorem queue_conservation :
  forall (r : RunEnv) (env : nat -> IterEnv) (pixels : list Pixel) (w : World)
         (k : nat),
    conserved (processLoop k env 0 (startSession r pixels w)) /\
    conserved (processQueue r env (startSession r pixels w)).
Proof.
  intros r env pixels w k.
  pose proof (startSession_session r pixels w) as HS. cbn zeta in HS.
  destruct HS as (Sq & _ & Sn & Se & _ & So & _).
  assert (C : forall n, conserved (processLoop n env 0 (startSession r pixels w))).
  { intros n. unfold conserved.
    pose proof (processLoop_frame n env 0 (startSession r pixels w)) as F.
    cbn zeta in F. destruct F as (_ & O & _ & F).
    rewrite F, O, Sq, Sn, Se, So. lia. }
  split; [apply C|].
  pose proof (processQueue_epilogue r env (startSession r pixels w)) as E.
  cbn zeta in E. destruct E as (Eq & _ & En & Ee & _ & Eo & _).
  unfold conserved. rewrite Eq, En, Ee, Eo. apply C.
Qed.



(** [k] turns in a row whose placements succeed and during which nobody
    calls [stop]. *)
Lemma processLoop_successes :
  forall k fuel env i w,
    (k <= length (queue (emb w)))%nat ->
    isPlacing (emb w) = true ->
    (forall j, (j < k)%nat -> failure (outcome (env (i + j)%nat)) = None) ->
    (forall j, (j < k)%nat -> stopRequested (env (i + j)%nat) = false) ->
    exists wk,
      processLoop (k + fuel) env i w = processLoop fuel env (i + k) wk /\
      queue (emb wk) = skipn k (queue (emb w)) /\
      isPlacing (emb wk) = true /\
      pixelsPlaced (emb wk) = pixelsPlaced (emb w) + Z.of_nat k /\
      errors (emb wk) = errors (emb w) /\
      sessionId (emb wk) = sessionId (emb w) /\
      originalPixels (emb wk) = originalPixels (emb w) /\
      quotaExceeded (localStorage wk) = quotaExceeded (localStorage w).
Proof.
  induction k as [|k IH]; intros fuel env i w Hlen Hp Hok Hstop.
  - exists w. rewrite Nat.add_0_r. cbn [Nat.add skipn Z.of_nat].
    rewrite Z.add_0_r. repeat split; try reflexivity. exact Hp.
  - destruct (queue (emb w)) as [|p rest] eqn:Hq; [cbn in Hlen; lia|].
    assert (Ho : exists l, outcome (env i) = Placed l).
    { specialize (Hok 0%nat ltac:(lia)). rewrite Nat.add_0_r in Hok.
      destruct (outcome (env i)) as [l| |]; try discriminate. eauto. }
    destruct Ho as [l Ho].
    destruct (iteration_placed (env i) w p rest l Hq Ho)
      as (w' & E & Q & P & N & R & Hs & O & L).
    assert (Hs0 : stopRequested (env i) = false).
    { specialize (Hstop 0%nat ltac:(lia)). rewrite Nat.add_0_r in Hstop.
      exact Hstop. }
    rewrite Hp, Hs0 in P. cbn in P.
    destruct (IH fuel env (S i) w') as (wk & Ek & Qk & Pk & Nk & Rk & Sk & Ok & Lk).
    + rewrite Q. cbn in Hlen. lia.
    + exact P.
    + intros j Hj. replace (S i + j)%nat with (i + S j)%nat by lia.
      apply Hok. lia.
    + intros j Hj. replace (S i + j)%nat with (i + S j)%nat by lia.
      apply Hstop. lia.
    + exists wk. split.
      * cbn [Nat.add]. rewrite processLoop_S.
        assert (G : loopGuard w = true).
        { unfold loopGuard. rewrite Hq, Hp. reflexivity. }
        rewrite G, E. cbn [fst snd]. rewrite Ek. f_equal. lia.
      * rewrite Qk, Pk, Nk, Rk, Sk, Ok, Lk, Q, N, R, Hs, O, L.
        cbn [skipn]. repeat split. lia.
Qed.

(** C5.  A batch of 100 whose first 50 placements succeed and whose 51st is
    rejected with an out-of-credits message stops there: 50 placed, 1 error,
    the 49 pixels after the failed one still queued, [isPlacing] false, and
    the checkpoint of that state in the store. *)
Theorem credit_failure_scenario :
  forall (r : RunEnv) (env : nat -> IterEnv) (pixels : list Pixel) (w : World)
         (message : string),
    length pixels = 100%nat ->
    snd (preflight r pixels w) = true ->
    quotaExceeded (localStorage w) = false ->
    (forall i, (i < 50)%nat -> failure (outcome (env i)) = None) ->
    (forall i, (i < 50)%nat -> stopRequested (env i) = false) ->
    failure (outcome (env 50%nat)) = Some message ->
    isCreditError message = true ->
    let w' := embedImage r env pixels w in
    pixelsPlaced (emb w') = 50 /\
    errors (emb w') = 1 /\
    queue (emb w') = skipn 51 pixels /\
    length (queue (emb w')) = 49%nat /\
    originalPixels (emb w') = pixels /\
    isPlacing (emb w') = false /\
    slot (localStorage w') = Some (Json (progressData w')).
Proof.
  intros r env pixels w message Hlen Hgo Hquota Hok Hstop Hfail Hcredit.
  cbn zeta. rewrite embedImage_runs, Hgo.
  set (w0 := fst (preflight r pixels w)).
  assert (Hq0 : quotaExceeded (localStorage w0) = false).
  { subst w0. rewrite preflight_storage. exact Hquota. }
  pose proof (startSession_session r pixels w0) as HS. cbn zeta in HS.
  destruct HS as (Sq & Sp & Sn & Se & Ss & So & Sl).
  set (ws := startSession r pixels w0) in *.
  (* fifty good turns *)
  destruct (processLoop_successes 50 50 env 0 ws)
    as (wk & Ek & Qk & Pk & Nk & Rk & Sk & Ok & Lk).
  { rewrite Sq, Hlen. lia. }
  { exact Sp. }
  { intros j Hj. apply Hok. exact Hj. }
  { intros j Hj. apply Hstop. exact Hj. }
  (* the fifty-first *)
  assert (Hsk : exists p, skipn 50 pixels = p :: skipn 51 pixels).
  { clear -Hlen. do 50 (destruct pixels as [|? pixels]; [discriminate|]).
    destruct pixels as [|failed pixels]; [discriminate|]. exists failed. reflexivity. }
  destruct Hsk as [p Hsk].
  rewrite Sq, Hsk in Qk.
  destruct (iteration_failed (env 50%nat) wk p (skipn 51 pixels) message Qk Hfail)
    as (w5 & E5 & Q5 & P5 & N5 & R5 & S5 & O5 & L5).
  rewrite handleError_credit in E5 by exact Hcredit.
  assert (Eloop : processLoop (length (queue (emb ws))) env 0 ws
                  = set_isPlacing false (saveProgress w5)).
  { rewrite Sq, Hlen. change 100%nat with (50 + 50)%nat. rewrite Ek.
    change (0 + 50)%nat with 50%nat.
    rewrite processLoop_S.
    assert (G : loopGuard wk = true).
    { unfold loopGuard. rewrite Qk, Pk. reflexivity. }
    rewrite G, E5. reflexivity. }
  pose proof (processQueue_epilogue r env ws) as E. cbn zeta in E.
  rewrite Eloop in E.
  destruct E as (Eq & Ep & En & Ee & Es & Eo & Ec & El).
  cbn in Eq, En, Ee, Es, Eo. rewrite saveProgress_emb in Eq, En, Ee, Es, Eo.
  assert (Hq51 : length (skipn 51 pixels) = 49%nat).
  { rewrite length_skipn, Hlen. reflexivity. }
  split; [rewrite En, N5, Nk, Sn; reflexivity|].
  split; [rewrite Ee, R5, Rk, Se; reflexivity|].
  split; [rewrite Eq, Q5; reflexivity|].
  split; [rewrite Eq, Q5; exact Hq51|].
  split; [rewrite Eo, O5, Ok, So; reflexivity|].
  split; [exact Ep|].
  rewrite El.
  change (queue (emb (set_isPlacing false (saveProgress w5))))
    with (queue (emb (saveProgress w5))).
  rewrite saveProgress_emb, Q5, Hq51. cbn [Nat.eqb].
  rewrite saveProgress_stores.
  - unfold progressData. rewrite Eq, Ep, En, Ee, Es, Eo, Ec.
    cbn. rewrite ?saveProgress_emb. reflexivity.
  - cbn. rewrite saveProgress_emb, S5, Sk, Ss. apply generateSessionId_truthy.
  - cbn. rewrite saveProgress_quota, L5, Lk, Sl. exact Hq0.
Qed.

Lemma credit_failure_scenario_witness :
  let w' := embedImage quietRun failsAt51 (pixelRow 100) freshPage in
  isCreditError "Insufficient credits" = true /\
  pixelsPlaced (emb w') = 50 /\
  errors (emb w') = 1 /\
  queue (emb w') = skipn 51 (pixelRow 100) /\
  length (queue (emb w')) = 49%nat /\
  originalPixels (emb w') = pixelRow 100 /\
  isPlacing (emb w') = false /\
  slot (localStorage w') = Some (Json (progressData w')).
Proof.
  cbn zeta. split; [vm_compute; reflexivity|].
  apply (credit_failure_scenario quietRun failsAt51 (pixelRow 100) freshPage
           "Insufficient credits").
  - vm_compute. reflexivity.
  - vm_compute. reflexivity.
  - vm_compute. reflexivity.
  - intros i Hi. unfold failsAt51.
    destruct (Nat.eqb_spec i 50); [lia|reflexivity].
  - intros i Hi. unfold failsAt51.
    destruct (Nat.eqb_spec i 50); [lia|reflexivity].
  - vm_compute. reflexivity.
  - vm_compute. reflexivity.
Defined.

(** ** The admission gate, stage by stage *)

Lemma safeDelay_stages :
  forall e w,
    safeDelay e w
    = admitStage (jitterStage e (spacingStage e (clock w)
        (burstStage e (clock w) (cleanStage w)))).
Proof. reflexivity. Qed.

(** *** Lists of timestamps *)

Lemma fold_min_le : forall l a, fold_left Z.min l a <= a.
Proof.
  induction l as [|x l IH]; intros a; cbn; [lia|].
  specialize (IH (Z.min a x)). lia.
Qed.

Lemma fold_min_In : forall l a, fold_left Z.min l a = a \/ In (fold_left Z.min l a) l.
Proof.
  induction l as [|x l IH]; intros a; cbn; [left; reflexivity|].
  destruct (IH (Z.min a x)) as [H|H].
  - rewrite H. destruct (Z.min_spec a x) as [[_ E]|[_ E]]; rewrite E; auto.
  - auto.
Qed.

Lemma fold_min_lower : forall l a x, In x l -> fold_left Z.min l a <= x.
Proof.
  induction l as [|y l IH]; intros a x H; [contradiction|].
  cbn. destruct H as [->|H].
  - pose proof (fold_min_le l (Z.min a x)). lia.
  - apply IH. exact H.
Qed.

Lemma Math_min_In : forall l m, Math_min l = Some m -> In m l.
Proof.
  intros [|t ts] m H; [discriminate|]. cbn in H. injection H as <-.
  destruct (fold_min_In ts t) as [E|E]; [left; symmetry; exact E | right; exact E].
Qed.

Lemma Math_min_lower : forall l m x, Math_min l = Some m -> In x l -> m <= x.
Proof.
  intros [|t ts] m x H Hx; [discriminate|]. cbn in H. injection H as <-.
  destruct Hx as [<-|Hx]; [apply fold_min_le | apply fold_min_lower; exact Hx].
Qed.

Lemma filter_drops :
  forall (f : Z -> bool) l x,
    In x l -> f x = false -> (length (filter f l) < length l)%nat.
Proof.
  induction l as [|y l IH]; intros x Hin Hf; [contradiction|].
  cbn. destruct Hin as [->|Hin].
  - rewrite Hf. pose proof (filter_length_le f l). lia.
  - specialize (IH x Hin Hf). destruct (f y); cbn; lia.
Qed.

Lemma inBurstWindow_spec :
  forall now t, inBurstWindow now t = true <-> now - t < burstWindow.
Proof. intros now t. unfold inBurstWindow. apply Z.ltb_lt. Qed.

(** *** The burst log never exceeds the quota *)

Lemma sleep_clock :
  forall ms o w, clock (sleep ms o w) = clock w + Z.max 0 ms + Z.of_N o.
Proof. reflexivity. Qed.

Lemma cleanStage_bound :
  forall w,
    trackerBound w ->
    trackerBound (cleanStage w) /\
    clock (cleanStage w) = clock w /\
    Forall (fun t => clock w - t < burstWindow) (burstTracker (emb (cleanStage w))).
Proof.
  intros w [Hl Ht]. unfold cleanStage, trackerBound. cbn.
  pose proof (filter_length_le (inBurstWindow (clock w)) (burstTracker (emb w))).
  repeat split.
  - lia.
  - constructor; [lia|exact Ht].
  - apply Forall_forall. intros t Hin. apply filter_In in Hin.
    apply inBurstWindow_spec. apply Hin.
Qed.

Lemma set_burstTracker_tracker :
  forall l w, burstTracker (emb (set_burstTracker l w)) = l.
Proof. reflexivity. Qed.

Lemma set_burstTracker_sizes :
  forall l w,
    trackerSizes (trace (set_burstTracker l w)) = length l :: trackerSizes (trace w).
Proof. reflexivity. Qed.

Lemma sleep_tracker :
  forall ms o w, burstTracker (emb (sleep ms o w)) = burstTracker (emb w).
Proof. reflexivity. Qed.

Lemma sleep_sizes :
  forall ms o w, trackerSizes (trace (sleep ms o w)) = trackerSizes (trace w).
Proof. reflexivity. Qed.

Lemma burstStage_bound :
  forall e now w,
    trackerBound w ->
    Forall (fun t => now - t < burstWindow) (burstTracker (emb w)) ->
    now <= clock w ->
    Z.of_nat (length (burstTracker (emb (burstStage e now w)))) <= burstLimit - 1 /\
    Forall (fun n => Z.of_nat n <= burstLimit) (trackerSizes (trace (burstStage e now w))).
Proof.
  intros e now w [Hl Ht] Hwin Hnow. unfold burstStage.
  destruct (burstLimit <=? Z.of_nat (length (burstTracker (emb w)))) eqn:G.
  2:{ apply Z.leb_gt in G. split; [lia|exact Ht]. }
  destruct (Math_min (burstTracker (emb w))) as [oldest|] eqn:M.
  - pose proof (Math_min_In _ _ M) as Hin.
    pose proof (proj1 (Forall_forall _ _) Hwin oldest Hin) as Hold. cbn beta in Hold.
    assert (P : (0 <? burstWindow - (now - oldest) + burstSafetyBuffer) = true).
    { apply Z.ltb_lt. unfold burstSafetyBuffer. lia. }
    rewrite P.
    rewrite set_burstTracker_tracker, set_burstTracker_sizes, sleep_tracker,
      sleep_sizes, sleep_clock.
    set (c' := clock w + _ + _).
    assert (D : inBurstWindow c' oldest = false).
    { unfold inBurstWindow. apply Z.ltb_ge. subst c'.
      unfold burstWindow, burstSafetyBuffer in *. lia. }
    pose proof (filter_drops (inBurstWindow c') _ _ Hin D) as L.
    split; [lia|].
    constructor; [lia|exact Ht].
  - destruct (burstTracker (emb w)); [|discriminate].
    cbn in G. discriminate.
Qed.

Lemma safeDelay_bound :
  forall e w,
    trackerBound w ->
    Z.of_nat (length (burstTracker (emb (safeDelay e w)))) <= burstLimit - 1 /\
    Forall (fun n => Z.of_nat n <= burstLimit) (trackerSizes (trace (safeDelay e w))).
Proof.
  intros e w H. rewrite safeDelay_stages.
  destruct (cleanStage_bound w H) as (Hc & Hclock & Hwin).
  pose proof (burstStage_bound e (clock w) (cleanStage w) Hc Hwin
                ltac:(rewrite Hclock; lia)) as [Hb Ht].
  set (w3 := burstStage e (clock w) (cleanStage w)) in *. clearbody w3.
  unfold admitStage, jitterStage, spacingStage.
  destruct (lastRequestTime (emb w3)) as [last|]; [|split; assumption].
  destruct (last =? 0); [split; assumption|].
  destruct (clock w - last <? universalDelay); split; assumption.
Qed.

Lemma recordRequest_bound :
  forall w,
    Z.of_nat (length (burstTracker (emb w))) <= burstLimit - 1 ->
    Forall (fun n => Z.of_nat n <= burstLimit) (trackerSizes (trace w)) ->
    trackerBound (recordRequest w).
Proof.
  intros w Hl Ht. unfold recordRequest, trackerBound. cbn.
  pose proof (filter_length_le (inBurstWindow (clock w))
                (burstTracker (emb w) ++ [clock w])) as F.
  rewrite length_app in F. cbn in F.
  split; [lia|].
  constructor; [lia|].
  constructor; [rewrite length_app; cbn; lia|exact Ht].
Qed.

Lemma handleError_bound :
  forall message e w, trackerBound w -> trackerBound (fst (handleError message e w)).
Proof.
  intros message e w [Hl Ht]. unfold handleError.
  repeat case_if; cbn; try (split; assumption).
  split; cbn; [unfold burstLimit; lia|].
  constructor; [cbn; unfold burstLimit; lia|exact Ht].
Qed.

Lemma trackerBound_limiter :
  forall w w', limiter w' = limiter w -> trackerBound w -> trackerBound w'.
Proof.
  intros w w' H [Hl Ht]. apply limiter_fields in H.
  destruct H as (Hb & _ & _ & Htr). unfold trackerBound.
  rewrite Hb, Htr. split; assumption.
Qed.

Lemma gate_bound :
  forall e rest w,
    trackerBound w ->
    Z.of_nat (length (burstTracker (emb (gate e rest w)))) <= burstLimit - 1 /\
    Forall (fun n => Z.of_nat n <= burstLimit) (trackerSizes (trace (gate e rest w))).
Proof.
  intros e rest w H. unfold gate.
  assert (H1 : trackerBound (tick (lag e) (set_queue rest w))) by exact H.
  pose proof (safeDelay_bound e _ H1) as B.
  generalize dependent (safeDelay e (tick (lag e) (set_queue rest w))).
  intros w2 B. destruct (stopRequested e); exact B.
Qed.

Lemma placePixel_bound :
  forall p o f w,
    Z.of_nat (length (burstTracker (emb w))) <= burstLimit - 1 ->
    Forall (fun n => Z.of_nat n <= burstLimit) (trackerSizes (trace w)) ->
    trackerBound (snd (placePixel p o f w)).
Proof.
  intros p o f w Hl Ht.
  destruct (transmit_state p o f w) as (Te & _ & _).
  destruct (transmit_log p o f w) as (_ & _ & _ & Tt & _).
  rewrite <- Te in Hl. rewrite <- Tt in Ht. clear Te Tt.
  unfold placePixel. generalize dependent (transmit p o f w).
  intros w1 Hl Ht. destruct o as [l|l m|late]; cbn [snd].
  - apply recordRequest_bound; assumption.
  - split; [cbn; lia|exact Ht].
  - split; [cbn; lia|exact Ht].
Qed.

Lemma onSuccess_limiter : forall e w, limiter (onSuccess e w) = limiter w.
Proof.
  intros e w. unfold onSuccess.
  set (w4 := set_pixelsPlaced _ w).
  assert (L4 : limiter w4 = limiter w) by reflexivity. clearbody w4.
  set (w5 := if pixelsPlaced (emb w4) mod 10 =? 0 then saveProgress w4 else w4).
  assert (L5 : limiter w5 = limiter w).
  { subst w5. destruct (_ =? 0); [rewrite saveProgress_limiter|]; exact L4. }
  clearbody w5.
  destruct (_ =? 0); [rewrite getCurrentCredits_limiter|]; exact L5.
Qed.

Lemma settle_bound :
  forall e s w, trackerBound w -> trackerBound (fst (settle e (s, w))).
Proof.
  intros e s w H. destruct s as [|message]; cbn [settle fst].
  - eapply trackerBound_limiter; [apply onSuccess_limiter|exact H].
  - unfold onFailure. apply handleError_bound.
    eapply trackerBound_limiter; [apply saveProgress_limiter|exact H].
Qed.

Lemma iteration_bound :
  forall e w, trackerBound w -> trackerBound (fst (iteration e w)).
Proof.
  intros e w H.
  destruct (queue (emb w)) as [|p rest] eqn:Hq.
  - unfold iteration. rewrite Hq. exact H.
  - rewrite (iteration_eq e w p rest Hq).
    destruct (gate_bound e rest w H) as [Hl Ht].
    pose proof (placePixel_bound p (outcome e) (fallback e) _ Hl Ht) as B.
    destruct (placePixel p (outcome e) (fallback e) (gate e rest w)) as [s w3].
    apply settle_bound. exact B.
Qed.

Lemma processLoop_bound :
  forall fuel env i w, trackerBound w -> trackerBound (processLoop fuel env i w).
Proof.
  induction fuel as [|fuel IH]; intros env i w H; [exact H|].
  rewrite processLoop_S. destruct (loopGuard w); [|exact H].
  pose proof (iteration_bound (env i) w H) as B.
  destruct (snd (iteration (env i) w)); [exact B|apply IH; exact B].
Qed.

Lemma processQueue_bound :
  forall r env w, trackerBound w -> trackerBound (processQueue r env w).
Proof.
  intros r env w H. unfold processQueue, showSummary.
  eapply trackerBound_limiter;
    [|apply (processLoop_bound (length (queue (emb w))) env 0 w H)].
  rewrite getCurrentCredits_limiter.
  destruct (_ =? _)%nat; [reflexivity|].
  rewrite saveProgress_limiter. reflexivity.
Qed.

Lemma preflight_limiter_bound :
  forall r pixels w,
    trackerBound w -> trackerBound (fst (preflight r pixels w)).
Proof.
  intros r pixels w H. unfold preflight.
  destruct (isPlacing (emb w)); [exact H|].
  assert (H1 : trackerBound (if socket (emb w) then sleep 300 (socketOver r) w else w)).
  { destruct (socket (emb w)); exact H. }
  generalize dependent (if socket (emb w) then sleep 300 (socketOver r) w else w).
  intros w1 H1.
  destruct (length pixels =? 0)%nat; [exact H1|].
  destruct (creditsAtStart r) as [c|]; cbn [getCurrentCredits]; [|exact H1].
  destruct (c <? Z.of_nat (length pixels)); exact H1.
Qed.

Lemma startSession_bound :
  forall r pixels w,
    Forall (fun n => Z.of_nat n <= burstLimit) (trackerSizes (trace w)) ->
    trackerBound (startSession r pixels w).
Proof.
  intros r pixels w H. unfold startSession.
  eapply trackerBound_limiter; [apply saveProgress_limiter|].
  split; cbn; [unfold burstLimit; lia|].
  constructor; [cbn; unfold burstLimit; lia|exact H].
Qed.

Lemma loadProgress_limiter :
  forall w, limiter (snd (loadProgress w)) = limiter w /\
            emb (snd (loadProgress w)) = emb w.
Proof.
  intros w. rewrite loadProgress_spec. destruct (expired w); split; reflexivity.
Qed.

(** C9.  The burst log never holds more than [burstLimit] = 15 timestamps:
    from a state in which it never did, every write to [burstTracker] made
    by a run ([embedImage], [resumeEmbedding], or any number of turns of the
    loop) leaves at most 15 entries, and so does the state the run ends in. *)
Theorem burstTracker_never_exceeds_quota :
  forall (r : RunEnv) (env : nat -> IterEnv) (pixels : list Pixel) (w : World)
         (k : nat),
    trackerBound w ->
    trackerBound (embedImage r env pixels w) /\
    trackerBound (snd (resumeEmbedding r env w)) /\
    trackerBound (processLoop k env 0 w).
Proof.
  intros r env pixels w k H. split; [|split].
  - rewrite embedImage_runs.
    pose proof (preflight_limiter_bound r pixels w H) as P.
    destruct (snd (preflight r pixels w)); [|exact P].
    apply processQueue_bound. apply startSession_bound. apply P.
  - unfold resumeEmbedding.
    destruct (loadProgress_limiter w) as [L _].
    pose proof (trackerBound_limiter _ _ L H) as H1.
    destruct (loadProgress w) as [[s|] w1]; cbn [snd] in *; [|exact H1].
    destruct (length (pg_queue s) =? 0)%nat; [exact H1|].
    destruct (isPlacing (emb w1)); [exact H1|].
    assert (H2 : trackerBound (tick (dialogTime r) (restore s w1))) by exact H1.
    destruct (resumeConfirmed r); cbn [snd]; [|exact H2].
    apply processQueue_bound. exact H2.
  - apply processLoop_bound. exact H.
Qed.

Lemma burstTracker_never_exceeds_quota_witness :
  trackerBound freshPage /\
  trackerBound (embedImage quietRun (fun _ => quietTurn) (pixelRow 16) freshPage).
Proof.
  assert (H : trackerBound freshPage).
  { split; [cbn; unfold burstLimit; lia|constructor]. }
  split; [exact H|].
  apply (burstTracker_never_exceeds_quota quietRun (fun _ => quietTurn)
           (pixelRow 16) freshPage 0 H).
Defined.

(** *** The window bound and the spacing *)

Lemma filter_length_impl :
  forall (p q : Z -> bool) l,
    (forall t, p t = true -> q t = true) ->
    (length (filter p l) <= length (filter q l))%nat.
Proof.
  intros p q l H. induction l as [|t l IH]; [cbn; lia|].
  cbn. destruct (p t) eqn:P.
  - rewrite (H t P). cbn. lia.
  - destruct (q t); cbn; lia.
Qed.

Lemma filter_filter_impl :
  forall (p q : Z -> bool) l,
    (forall t, p t = true -> q t = true) ->
    filter p (filter q l) = filter p l.
Proof.
  intros p q l H. induction l as [|t l IH]; [reflexivity|].
  cbn. destruct (q t) eqn:Q; cbn.
  - rewrite IH. reflexivity.
  - destruct (p t) eqn:P; [|exact IH].
    rewrite (H t P) in Q. discriminate.
Qed.

Lemma covers_mono :
  forall theta theta2 rec trk,
    theta <= theta2 -> covers theta rec trk -> covers theta2 rec trk.
Proof.
  intros theta theta2 rec trk H C theta' H'. apply C. lia.
Qed.

Lemma covers_filter :
  forall theta c rec trk,
    theta <= c - burstWindow + 1 ->
    covers theta rec trk ->
    covers (c - burstWindow + 1) rec (filter (inBurstWindow c) trk).
Proof.
  intros theta c rec trk H C theta' H'.
  unfold newer at 2. rewrite filter_filter_impl.
  - apply C. lia.
  - intros t Ht. apply Z.leb_le in Ht. apply inBurstWindow_spec. lia.
Qed.

Lemma covers_push :
  forall theta r rec trk,
    covers theta rec trk -> covers theta (r :: rec) (trk ++ [r]).
Proof.
  intros theta r rec trk C theta' H'. specialize (C theta' H').
  unfold newer in *. rewrite filter_app, length_app. cbn.
  destruct (theta' <=? r); cbn; lia.
Qed.

Lemma covers_old :
  forall theta rec trk,
    Forall (fun t => t < theta) rec -> covers theta rec trk.
Proof.
  intros theta rec trk H theta' H'.
  assert (E : newer theta' rec = []).
  { unfold newer. induction H as [|t rec Ht _ IH]; [reflexivity|].
    cbn. destruct (theta' <=? t) eqn:L; [apply Z.leb_le in L; lia|exact IH]. }
  rewrite E. cbn. lia.
Qed.

Lemma rateInv_limiter :
  forall slack room w w',
    limiter w' = limiter w -> rateInv slack room w -> rateInv slack room w'.
Proof.
  intros slack room w w' H I. apply limiter_fields in H.
  destruct H as (Hb & Hl & Hc & Ht).
  unfold rateInv, lastAdmission, windowCount in *.
  rewrite Hb, Hl, Hc, Ht. exact I.
Qed.

Lemma rateInv_weaken :
  forall slack room slack' room' w,
    slack' <= slack -> room <= room' ->
    rateInv slack room w -> rateInv slack' room' w.
Proof.
  intros slack room slack' room' w Hs Hr (I1 & I2 & I3 & I4 & I5 & I6 & I7).
  repeat split; try assumption.
  - eapply covers_mono; [|exact I3]. lia.
  - lia.
Qed.

(** Time passing keeps the invariant. *)
Lemma rateInv_tick :
  forall slack room d w, rateInv slack room w -> rateInv slack room (tick d w).
Proof.
  intros slack room d w (I1 & I2 & I3 & I4 & I5 & I6 & I7).
  unfold rateInv. cbn [tick clock emb trace].
  repeat split; try assumption.
  - lia.
  - eapply Forall_impl; [|exact I2]. cbn beta. intros t Ht. lia.
  - eapply covers_mono; [|exact I3]. lia.
Qed.

Lemma rateInv_sleep :
  forall slack room ms o w, rateInv slack room w -> rateInv slack room (sleep ms o w).
Proof.
  intros slack room ms o w (I1 & I2 & I3 & I4 & I5 & I6 & I7).
  unfold rateInv.
  change (recorded (trace (sleep ms o w))) with (recorded (trace w)).
  change (admitted (trace (sleep ms o w))) with (admitted (trace w)).
  change (burstTracker (emb (sleep ms o w))) with (burstTracker (emb w)).
  change (windowCount ?a (trace (sleep ms o w))) with (windowCount a (trace w)).
  rewrite sleep_clock.
  repeat split; try assumption.
  - lia.
  - eapply Forall_impl; [|exact I2]. cbn beta. intros t Ht. lia.
  - eapply covers_mono; [|exact I3]. lia.
Qed.

Lemma rateInv_room :
  forall slack room room' w,
    Z.of_nat (length (burstTracker (emb w))) <= room' ->
    rateInv slack room w -> rateInv slack room' w.
Proof.
  intros slack room room' w H (I1 & I2 & I3 & I4 & I5 & I6 & I7).
  repeat split; assumption.
Qed.

(** Dropping the entries that have left the window (lines 226, 239, 266). *)
Lemma rateInv_refilter :
  forall room w,
    rateInv (burstWindow - 1) room w ->
    rateInv (burstWindow - 1) room
      (set_burstTracker (filter (inBurstWindow (clock w)) (burstTracker (emb w))) w).
Proof.
  intros room w (I1 & I2 & I3 & I4 & I5 & I6 & I7).
  unfold rateInv. rewrite set_burstTracker_tracker.
  change (clock (set_burstTracker ?l w)) with (clock w).
  change (recorded (trace (set_burstTracker ?l w))) with (recorded (trace w)).
  change (admitted (trace (set_burstTracker ?l w))) with (admitted (trace w)).
  change (windowCount ?a (trace (set_burstTracker ?l w))) with (windowCount a (trace w)).
  repeat split; try assumption.
  - replace (clock w - (burstWindow - 1)) with (clock w - burstWindow + 1) by lia.
    eapply covers_filter; [|exact I3]. lia.
  - pose proof (filter_length_le (inBurstWindow (clock w)) (burstTracker (emb w))).
    lia.
Qed.

Lemma cleanStage_rate :
  forall room w,
    rateInv (burstWindow - 1) room w ->
    rateInv (burstWindow - 1) room (cleanStage w) /\
    clock (cleanStage w) = clock w /\
    Forall (fun t => clock w - t < burstWindow) (burstTracker (emb (cleanStage w))).
Proof.
  intros room w I. split; [|split].
  - unfold cleanStage.
    apply (rateInv_refilter room
             (set_requestTimes (filter (inLastMinute (clock w)) (requestTimes (emb w))) w)).
    eapply rateInv_limiter; [|exact I]. reflexivity.
  - reflexivity.
  - unfold cleanStage. rewrite set_burstTracker_tracker.
    apply Forall_forall. intros t Hin. apply filter_In in Hin.
    apply inBurstWindow_spec. apply Hin.
Qed.

Lemma burstStage_room :
  forall e now w,
    Z.of_nat (length (burstTracker (emb w))) <= burstLimit ->
    Forall (fun t => now - t < burstWindow) (burstTracker (emb w)) ->
    now <= clock w ->
    Z.of_nat (length (burstTracker (emb (burstStage e now w)))) <= burstLimit - 1.
Proof.
  intros e now w Hl Hwin Hnow. unfold burstStage.
  destruct (burstLimit <=? Z.of_nat (length (burstTracker (emb w)))) eqn:G.
  2:{ apply Z.leb_gt in G. lia. }
  destruct (Math_min (burstTracker (emb w))) as [oldest|] eqn:M.
  - pose proof (Math_min_In _ _ M) as Hin.
    pose proof (proj1 (Forall_forall _ _) Hwin oldest Hin) as Hold. cbn beta in Hold.
    assert (P : (0 <? burstWindow - (now - oldest) + burstSafetyBuffer) = true).
    { apply Z.ltb_lt. unfold burstSafetyBuffer. lia. }
    rewrite P.
    rewrite set_burstTracker_tracker, sleep_tracker, sleep_clock.
    set (c' := clock w + _ + _).
    assert (D : inBurstWindow c' oldest = false).
    { unfold inBurstWindow. apply Z.ltb_ge. subst c'.
      unfold burstWindow, burstSafetyBuffer in *. lia. }
    pose proof (filter_drops (inBurstWindow c') _ _ Hin D) as L.
    lia.
  - destruct (burstTracker (emb w)); [|discriminate].
    cbn in G. discriminate.
Qed.

Lemma burstStage_rate :
  forall e now w,
    rateInv (burstWindow - 1) burstLimit w ->
    Forall (fun t => now - t < burstWindow) (burstTracker (emb w)) ->
    now <= clock w ->
    rateInv (burstWindow - 1) (burstLimit - 1) (burstStage e now w) /\
    now <= clock (burstStage e now w) /\
    lastRequestTime (emb (burstStage e now w)) = lastRequestTime (emb w).
Proof.
  intros e now w I Hwin Hnow.
  assert (Hroom : Z.of_nat (length (burstTracker (emb (burstStage e now w))))
                  <= burstLimit - 1).
  { apply burstStage_room; [apply I|exact Hwin|exact Hnow]. }
  assert (Hrest : rateInv (burstWindow - 1) burstLimit (burstStage e now w) /\
                  now <= clock (burstStage e now w) /\
                  lastRequestTime (emb (burstStage e now w)) = lastRequestTime (emb w)).
  { unfold burstStage.
    destruct (burstLimit <=? _); [|repeat split; [apply I..|exact Hnow]].
    destruct (Math_min (burstTracker (emb w))) as [oldest|].
    - destruct (0 <? _); [|repeat split; [apply I..|exact Hnow]].
      split; [apply rateInv_refilter, rateInv_sleep, I|].
      split; [|reflexivity].
      change (clock (set_burstTracker ?l ?x)) with (clock x).
      rewrite sleep_clock. lia.
    - split; [apply rateInv_refilter, rateInv_sleep, I|].
      split; [|reflexivity].
      change (clock (set_burstTracker ?l ?x)) with (clock x).
      rewrite sleep_clock. lia. }
  destruct Hrest as (I' & Hc & Hl).
  split; [|split; assumption].
  eapply rateInv_room; [exact Hroom|exact I'].
Qed.

Lemma spacingStage_rate :
  forall slack room e now w,
    rateInv slack room w ->
    now <= clock w ->
    rateInv slack room (spacingStage e now w) /\ spacedOut (spacingStage e now w).
Proof.
  intros slack room e now w I Hnow. unfold spacingStage, spacedOut.
  destruct (lastRequestTime (emb w)) as [last|] eqn:L.
  2:{ split; [exact I|]. intros t Ht. rewrite L in Ht. discriminate. }
  destruct (last =? 0) eqn:Z0.
  { split; [exact I|]. intros t Ht Hpos. rewrite L in Ht. injection Ht as <-.
    apply Z.eqb_eq in Z0. lia. }
  destruct (now - last <? universalDelay) eqn:C.
  - split; [apply rateInv_sleep; exact I|].
    change (lastRequestTime (emb (sleep ?ms ?o w))) with (lastRequestTime (emb w)).
    intros t Ht _. rewrite L in Ht. injection Ht as <-.
    rewrite sleep_clock. apply Z.ltb_lt in C. lia.
  - split; [exact I|].
    intros t Ht _. rewrite L in Ht. injection Ht as <-.
    apply Z.ltb_ge in C. lia.
Qed.

Lemma jitterStage_rate :
  forall room e w,
    jitterOk e ->
    rateInv (burstWindow - 1) room w ->
    spacedOut w ->
    rateInv burstWindow room (jitterStage e w) /\ spacedOut (jitterStage e w).
Proof.
  intros room e w J (I1 & I2 & I3 & I4 & I5 & I6 & I7) S.
  unfold jitterOk in J. unfold jitterStage, rateInv, spacedOut.
  change (recorded (trace (sleep ?ms ?o w))) with (recorded (trace w)).
  change (admitted (trace (sleep ?ms ?o w))) with (admitted (trace w)).
  change (burstTracker (emb (sleep ?ms ?o w))) with (burstTracker (emb w)).
  change (lastRequestTime (emb (sleep ?ms ?o w))) with (lastRequestTime (emb w)).
  change (windowCount ?a (trace (sleep ?ms ?o w))) with (windowCount a (trace w)).
  rewrite sleep_clock.
  repeat split; try assumption.
  - lia.
  - eapply Forall_impl; [|exact I2]. cbn beta. intros t Ht. lia.
  - eapply covers_mono; [|exact I3]. lia.
  - intros t Ht Hpos. specialize (S t Ht Hpos). lia.
Qed.

Lemma admitStage_view :
  forall w,
    admitted (trace (admitStage w)) = clock w :: admitted (trace w) /\
    recorded (trace (admitStage w)) = recorded (trace w) /\
    burstTracker (emb (admitStage w)) = burstTracker (emb w) /\
    lastRequestTime (emb (admitStage w)) = Some (clock w) /\
    clock (admitStage w) = clock w.
Proof. intros w. repeat split. Qed.

Lemma admitStage_rate :
  forall slack room w,
    rateInv slack room w -> spacedOut w -> rateInv slack room (admitStage w).
Proof.
  intros slack room w (I1 & I2 & I3 & I4 & I5 & I6 & I7) S.
  destruct (admitStage_view w) as (Va & Vr & Vb & Vl & Vc).
  unfold rateInv, lastAdmission, windowCount in *.
  rewrite Va, Vr, Vb, Vl, Vc.
  repeat split; try assumption.
  destruct (admitted (trace w)) as [|t1 earlier]; [exact I|].
  destruct I7 as [Hl Hpos]. apply S; assumption.
Qed.

(** When [safeDelay] returns there is room for one more entry in the burst
    log, and every recorded send of the last [burstWindow] ms is in it. *)
Lemma safeDelay_rate :
  forall e w,
    jitterOk e ->
    rateInv (burstWindow - 1) burstLimit w ->
    rateInv burstWindow (burstLimit - 1) (safeDelay e w).
Proof.
  intros e w J I. rewrite safeDelay_stages.
  destruct (cleanStage_rate _ w I) as (I1 & C1 & W1).
  destruct (burstStage_rate e (clock w) (cleanStage w) I1 W1 ltac:(rewrite C1; lia))
    as (I2 & C2 & _).
  generalize dependent (burstStage e (clock w) (cleanStage w)). intros w3 I2 C2.
  destruct (spacingStage_rate _ _ e (clock w) w3 I2 C2) as (I3 & S3).
  generalize dependent (spacingStage e (clock w) w3). intros w4 I3 S3.
  destruct (jitterStage_rate _ e w4 J I3 S3) as (I4 & S4).
  apply admitStage_rate; assumption.
Qed.

Lemma rateInv_view :
  forall slack room w w',
    burstTracker (emb w') = burstTracker (emb w) ->
    lastRequestTime (emb w') = lastRequestTime (emb w) ->
    clock w' = clock w ->
    recorded (trace w') = recorded (trace w) ->
    admitted (trace w') = admitted (trace w) ->
    rateInv slack room w -> rateInv slack room w'.
Proof.
  intros slack room w w' Hb Hl Hc Hr Ha I.
  unfold rateInv, lastAdmission, windowCount in *.
  rewrite Hb, Hl, Hc, Hr, Ha. exact I.
Qed.

Lemma gate_rate :
  forall e rest w,
    jitterOk e ->
    rateInv (burstWindow - 1) burstLimit w ->
    rateInv burstWindow (burstLimit - 1) (gate e rest w).
Proof.
  intros e rest w J I. unfold gate.
  assert (I1 : rateInv (burstWindow - 1) burstLimit (tick (lag e) (set_queue rest w))).
  { apply rateInv_tick. eapply rateInv_limiter; [|exact I]. reflexivity. }
  pose proof (safeDelay_rate e _ J I1) as I2.
  generalize dependent (safeDelay e (tick (lag e) (set_queue rest w))).
  intros w2 I2. destruct (stopRequested e); exact I2.
Qed.

Lemma recordRequest_view :
  forall w,
    burstTracker (emb (recordRequest w))
      = filter (inBurstWindow (clock w)) (burstTracker (emb w) ++ [clock w]) /\
    lastRequestTime (emb (recordRequest w)) = lastRequestTime (emb w) /\
    clock (recordRequest w) = clock w /\
    recorded (trace (recordRequest w)) = clock w :: recorded (trace w) /\
    admitted (trace (recordRequest w)) = admitted (trace w).
Proof. intros w. repeat split. Qed.

(** Recording a send in a state [safeDelay] has prepared keeps every window
    within the quota. *)
Lemma recordRequest_rate :
  forall w,
    rateInv burstWindow (burstLimit - 1) w ->
    rateInv (burstWindow - 1) burstLimit (recordRequest w).
Proof.
  intros w (I1 & I2 & I3 & I4 & I5 & I6 & I7).
  destruct (recordRequest_view w) as (Vb & Vl & Vc & Vr & Va).
  unfold rateInv, lastAdmission, windowCount in *.
  rewrite Vb, Vl, Vc, Vr, Va.
  split; [exact I1|].
  split; [constructor; [lia|exact I2]|].
  split.
  { replace (clock w - (burstWindow - 1)) with (clock w - burstWindow + 1) by lia.
    eapply (covers_filter (clock w - burstWindow)); [lia|].
    apply covers_push. exact I3. }
  split.
  { pose proof (filter_length_le (inBurstWindow (clock w))
                  (burstTracker (emb w) ++ [clock w])) as F.
    rewrite length_app in F. cbn [length] in F. lia. }
  split; [|split; assumption].
  intros a. cbn [filter].
  destruct (inWindow a (clock w)) eqn:W; [|apply I5].
  cbn [length].
  assert (L1 : (length (filter (inWindow a) (recorded (trace w)))
                <= length (newer (clock w - burstWindow) (recorded (trace w))))%nat).
  { apply filter_length_impl. intros t Ht.
    unfold inWindow in *. apply andb_true_iff in Ht, W.
    destruct Ht as [Ht1 _]. destruct W as [_ W2].
    apply Z.leb_le in Ht1, W2. apply Z.leb_le. lia. }
  pose proof (I3 (clock w - burstWindow) ltac:(lia)) as L2.
  pose proof (filter_length_le (fun t => clock w - burstWindow <=? t)
                (burstTracker (emb w))) as L3.
  unfold newer in *. lia.
Qed.

Lemma placePixel_rate :
  forall p o f w,
    rateInv burstWindow (burstLimit - 1) w ->
    rateInv (burstWindow - 1) burstLimit (snd (placePixel p o f w)).
Proof.
  intros p o f w I.
  assert (I0 : rateInv burstWindow (burstLimit - 1) (transmit p o f w)).
  { destruct (transmit_state p o f w) as (Te & Tc & _).
    destruct (transmit_log p o f w) as (Tr & Ta & _).
    eapply rateInv_view; [..|exact I]; try assumption; rewrite Te; reflexivity. }
  unfold placePixel. generalize dependent (transmit p o f w). intros w1 I0.
  destruct o as [l|l m|late]; cbn [snd].
  - apply recordRequest_rate. apply rateInv_tick. exact I0.
  - apply rateInv_tick. eapply rateInv_weaken; [| |exact I0]; lia.
  - apply rateInv_tick. eapply rateInv_weaken; [| |exact I0]; lia.
Qed.

Lemma handleError_rate :
  forall message e w,
    rateInv (burstWindow - 1) burstLimit w ->
    rateInv (burstWindow - 1) burstLimit (fst (handleError message e w)).
Proof.
  intros message e w I. unfold handleError.
  destruct (includes (toLowerCase message) "burst limit").
  { cbn [fst]. destruct I as (I1 & I2 & I3 & I4 & I5 & I6 & I7).
    unfold rateInv.
    change (recorded (trace (sleep ?ms ?o (set_burstTracker ?l w))))
      with (recorded (trace w)).
    change (admitted (trace (sleep ?ms ?o (set_burstTracker ?l w))))
      with (admitted (trace w)).
    change (burstTracker (emb (sleep ?ms ?o (set_burstTracker ?l w)))) with (@nil Z).
    change (windowCount ?a (trace (sleep ?ms ?o (set_burstTracker ?l w))))
      with (windowCount a (trace w)).
    change (lastAdmission (sleep ?ms ?o (set_burstTracker ?l w)))
      with (lastAdmission w).
    rewrite sleep_clock.
    change (clock (set_burstTracker ?l w)) with (clock w).
    repeat split; try assumption.
    - lia.
    - eapply Forall_impl; [|exact I2]. cbn beta. intros t Ht. lia.
    - apply covers_old. eapply Forall_impl; [|exact I2]. cbn beta.
      intros t Ht. unfold burstWindow. lia.
    - cbn. unfold burstLimit. lia. }
  destruct (_ || _); [apply rateInv_sleep; exact I|].
  destruct (includes (toLowerCase message) "credit").
  - eapply rateInv_limiter; [|exact I]. reflexivity.
  - apply rateInv_sleep. exact I.
Qed.

Lemma settle_rate :
  forall e s w,
    rateInv (burstWindow - 1) burstLimit w ->
    rateInv (burstWindow - 1) burstLimit (fst (settle e (s, w))).
Proof.
  intros e s w I. destruct s as [|message]; cbn [settle fst].
  - eapply rateInv_limiter; [apply onSuccess_limiter|exact I].
  - unfold onFailure. apply handleError_rate.
    eapply rateInv_limiter; [apply saveProgress_limiter|].
    eapply rateInv_limiter; [|exact I]. reflexivity.
Qed.

Lemma iteration_rate :
  forall e w,
    jitterOk e ->
    rateInv (burstWindow - 1) burstLimit w ->
    rateInv (burstWindow - 1) burstLimit (fst (iteration e w)).
Proof.
  intros e w J I.
  destruct (queue (emb w)) as [|p rest] eqn:Hq.
  - unfold iteration. rewrite Hq. exact I.
  - rewrite (iteration_eq e w p rest Hq).
    pose proof (placePixel_rate p (outcome e) (fallback e) _ (gate_rate e rest w J I)) as B.
    destruct (placePixel p (outcome e) (fallback e) (gate e rest w)) as [s w3].
    apply settle_rate. exact B.
Qed.

Section RateOfARun.

(** A page whose jitter is always the one of line 253. *)
Variable env : nat -> IterEnv.
Hypothesis env_jitter : forall j, jitterOk (env j).

Lemma processLoop_rate :
  forall fuel i w,
    rateInv (burstWindow - 1) burstLimit w ->
    rateInv (burstWindow - 1) burstLimit (processLoop fuel env i w).
Proof.
  induction fuel as [|fuel IH]; intros i w I; [exact I|].
  rewrite processLoop_S. destruct (loopGuard w); [|exact I].
  pose proof (iteration_rate (env i) w (env_jitter i) I) as B.
  destruct (snd (iteration (env i) w)); [exact B|apply IH; assumption].
Qed.

Lemma processQueue_rate :
  forall r w,
    rateInv (burstWindow - 1) burstLimit w ->
    rateInv (burstWindow - 1) burstLimit (processQueue r env w).
Proof.
  intros r w I. unfold processQueue, showSummary.
  eapply rateInv_limiter;
    [|apply (processLoop_rate (length (queue (emb w))) 0 w I)].
  rewrite getCurrentCredits_limiter.
  destruct (_ =? _)%nat; [reflexivity|].
  rewrite saveProgress_limiter. reflexivity.
Qed.

End RateOfARun.

Lemma preflight_view :
  forall r pixels w,
    clock w <= clock (fst (preflight r pixels w)) /\
    recorded (trace (fst (preflight r pixels w))) = recorded (trace w) /\
    admitted (trace (fst (preflight r pixels w))) = admitted (trace w).
Proof.
  intros r pixels w. unfold preflight.
  destruct (isPlacing (emb w)); [cbn [fst]; repeat split; lia|].
  assert (H1 : let w1 := if socket (emb w) then sleep 300 (socketOver r) w else w in
               clock w <= clock w1 /\
               recorded (trace w1) = recorded (trace w) /\
               admitted (trace w1) = admitted (trace w)).
  { destruct (socket (emb w)); cbn zeta.
    - rewrite sleep_clock. repeat split. lia.
    - repeat split. lia. }
  cbn zeta in H1.
  generalize dependent (if socket (emb w) then sleep 300 (socketOver r) w else w).
  intros w1 (Hc & Hr & Ha).
  destruct (length pixels =? 0)%nat; [cbn [fst]; repeat split; assumption|].
  destruct (creditsAtStart r) as [c|]; cbn [getCurrentCredits];
    [|cbn [fst]; repeat split; assumption].
  destruct (c <? Z.of_nat (length pixels)); cbn [fst].
  - cbn [tick clock trace set_currentCredits with_emb].
    repeat split; try assumption. lia.
  - repeat split; assumption.
Qed.

Lemma startSession_rate :
  forall r pixels w,
    0 < clock w ->
    recorded (trace w) = [] ->
    admitted (trace w) = [] ->
    rateInv (burstWindow - 1) burstLimit (startSession r pixels w).
Proof.
  intros r pixels w Hc Hr Ha. unfold startSession.
  eapply rateInv_limiter; [apply saveProgress_limiter|].
  set (w8 := set_isPlacing true _).
  assert (Vb : burstTracker (emb w8) = []) by reflexivity.
  assert (Vc : clock w8 = clock w) by reflexivity.
  assert (Vr : recorded (trace w8) = recorded (trace w)) by reflexivity.
  assert (Va : admitted (trace w8) = admitted (trace w)) by reflexivity.
  clearbody w8.
  unfold rateInv, lastAdmission, windowCount.
  rewrite Vb, Vc, Vr, Va, Hr, Ha. cbn [filter length spaced Z.of_nat].
  split; [exact Hc|].
  split; [constructor|].
  split; [intros theta' _; cbn; lia|].
  repeat split; unfold burstLimit; lia.
Qed.

(** *** Page events go out at the moment of admission *)




Lemma processQueue_trace :
  forall r env w,
    trace (processQueue r env w)
    = trace (processLoop (length (queue (emb w))) env 0 w).
Proof.
  intros r env w. unfold processQueue, showSummary.
  set (w1 := processLoop _ env 0 w). clearbody w1.
  assert (L : limiter (snd (getCurrentCredits (creditsAtEnd r)
                 (if (length (queue (emb (set_isPlacing false w1))) =? 0)%nat
                  then clearProgress (set_isPlacing false w1)
                  else saveProgress (set_isPlacing false w1))))
              = limiter w1).
  { rewrite getCurrentCredits_limiter.
    destruct (_ =? _)%nat; [reflexivity|].
    rewrite saveProgress_limiter. reflexivity. }
  apply limiter_fields in L. apply L.
Qed.

(** *** The socket fallback sends the pixel in flight again *)

Lemma safeDelay_transmissions :
  forall e w, transmissions (trace (safeDelay e w)) = transmissions (trace w).
Proof.
  intros e w. rewrite safeDelay_stages.
  assert (H1 : transmissions (trace (cleanStage w)) = transmissions (trace w))
    by reflexivity.
  generalize dependent (cleanStage w). intros w2 H1.
  assert (H2 : transmissions (trace (burstStage e (clock w) w2))
               = transmissions (trace w2)).
  { unfold burstStage. destruct (burstLimit <=? _); [|reflexivity].
    destruct (Math_min _); [destruct (0 <? _)|]; reflexivity. }
  rewrite H1 in H2.
  generalize dependent (burstStage e (clock w) w2). intros w3 H2.
  assert (H3 : transmissions (trace (spacingStage e (clock w) w3))
               = transmissions (trace w3)).
  { unfold spacingStage. destruct (lastRequestTime _); [|reflexivity].
    destruct (_ =? 0); [reflexivity|].
    destruct (_ <? _); reflexivity. }
  rewrite H2 in H3.
  generalize dependent (spacingStage e (clock w) w3). intros w4 H3.
  exact H3.
Qed.

Lemma transmit_echoed :
  forall p o f w,
    echoed (transmissions (trace w)) ->
    echoed (transmissions (trace (transmit p o f w))).
Proof.
  intros p o f w H. unfold transmit.
  destruct (windowSocket f && _); [|exact H].
  change (echoed ((SocketEmit, p, clock w + Z.of_N (200 + fallbackOver f))
                    :: (PageEvent, p, clock w) :: transmissions (trace w))).
  cbn [echoed]. split; [split; [reflexivity|lia]|exact H].
Qed.

Lemma iteration_echoed :
  forall e w,
    echoed (transmissions (trace w)) ->
    echoed (transmissions (trace (fst (iteration e w)))).
Proof.
  intros e w H.
  destruct (queue (emb w)) as [|p rest] eqn:Hq.
  { unfold iteration. rewrite Hq. exact H. }
  rewrite (iteration_eq e w p rest Hq).
  assert (G : echoed (transmissions (trace (gate e rest w)))).
  { unfold gate.
    pose proof (safeDelay_transmissions e (tick (lag e) (set_queue rest w))) as T.
    change (trace (tick (lag e) (set_queue rest w))) with (trace w) in T.
    rewrite <- T in H.
    generalize dependent (safeDelay e (tick (lag e) (set_queue rest w))).
    intros w2 H _. destruct (stopRequested e); exact H. }
  generalize dependent (gate e rest w). intros w2 G.
  assert (B : echoed (transmissions
                (trace (snd (placePixel p (outcome e) (fallback e) w2))))).
  { pose proof (transmit_echoed p (outcome e) (fallback e) w2 G) as T.
    unfold placePixel.
    generalize dependent (transmit p (outcome e) (fallback e) w2). intros w1 T.
    destruct (outcome e) as [l|l m|late]; cbn [snd]; exact T. }
  destruct (placePixel p (outcome e) (fallback e) w2) as [s w3]. cbn [snd] in B.
  destruct s as [|message]; cbn [settle fst].
  - pose proof (onSuccess_limiter e w3) as L. apply limiter_fields in L.
    destruct L as (_ & _ & _ & L). rewrite L. exact B.
  - unfold onFailure.
    assert (B1 : echoed (transmissions
                   (trace (saveProgress (set_errors (errors (emb w3) + 1) w3))))).
    { pose proof (saveProgress_limiter (set_errors (errors (emb w3) + 1) w3)) as L.
      apply limiter_fields in L. destruct L as (_ & _ & _ & L). rewrite L. exact B. }
    generalize dependent (saveProgress (set_errors (errors (emb w3) + 1) w3)).
    intros w5 B1. unfold handleError.
    destruct (includes (toLowerCase message) "burst limit"); [exact B1|].
    destruct (_ || _); [exact B1|].
    destruct (includes (toLowerCase message) "credit"); exact B1.
Qed.

Lemma processLoop_echoed :
  forall fuel env i w,
    echoed (transmissions (trace w)) ->
    echoed (transmissions (trace (processLoop fuel env i w))).
Proof.
  induction fuel as [|fuel IH]; intros env i w H; [exact H|].
  rewrite processLoop_S. destruct (loopGuard w); [|exact H].
  pose proof (iteration_echoed (env i) w H) as B.
  destruct (snd (iteration (env i) w)); [exact B|apply IH; exact B].
Qed.

Lemma startSession_transmissions :
  forall r pixels w,
    transmissions (trace (startSession r pixels w)) = transmissions (trace w).
Proof.
  intros r pixels w.
  pose proof (saveProgress_limiter
                (set_isPlacing true (set_queue pixels (set_lastRequestTime None
                   (set_burstTracker [] (set_errors 0 (set_pixelsPlaced 0
                      (set_originalPixels pixels
                         (set_sessionId (Some (generateSessionId r w)) w))))))))) as L.
  apply limiter_fields in L. destruct L as (_ & _ & _ & L).
  unfold startSession. rewrite L. reflexivity.
Qed.






(** A batch of sixteen on a quiet page: fifteen sends 450 ms apart, and the
    sixteenth held back until the first has left the window. *)
Example sixteen_sends :
  rev (recorded (trace (embedImage quietRun (fun _ => quietTurn) (pixelRow 16) freshPage)))
  = [1700000000051; 1700000000501; 1700000000951; 1700000001401;
     1700000001851; 1700000002301; 1700000002751; 1700000003201;
     1700000003651; 1700000004101; 1700000004551; 1700000005001;
     1700000005451; 1700000005901; 1700000006351; 1700000012501].
Proof. vm_compute. reflexivity. Qed.

(** ** How long the admission gate waits *)

Lemma requested_trans :
  forall w w' w'', requested w w'' = requested w w' + requested w' w''.
Proof. intros. unfold requested. lia. Qed.

Lemma sleep_requested :
  forall ms o w, requested w (sleep ms o w) = Z.max 0 ms.
Proof.
  intros ms o w. unfold requested.
  change (totalSlept (trace (sleep ms o w))) with (Z.max 0 ms + totalSlept (trace w)).
  lia.
Qed.

Lemma set_burstTracker_requested :
  forall l w w0, requested w0 (set_burstTracker l w) = requested w0 w.
Proof. reflexivity. Qed.

Lemma ascending_filter :
  forall gap (f : Z -> bool) l, ascending gap l -> ascending gap (filter f l).
Proof.
  intros gap f l. induction l as [|t l IH]; intros H; [exact I|].
  cbn in H. destruct H as [H1 H2]. cbn.
  destruct (f t); [|apply IH; exact H2].
  cbn. split; [|apply IH; exact H2].
  apply Forall_forall. intros u Hu. apply filter_In in Hu.
  apply (proj1 (Forall_forall _ _) H1 u). apply Hu.
Qed.

Lemma ascending_push :
  forall gap l r,
    ascending gap l -> Forall (fun t => t + gap <= r) l -> ascending gap (l ++ [r]).
Proof.
  intros gap l r. induction l as [|t l IH]; intros H F.
  - cbn. split; constructor.
  - cbn in H. destruct H as [H1 H2]. inversion F as [|? ? Ft Fl]; subst.
    cbn. split; [|apply IH; assumption].
    apply Forall_app. split; [exact H1|]. constructor; [exact Ft|constructor].
Qed.

(** An ordered log of [n] entries spans at least [(n - 1) * gap]. *)
Lemma ascending_span :
  forall gap c l h,
    0 <= gap ->
    ascending gap (h :: l) ->
    Forall (fun t => t <= c) (h :: l) ->
    h + gap * Z.of_nat (length l) <= c.
Proof.
  intros gap c l. induction l as [|t l IH]; intros h Hg H F.
  - inversion F; subst. cbn. lia.
  - cbn [ascending] in H. destruct H as [H1 H2].
    inversion H1 as [|? ? Ht _]; subst.
    inversion F as [|? ? _ F']; subst.
    specialize (IH t Hg H2 F'). cbn [length]. lia.
Qed.

Lemma Forall_filter_keep :
  forall (P : Z -> Prop) (f : Z -> bool) l, Forall P l -> Forall P (filter f l).
Proof.
  intros P f l H. apply Forall_forall. intros t Ht. apply filter_In in Ht.
  apply (proj1 (Forall_forall _ _) H t). apply Ht.
Qed.

(** The burst-protection wait.  [lead] is how far behind the clock reading
    [now] the oldest entry of a full log is known to be. *)
Lemma burstStage_wait :
  forall lead e now w,
    0 <= lead <= burstWindow + burstSafetyBuffer ->
    Forall (fun t => now - t < burstWindow) (burstTracker (emb w)) ->
    (burstLimit <= Z.of_nat (length (burstTracker (emb w))) ->
     forall m, Math_min (burstTracker (emb w)) = Some m -> lead <= now - m) ->
    0 <= requested w (burstStage e now w) <= burstWindow + burstSafetyBuffer - lead /\
    clock w <= clock (burstStage e now w)
      <= clock w + requested w (burstStage e now w) + Z.of_N (burstOver e) /\
    lastRequestTime (emb (burstStage e now w)) = lastRequestTime (emb w) /\
    (burstTracker (emb (burstStage e now w)) = burstTracker (emb w) \/
     burstTracker (emb (burstStage e now w))
       = filter (inBurstWindow (clock (burstStage e now w))) (burstTracker (emb w))).
Proof.
  intros lead e now w Hlead Hwin Hfull. unfold burstStage.
  assert (R0 : requested w w = 0) by (unfold requested; lia).
  destruct (burstLimit <=? Z.of_nat (length (burstTracker (emb w)))) eqn:G.
  2:{ rewrite R0. repeat split; try lia. left. reflexivity. }
  apply Z.leb_le in G.
  destruct (Math_min (burstTracker (emb w))) as [oldest|] eqn:M.
  - pose proof (Math_min_In _ _ M) as Hin.
    pose proof (proj1 (Forall_forall _ _) Hwin oldest Hin) as Hold. cbn beta in Hold.
    specialize (Hfull G oldest eq_refl).
    assert (P : (0 <? burstWindow - (now - oldest) + burstSafetyBuffer) = true).
    { apply Z.ltb_lt. unfold burstSafetyBuffer. lia. }
    rewrite P. apply Z.ltb_lt in P.
    rewrite set_burstTracker_requested, sleep_requested.
    change (clock (set_burstTracker ?l ?x)) with (clock x).
    rewrite sleep_clock.
    repeat split; try lia. right. reflexivity.
  - rewrite set_burstTracker_requested, sleep_requested.
    change (clock (set_burstTracker ?l ?x)) with (clock x).
    rewrite sleep_clock.
    repeat split; try lia. right. reflexivity.
Qed.

(** The spacing wait. *)
Lemma spacingStage_wait :
  forall e now w,
    (forall t, lastRequestTime (emb w) = Some t -> t <= now) ->
    0 <= requested w (spacingStage e now w) <= universalDelay /\
    clock w <= clock (spacingStage e now w)
      <= clock w + requested w (spacingStage e now w) + Z.of_N (spaceOver e) /\
    lastRequestTime (emb (spacingStage e now w)) = lastRequestTime (emb w) /\
    burstTracker (emb (spacingStage e now w)) = burstTracker (emb w).
Proof.
  intros e now w Hlast. unfold spacingStage.
  assert (R0 : requested w w = 0) by (unfold requested; lia).
  destruct (lastRequestTime (emb w)) as [last|] eqn:L.
  2:{ rewrite R0, L. unfold universalDelay. repeat split; lia. }
  specialize (Hlast last eq_refl).
  destruct (last =? 0).
  { rewrite R0, L. unfold universalDelay. repeat split; lia. }
  destruct (now - last <? universalDelay) eqn:C.
  - apply Z.ltb_lt in C. rewrite sleep_requested, sleep_clock.
    repeat split; try lia. exact L.
  - rewrite R0, L. unfold universalDelay. repeat split; lia.
Qed.

(** What one call of [safeDelay] asks of the timers, and how long it takes. *)
Lemma safeDelay_wait :
  forall lead e w,
    0 <= lead <= burstWindow + burstSafetyBuffer ->
    jitterOk e ->
    notAhead w ->
    (forall l m,
        l = filter (inBurstWindow (clock w)) (burstTracker (emb w)) ->
        burstLimit <= Z.of_nat (length l) ->
        Math_min l = Some m -> lead <= clock w - m) ->
    0 <= requested w (safeDelay e w)
      <= burstWindow + burstSafetyBuffer - lead + universalDelay + jitter e /\
    clock (safeDelay e w) - clock w
      <= requested w (safeDelay e w)
         + Z.of_N (burstOver e) + Z.of_N (spaceOver e) + Z.of_N (jitterOver e).
Proof.
  intros lead e w Hlead J [Nb Nl] Hfull. rewrite safeDelay_stages.
  assert (V1 : burstTracker (emb (cleanStage w))
               = filter (inBurstWindow (clock w)) (burstTracker (emb w)) /\
               lastRequestTime (emb (cleanStage w)) = lastRequestTime (emb w) /\
               clock (cleanStage w) = clock w /\
               requested w (cleanStage w) = 0).
  { repeat split. unfold requested.
    change (trace (cleanStage w)) with
      (EvTracker (filter (inBurstWindow (clock w)) (burstTracker (emb w))) :: trace w).
    change (totalSlept (EvTracker ?l :: trace w)) with (totalSlept (trace w)). lia. }
  destruct V1 as (Vb & Vl & Vc & Vr).
  assert (W1 : Forall (fun t => clock w - t < burstWindow) (burstTracker (emb (cleanStage w)))).
  { rewrite Vb. apply Forall_forall. intros t Ht. apply filter_In in Ht.
    apply inBurstWindow_spec. apply Ht. }
  assert (F1 : burstLimit <= Z.of_nat (length (burstTracker (emb (cleanStage w)))) ->
               forall m, Math_min (burstTracker (emb (cleanStage w))) = Some m ->
                 lead <= clock w - m).
  { rewrite Vb. intros G m M. eapply Hfull; [reflexivity|exact G|exact M]. }
  destruct (burstStage_wait lead e (clock w) (cleanStage w) Hlead W1 F1)
    as (R2 & C2 & L2 & _).
  rewrite Vc in C2. rewrite Vl in L2.
  generalize dependent (cleanStage w). intros w2 _ _ Vc Vr _ _ R2 C2 L2.
  set (w3 := burstStage e (clock w) w2) in *. clearbody w3.
  assert (N3 : forall t, lastRequestTime (emb w3) = Some t -> t <= clock w).
  { rewrite L2. exact Nl. }
  destruct (spacingStage_wait e (clock w) w3 N3) as (R4 & C4 & _ & _).
  set (w4 := spacingStage e (clock w) w3) in *. clearbody w4.
  unfold admitStage, jitterStage.
  change (requested w (log ?ev (set_lastRequestTime ?t ?x))) with (requested w x).
  change (clock (log ?ev (set_lastRequestTime ?t ?x))) with (clock x).
  rewrite sleep_clock.
  rewrite (requested_trans w w4 (sleep (jitter e) (jitterOver e) w4)), sleep_requested.
  rewrite (requested_trans w w3 w4), (requested_trans w w2 w3), Vr.
  unfold jitterOk in J. lia.
Qed.

(** *** The gate's state during a run *)

Lemma paced_view :
  forall lead w w',
    burstTracker (emb w') = burstTracker (emb w) ->
    lastRequestTime (emb w') = lastRequestTime (emb w) ->
    clock w' = clock w ->
    paced lead w -> paced lead w'.
Proof.
  intros lead w w' Hb Hl Hc P. unfold paced in *. rewrite Hb, Hl, Hc. exact P.
Qed.

Lemma paced_limiter :
  forall lead w w', limiter w' = limiter w -> paced lead w -> paced lead w'.
Proof.
  intros lead w w' H. apply limiter_fields in H. destruct H as (Hb & Hl & Hc & _).
  apply paced_view; assumption.
Qed.

Lemma paced_later :
  forall lead lead' w w',
    burstTracker (emb w') = burstTracker (emb w) ->
    lastRequestTime (emb w') = lastRequestTime (emb w) ->
    clock w + lead' <= clock w' + lead ->
    clock w <= clock w' ->
    paced lead w -> paced lead' w'.
Proof.
  intros lead lead' w w' Hb Hl Hc Hc' (P1 & P2 & P3).
  unfold paced. rewrite Hb, Hl. split; [exact P1|]. split.
  - eapply Forall_impl; [|exact P2]. cbn beta. intros t Ht. lia.
  - intros t Ht. specialize (P3 t Ht). lia.
Qed.

Lemma paced_tick : forall lead d w, paced lead w -> paced lead (tick d w).
Proof.
  intros lead d w P. eapply paced_later; [..|exact P]; try reflexivity;
    cbn [tick clock]; lia.
Qed.

Lemma paced_sleep : forall lead ms o w, paced lead w -> paced lead (sleep ms o w).
Proof.
  intros lead ms o w P. eapply paced_later; [..|exact P]; try reflexivity;
    rewrite sleep_clock; lia.
Qed.

Lemma paced_refilter :
  forall lead (f : Z -> bool) w,
    paced lead w ->
    paced lead (set_burstTracker (filter f (burstTracker (emb w))) w).
Proof.
  intros lead f w (P1 & P2 & P3). unfold paced.
  rewrite set_burstTracker_tracker.
  split; [apply ascending_filter; exact P1|].
  split; [apply Forall_filter_keep; exact P2|exact P3].
Qed.

Lemma paced_notAhead : forall w, paced 0 w -> notAhead w.
Proof.
  intros w (_ & P2 & P3). split; [|exact P3].
  eapply Forall_impl; [|exact P2]. cbn beta. intros t Ht. lia.
Qed.

Lemma safeDelay_paced :
  forall e w, jitterOk e -> paced 0 w -> paced 50 (safeDelay e w).
Proof.
  intros e w J P. rewrite safeDelay_stages.
  assert (P1 : paced 0 (cleanStage w)).
  { unfold cleanStage.
    apply (paced_refilter 0 (inBurstWindow (clock w))
             (set_requestTimes (filter (inLastMinute (clock w)) (requestTimes (emb w))) w)).
    exact P. }
  generalize dependent (cleanStage w). intros w2 P1.
  assert (P2 : paced 0 (burstStage e (clock w) w2)).
  { unfold burstStage. destruct (burstLimit <=? _); [|exact P1].
    destruct (Math_min (burstTracker (emb w2))).
    - destruct (0 <? _); [|exact P1].
      apply (paced_refilter 0 _ (sleep _ (burstOver e) w2)).
      apply paced_sleep. exact P1.
    - apply (paced_refilter 0 _ (sleep 0 (burstOver e) w2)).
      apply paced_sleep. exact P1. }
  generalize dependent (burstStage e (clock w) w2). intros w3 P2.
  assert (P3 : paced 0 (spacingStage e (clock w) w3)).
  { unfold spacingStage. destruct (lastRequestTime (emb w3)); [|exact P2].
    destruct (_ =? 0); [exact P2|].
    destruct (_ <? _); [apply paced_sleep|]; exact P2. }
  generalize dependent (spacingStage e (clock w) w3). intros w4 P3.
  assert (P4 : paced 50 (jitterStage e w4)).
  { unfold jitterStage, jitterOk in *.
    eapply paced_later; [..|exact P3]; try reflexivity; rewrite sleep_clock; lia. }
  generalize dependent (jitterStage e w4). intros w5 P4.
  destruct P4 as (A & B & _). unfold paced, admitStage. cbn.
  split; [exact A|]. split; [exact B|].
  intros t Ht. injection Ht as <-. lia.
Qed.

Lemma recordRequest_paced :
  forall w, paced 50 w -> paced 0 (recordRequest w).
Proof.
  intros w (P1 & P2 & P3).
  destruct (recordRequest_view w) as (Vb & Vl & Vc & _).
  unfold paced. rewrite Vb, Vl, Vc.
  split; [apply ascending_filter, ascending_push; assumption|].
  split; [|exact P3].
  apply Forall_filter_keep. apply Forall_app. split.
  - eapply Forall_impl; [|exact P2]. cbn beta. intros t Ht. lia.
  - constructor; [lia|constructor].
Qed.

Lemma iteration_paced :
  forall e w, jitterOk e -> paced 0 w -> paced 0 (fst (iteration e w)).
Proof.
  intros e w J P.
  destruct (queue (emb w)) as [|p rest] eqn:Hq.
  { unfold iteration. rewrite Hq. exact P. }
  rewrite (iteration_eq e w p rest Hq).
  (* the gate *)
  assert (G : paced 50 (gate e rest w)).
  { unfold gate.
    assert (P1 : paced 0 (tick (lag e) (set_queue rest w))).
    { apply paced_tick. eapply paced_limiter; [|exact P]. reflexivity. }
    pose proof (safeDelay_paced e _ J P1) as P2.
    generalize dependent (safeDelay e (tick (lag e) (set_queue rest w))).
    intros w2 P2. destruct (stopRequested e); exact P2. }
  generalize dependent (gate e rest w). intros w2 G.
  (* the placement *)
  assert (B : paced 0 (snd (placePixel p (outcome e) (fallback e) w2))).
  { assert (G0 : paced 50 (transmit p (outcome e) (fallback e) w2)).
    { destruct (transmit_state p (outcome e) (fallback e) w2) as (Te & Tc & _).
      eapply paced_view; [..|exact G]; rewrite ?Te; try reflexivity; exact Tc. }
    unfold placePixel.
    generalize dependent (transmit p (outcome e) (fallback e) w2). intros w1 G0.
    destruct (outcome e) as [l|l m|late]; cbn [snd].
    - apply recordRequest_paced, paced_tick. exact G0.
    - apply paced_tick. eapply paced_later; [..|exact G0]; try reflexivity; lia.
    - apply paced_tick. eapply paced_later; [..|exact G0]; try reflexivity; lia. }
  destruct (placePixel p (outcome e) (fallback e) w2) as [s w3]. cbn [snd] in B.
  (* what follows it *)
  destruct s as [|message]; cbn [settle fst].
  - eapply paced_limiter; [apply onSuccess_limiter|exact B].
  - unfold onFailure.
    assert (B1 : paced 0 (saveProgress (set_errors (errors (emb w3) + 1) w3))).
    { eapply paced_limiter; [apply saveProgress_limiter|].
      eapply paced_limiter; [|exact B]. reflexivity. }
    generalize dependent (saveProgress (set_errors (errors (emb w3) + 1) w3)).
    intros w5 B1. unfold handleError.
    destruct (includes (toLowerCase message) "burst limit").
    { cbn [fst]. apply paced_sleep.
      destruct B1 as (_ & _ & B3). unfold paced.
      rewrite set_burstTracker_tracker. cbn [ascending].
      split; [exact I|]. split; [constructor|exact B3]. }
    destruct (_ || _); [apply paced_sleep; exact B1|].
    destruct (includes (toLowerCase message) "credit").
    + eapply paced_limiter; [|exact B1]. reflexivity.
    + apply paced_sleep. exact B1.
Qed.

Section PaceOfARun.

Variable env : nat -> IterEnv.
Hypothesis env_jitter : forall j, jitterOk (env j).

Lemma processLoop_paced :
  forall fuel i w, paced 0 w -> paced 0 (processLoop fuel env i w).
Proof.
  induction fuel as [|fuel IH]; intros i w P; [exact P|].
  rewrite processLoop_S. destruct (loopGuard w); [|exact P].
  pose proof (iteration_paced (env i) w (env_jitter i) P) as B.
  destruct (snd (iteration (env i) w)); [exact B|apply IH; assumption].
Qed.

End PaceOfARun.

Lemma startSession_paced :
  forall r pixels w, paced 0 (startSession r pixels w).
Proof.
  intros r pixels w. unfold startSession.
  eapply paced_limiter; [apply saveProgress_limiter|].
  unfold paced. cbn. split; [exact I|]. split; [constructor|discriminate].
Qed.

(** During a run a full burst log spans at least 14 * 50 ms. *)
Lemma paced_full_log :
  forall w l m,
    paced 0 w ->
    l = filter (inBurstWindow (clock w)) (burstTracker (emb w)) ->
    burstLimit <= Z.of_nat (length l) ->
    Math_min l = Some m ->
    700 <= clock w - m.
Proof.
  intros w l m (P1 & P2 & _) -> G M.
  pose proof (ascending_filter 50 (inBurstWindow (clock w)) _ P1) as A.
  pose proof (Forall_filter_keep _ (inBurstWindow (clock w)) _ P2) as F.
  destruct (filter (inBurstWindow (clock w)) (burstTracker (emb w))) as [|h rest] eqn:E.
  { discriminate. }
  assert (F' : Forall (fun t => t <= clock w) (h :: rest)).
  { eapply Forall_impl; [|exact F]. cbn beta. intros t Ht. lia. }
  pose proof (ascending_span 50 (clock w) rest h ltac:(lia) A F') as S.
  pose proof (Math_min_lower _ m h M (or_introl eq_refl)) as L.
  cbn [length] in G. unfold burstLimit in G. lia.
Qed.

(** With fifteen entries of one instant in the burst log and timers that
    fire on time, one call of [safeDelay] asks for 12050 ms: the jitter
    comes on top of the longest burst-protection wait.  No run gets there;
    fifteen confirmations within a millisecond come from direct calls of
    [placePixel]. *)
Example jitter_on_top_of_the_burst_wait :
  Z.of_nat (length (burstTracker (emb flooded))) <= burstLimit /\
  requested flooded (safeDelay quietTurn flooded) = 12050 /\
  clock (safeDelay quietTurn flooded) - clock flooded = 12050.
Proof.
  split; [vm_compute; discriminate|].
  split; vm_compute; reflexivity.
Qed.

(** C2, as the claim states it, fails in a run.  When the loop calls
    [safeDelay] for the sixteenth pixel of a quiet batch, the burst log holds
    fifteen entries (the stated invariant holds) and the call asks for
    5700 ms of burst protection, 399 ms of spacing and 50 ms of jitter.  A
    timer fires no earlier than asked, and may fire later: with the first
    one 7000 ms late the caller is suspended for 13149 ms, more than
    [burstWindow + burstSafetyBuffer] = 12000 ms. *)
Lemma safeDelay_wait_exceeds :
  Z.of_nat (length (burstTracker (emb sixteenthCall))) <= burstLimit /\
  requested sixteenthCall (safeDelay lateTimer sixteenthCall) = 6149 /\
  clock (safeDelay lateTimer sixteenthCall) - clock sixteenthCall = 13149 /\
  burstWindow + burstSafetyBuffer
    < clock (safeDelay lateTimer sixteenthCall) - clock sixteenthCall.
Proof.
  split; [vm_compute; discriminate|].
  split; [vm_compute; reflexivity|].
  split; vm_compute; reflexivity.
Qed.

(** C2, amended.  For a call of [safeDelay] in a state where nothing the gate
    remembers lies in the future: the burst-protection wait it asks for is at
    most [burstWindow + burstSafetyBuffer] = 12000 ms; the whole call asks
    for at most that plus the spacing wait and the jitter,
    [12000 + universalDelay + jitter] < 12550 ms; and the caller is suspended
    for what was asked plus the overshoot of the timers.  In the states of a
    run (burst-log entries at least 50 ms apart, which every turn of the loop
    of a run started by [embedImage] maintains) the whole call asks for at
    most 12000 ms. *)
Theorem safeDelay_wait_bound :
  forall (e : IterEnv) (w : World),
    jitterOk e ->
    notAhead w ->
    0 <= requested (cleanStage w) (burstStage e (clock w) (cleanStage w))
      <= burstWindow + burstSafetyBuffer /\
    requested w (safeDelay e w)
      <= burstWindow + burstSafetyBuffer + universalDelay + jitter e /\
    clock (safeDelay e w) - clock w
      <= requested w (safeDelay e w)
         + Z.of_N (burstOver e) + Z.of_N (spaceOver e) + Z.of_N (jitterOver e) /\
    (paced 0 w -> requested w (safeDelay e w) <= burstWindow + burstSafetyBuffer) /\
    (forall (r : RunEnv) (env : nat -> IterEnv) (pixels rest : list Pixel)
            (w0 : World) (k : nat),
        (forall i, jitterOk (env i)) ->
        paced 0 (tick (lag e) (set_queue rest
                   (processLoop k env 0 (startSession r pixels w0))))).
Proof.
  intros e w J N.
  assert (Hfull0 : forall l m,
             l = filter (inBurstWindow (clock w)) (burstTracker (emb w)) ->
             burstLimit <= Z.of_nat (length l) ->
             Math_min l = Some m -> 0 <= clock w - m).
  { intros l m -> _ M. apply Math_min_In in M. apply filter_In in M.
    destruct N as [Nb _].
    pose proof (proj1 (Forall_forall _ _) Nb m (proj1 M)) as H. cbn beta in H. lia. }
  split; [|split; [|split; [|split]]].
  - assert (Vb : burstTracker (emb (cleanStage w))
                 = filter (inBurstWindow (clock w)) (burstTracker (emb w)))
      by reflexivity.
    assert (W1 : Forall (fun t => clock w - t < burstWindow)
                   (burstTracker (emb (cleanStage w)))).
    { rewrite Vb. apply Forall_forall. intros t Ht. apply filter_In in Ht.
      apply inBurstWindow_spec. apply Ht. }
    assert (F1 : burstLimit <= Z.of_nat (length (burstTracker (emb (cleanStage w)))) ->
                 forall m, Math_min (burstTracker (emb (cleanStage w))) = Some m ->
                   0 <= clock w - m).
    { rewrite Vb. intros G m M. eapply Hfull0; [reflexivity|exact G|exact M]. }
    destruct (burstStage_wait 0 e (clock w) (cleanStage w)
                ltac:(unfold burstWindow, burstSafetyBuffer; lia) W1 F1) as (R & _).
    lia.
  - destruct (safeDelay_wait 0 e w
                ltac:(unfold burstWindow, burstSafetyBuffer; lia) J N Hfull0) as (R & _).
    lia.
  - destruct (safeDelay_wait 0 e w
                ltac:(unfold burstWindow, burstSafetyBuffer; lia) J N Hfull0) as (_ & C).
    exact C.
  - intros P.
    destruct (safeDelay_wait 700 e w
                ltac:(unfold burstWindow, burstSafetyBuffer; lia) J N) as (R & _).
    { intros l m Hl G M. eapply paced_full_log; eassumption. }
    unfold jitterOk in J. unfold universalDelay in R. lia.
  - intros r env pixels rest w0 k Jenv.
    apply paced_tick.
    eapply paced_limiter;
      [|apply (processLoop_paced env Jenv k 0 _ (startSession_paced r pixels w0))].
    reflexivity.
Qed.

Lemma safeDelay_wait_bound_witness :
  jitterOk quietTurn /\
  notAhead sixteenthCall /\
  requested (cleanStage sixteenthCall)
    (burstStage quietTurn (clock sixteenthCall) (cleanStage sixteenthCall)) = 5700 /\
  requested sixteenthCall (safeDelay quietTurn sixteenthCall) = 6149 /\
  requested sixteenthCall (safeDelay quietTurn sixteenthCall)
    <= burstWindow + burstSafetyBuffer + universalDelay + jitter quietTurn.
Proof.
  assert (J : jitterOk quietTurn) by (unfold jitterOk; cbn; lia).
  assert (E : burstTracker (emb sixteenthCall)
              = [1700000000051; 1700000000501; 1700000000951; 1700000001401;
                 1700000001851; 1700000002301; 1700000002751; 1700000003201;
                 1700000003651; 1700000004101; 1700000004551; 1700000005001;
                 1700000005451; 1700000005901; 1700000006351])
    by (vm_compute; reflexivity).
  assert (L : lastRequestTime (emb sixteenthCall) = Some 1700000006350)
    by (vm_compute; reflexivity).
  assert (C : clock sixteenthCall = 1700000006351) by (vm_compute; reflexivity).
  assert (N : notAhead sixteenthCall).
  { unfold notAhead. rewrite E, L, C. split.
    - repeat (constructor; [lia|]). constructor.
    - intros t H. injection H as <-. lia. }
  split; [exact J|]. split; [exact N|].
  split; [vm_compute; reflexivity|].
  split; [vm_compute; reflexivity|].
  exact (proj1 (proj2 (safeDelay_wait_bound quietTurn sixteenthCall J N))).
Defined.

(** The spacing is between admissions, not between confirmations: when the
    first confirmation is slow, two [recordRequest] timestamps can lie 50 ms
    apart while the two pixels were sent 550 ms apart. *)
Example confirmations_can_be_closer :
  let tr := trace (embedImage quietRun slowThenFast (pixelRow 2) freshPage) in
  rev (recorded tr) = [1700000000550; 1700000000600] /\
  rev (dispatchTimes tr) = [1700000000050; 1700000000600].
Proof. split; vm_compute; reflexivity. Qed.


(** * Further properties of the code *)

(** ** The checkpoint round trip *)

(** X1.  A checkpoint that [saveProgress] wrote is what [loadProgress]
    returns, unchanged, for 24 hours (the 24th hour included), and reading it
    leaves the store as it is. *)
Theorem checkpoint_round_trip :
  forall (w : World) (later : N),
    truthy_string (sessionId (emb w)) = true ->
    quotaExceeded (localStorage w) = false ->
    Z.of_N later <= dayMs ->
    loadProgress (tick later (saveProgress w))
    = (Some (progressData w), tick later (saveProgress w)).
Proof.
  intros w later Hs Hq Hl.
  pose proof (saveProgress_stores w Hs Hq) as S.
  pose proof (saveProgress_limiter w) as L. apply limiter_fields in L.
  destruct L as (_ & _ & Lc & _).
  unfold loadProgress.
  change (slot (localStorage (tick later (saveProgress w))))
    with (slot (localStorage (saveProgress w))).
  rewrite S.
  change (clock (tick later (saveProgress w)))
    with (clock (saveProgress w) + Z.of_N later).
  rewrite Lc. cbn [pg_timestamp progressData].
  assert (E : (dayMs <? clock w + Z.of_N later - clock w) = false).
  { apply Z.ltb_ge. lia. }
  rewrite E. reflexivity.
Qed.

Lemma checkpoint_round_trip_witness :
  let w := startSession quietRun (pixelRow 3) freshPage in
  loadProgress (tick 86400000 (saveProgress w))
  = (Some (progressData w), tick 86400000 (saveProgress w)).
Proof.
  cbn zeta. apply checkpoint_round_trip.
  - reflexivity.
  - reflexivity.
  - vm_compute. discriminate.
Defined.

(** ** What a turn writes to the observation log *)

Lemma safeDelay_log :
  forall e w,
    dispatched (trace (safeDelay e w)) = dispatched (trace w) /\
    recorded (trace (safeDelay e w)) = recorded (trace w) /\
    clock w <= clock (safeDelay e w).
Proof.
  intros e w. rewrite safeDelay_stages.
  assert (H1 : dispatched (trace (cleanStage w)) = dispatched (trace w) /\
               recorded (trace (cleanStage w)) = recorded (trace w) /\
               clock w <= clock (cleanStage w)).
  { repeat split. cbn. lia. }
  generalize dependent (cleanStage w). intros w2 (D1 & R1 & C1).
  assert (H2 : dispatched (trace (burstStage e (clock w) w2)) = dispatched (trace w2) /\
               recorded (trace (burstStage e (clock w) w2)) = recorded (trace w2) /\
               clock w2 <= clock (burstStage e (clock w) w2)).
  { unfold burstStage. destruct (burstLimit <=? _); [|repeat split; lia].
    destruct (Math_min _); [destruct (0 <? _)|];
      repeat split; try lia;
      change (clock (set_burstTracker ?l ?x)) with (clock x);
      rewrite sleep_clock; lia. }
  rewrite D1, R1 in H2.
  generalize dependent (burstStage e (clock w) w2). intros w3 (D2 & R2 & C2).
  assert (H3 : dispatched (trace (spacingStage e (clock w) w3)) = dispatched (trace w3) /\
               recorded (trace (spacingStage e (clock w) w3)) = recorded (trace w3) /\
               clock w3 <= clock (spacingStage e (clock w) w3)).
  { unfold spacingStage. destruct (lastRequestTime _); [|repeat split; lia].
    destruct (_ =? 0); [repeat split; lia|].
    destruct (_ <? _); repeat split; try lia. rewrite sleep_clock. lia. }
  rewrite D2, R2 in H3.
  generalize dependent (spacingStage e (clock w) w3). intros w4 (D3 & R3 & C3).
  unfold admitStage, jitterStage.
  change (dispatched (trace (log ?ev (set_lastRequestTime ?t (sleep ?ms ?o w4)))))
    with (dispatched (trace w4)).
  change (recorded (trace (log ?ev (set_lastRequestTime ?t (sleep ?ms ?o w4)))))
    with (recorded (trace w4)).
  change (clock (log ?ev (set_lastRequestTime ?t (sleep ?ms ?o w4))))
    with (clock (sleep ms o w4)).
  rewrite sleep_clock. repeat split; try assumption. lia.
Qed.

Lemma handleError_log :
  forall message e w,
    dispatched (trace (fst (handleError message e w))) = dispatched (trace w) /\
    recorded (trace (fst (handleError message e w))) = recorded (trace w) /\
    clock w <= clock (fst (handleError message e w)).
Proof.
  intros message e w. unfold handleError.
  repeat case_if; cbn [fst]; repeat split;
    try (rewrite sleep_clock; change (clock (set_burstTracker ?l ?x)) with (clock x));
    try (cbn; lia); lia.
Qed.

(** One turn hands the head of the queue to [placePixel], once; it records
    a send exactly when the placement is confirmed; and the clock does not
    go back. *)
Lemma iteration_log :
  forall e w p rest,
    queue (emb w) = p :: rest ->
    dispatched (trace (fst (iteration e w))) = p :: dispatched (trace w) /\
    clock w <= clock (fst (iteration e w)) /\
    match failure (outcome e) with
    | None => exists r, clock w <= r <= clock (fst (iteration e w)) /\
                        recorded (trace (fst (iteration e w))) = r :: recorded (trace w)
    | Some _ => recorded (trace (fst (iteration e w))) = recorded (trace w)
    end.
Proof.
  intros e w p rest Hq. rewrite (iteration_eq e w p rest Hq).
  assert (G : dispatched (trace (gate e rest w)) = dispatched (trace w) /\
              recorded (trace (gate e rest w)) = recorded (trace w) /\
              clock w <= clock (gate e rest w)).
  { unfold gate.
    pose proof (safeDelay_log e (tick (lag e) (set_queue rest w))) as H.
    change (trace (tick (lag e) (set_queue rest w))) with (trace w) in H.
    change (clock (tick (lag e) (set_queue rest w))) with (clock w + Z.of_N (lag e)) in H.
    generalize dependent (safeDelay e (tick (lag e) (set_queue rest w))).
    intros w2 (D & R & C). destruct (stopRequested e); repeat split; try assumption;
      try (change (clock (stop w2)) with (clock w2)); lia. }
  generalize dependent (gate e rest w). intros w2 (D & R & C).
  assert (P : dispatched (trace (snd (placePixel p (outcome e) (fallback e) w2)))
                = p :: dispatched (trace w) /\
              clock w <= clock (snd (placePixel p (outcome e) (fallback e) w2)) /\
              match failure (outcome e) with
              | None => exists r, clock w <= r <= clock (snd (placePixel p (outcome e) (fallback e) w2)) /\
                          recorded (trace (snd (placePixel p (outcome e) (fallback e) w2)))
                          = r :: recorded (trace w)
              | Some _ => recorded (trace (snd (placePixel p (outcome e) (fallback e) w2)))
                          = recorded (trace w)
              end /\
              fst (placePixel p (outcome e) (fallback e) w2)
              = match failure (outcome e) with
                | None => Resolved
                | Some m => Threw m
                end).
  { rewrite <- D, <- R.
    destruct (transmit_state p (outcome e) (fallback e) w2) as (_ & Tc & _).
    destruct (transmit_log p (outcome e) (fallback e) w2)
      as (Tr & _ & _ & _ & Td & _).
    rewrite <- Td, <- Tr. rewrite <- Tc in C. clear Tc Tr Td.
    unfold placePixel.
    generalize dependent (transmit p (outcome e) (fallback e) w2). intros w1 C.
    destruct (outcome e) as [l|l m|late]; cbn [snd fst failure].
    - split; [reflexivity|]. split; [cbn; lia|]. split; [|reflexivity].
      exists (clock w1 + Z.of_N l). split; [cbn; lia|reflexivity].
    - repeat split. cbn. lia.
    - repeat split. cbn. lia. }
  destruct (placePixel p (outcome e) (fallback e) w2) as [s w3]. cbn [fst snd] in P.
  destruct P as (D3 & C3 & R3 & ->).
  destruct (failure (outcome e)) as [message|]; cbn [settle fst].
  - unfold onFailure.
    destruct (handleError_log message e
                (saveProgress (set_errors (errors (emb w3) + 1) w3))) as (Dh & Rh & Ch).
    pose proof (saveProgress_limiter (set_errors (errors (emb w3) + 1) w3)) as L.
    apply limiter_fields in L. destruct L as (_ & _ & Lc & Lt).
    rewrite Lt in Dh, Rh. rewrite Lc in Ch.
    change (trace (set_errors (errors (emb w3) + 1) w3)) with (trace w3) in Dh, Rh.
    change (clock (set_errors (errors (emb w3) + 1) w3)) with (clock w3) in Ch.
    rewrite Dh, Rh. repeat split; try assumption. lia.
  - pose proof (onSuccess_limiter e w3) as L. apply limiter_fields in L.
    destruct L as (_ & _ & Lc & Lt). rewrite Lt, Lc.
    split; [exact D3|]. split; [exact C3|exact R3].
Qed.

(** ** The ledger of a run *)

Lemma iteration_counts :
  forall e w p rest,
    queue (emb w) = p :: rest ->
    pixelsPlaced (emb (fst (iteration e w)))
    = pixelsPlaced (emb w) + match failure (outcome e) with None => 1 | Some _ => 0 end.
Proof.
  intros e w p rest Hq.
  destruct (failure (outcome e)) as [message|] eqn:Hf.
  - destruct (iteration_failed e w p rest message Hq Hf)
      as (w5 & E & _ & _ & N & _).
    rewrite E.
    pose proof (handleError_frame message e (saveProgress w5)) as F.
    cbn zeta in F. destruct F as (_ & Fn & _).
    rewrite Fn, saveProgress_emb, N. lia.
  - destruct (outcome e) as [l| |] eqn:Ho; try discriminate.
    destruct (iteration_placed e w p rest l Hq Ho) as (w' & E & _ & _ & N & _).
    rewrite E. cbn [fst]. exact N.
Qed.

Lemma iteration_accounted :
  forall e w, loopGuard w = true -> accounted w -> accounted (fst (iteration e w)).
Proof.
  intros e w G (A1 & A2 & A3).
  destruct (loopGuard_true w G) as (_ & p & rest & Hq).
  destruct (iteration_log e w p rest Hq) as (D & _ & R).
  pose proof (iteration_counts e w p rest Hq) as N.
  pose proof (iteration_frame e w p rest Hq) as F. cbn zeta in F.
  destruct F as (Q & S & _ & O & _).
  unfold accounted. rewrite D, Q, O, N. cbn [rev length].
  split; [rewrite <- app_assoc; cbn [app]; rewrite <- A1, Hq; reflexivity|].
  destruct (failure (outcome e)).
  - rewrite R. split; lia.
  - destruct R as (r & _ & ->). cbn [length]. split; lia.
Qed.

Lemma processLoop_accounted :
  forall fuel env i w, accounted w -> accounted (processLoop fuel env i w).
Proof.
  induction fuel as [|fuel IH]; intros env i w A; [exact A|].
  rewrite processLoop_S. destruct (loopGuard w) eqn:G; [|exact A].
  pose proof (iteration_accounted (env i) w G A) as B.
  destruct (snd (iteration (env i) w)); [exact B|apply IH; exact B].
Qed.

Lemma processQueue_accounted :
  forall r env w, accounted w -> accounted (processQueue r env w).
Proof.
  intros r env w A.
  pose proof (processLoop_accounted (length (queue (emb w))) env 0 w A) as (A1 & A2 & A3).
  pose proof (processQueue_epilogue r env w) as E. cbn zeta in E.
  destruct E as (Eq & _ & En & Ee & _ & Eo & _).
  unfold accounted. rewrite processQueue_trace, Eq, En, Ee, Eo.
  repeat split; assumption.
Qed.

Lemma startSession_accounted :
  forall r pixels w, trace w = [] -> accounted (startSession r pixels w).
Proof.
  intros r pixels w Ht.
  pose proof (startSession_session r pixels w) as S. cbn zeta in S.
  destruct S as (Sq & _ & Sn & Se & _ & So & _).
  assert (T : trace (startSession r pixels w) = EvTracker [] :: trace w).
  { unfold startSession.
    pose proof (saveProgress_limiter
                  (set_isPlacing true (set_queue pixels (set_lastRequestTime None
                     (set_burstTracker [] (set_errors 0 (set_pixelsPlaced 0
                        (set_originalPixels pixels
                           (set_sessionId (Some (generateSessionId r w)) w))))))))) as L.
    apply limiter_fields in L. destruct L as (_ & _ & _ & L). rewrite L. reflexivity. }
  unfold accounted. rewrite T, Ht, Sq, Sn, Se, So. cbn. repeat split.
Qed.

(** The page events among the transmissions are the pixels handed to
    [placePixel]. *)
Lemma pageEvents_transmissions :
  forall tr, pageEvents (transmissions tr) = dispatched tr.
Proof.
  induction tr as [|ev tr IH]; [reflexivity|].
  destruct ev; cbn [transmissions dispatched flat_map app pageEvents];
    fold (transmissions tr); fold (dispatched tr); fold (pageEvents (transmissions tr));
    rewrite ?IH; reflexivity.
Qed.

(** X2.  In a run started by [embedImage] and observed from its start, the
    pixels go out as page events in the order of the batch, each once, and
    the pixels that have not gone out are exactly the queue: at every turn
    boundary and at the end, the page events so far followed by the queue
    are the batch.  Whatever else goes out is a socket emission that repeats
    the pixel of the page event before it, 200 ms after it or later: a pixel
    is sent once or twice, and nothing is sent out of order. *)
Theorem pixels_sent_in_batch_order :
  forall (r : RunEnv) (env : nat -> IterEnv) (pixels : list Pixel) (w : World)
         (k : nat),
    trace w = [] ->
    (let wk := processLoop k env 0 (startSession r pixels w) in
     (rev (dispatched (trace wk)) ++ queue (emb wk))%list = pixels /\
     pageEvents (transmissions (trace wk)) = dispatched (trace wk) /\
     echoed (transmissions (trace wk))) /\
    (let w' := processQueue r env (startSession r pixels w) in
     (rev (dispatched (trace w')) ++ queue (emb w'))%list = pixels /\
     pageEvents (transmissions (trace w')) = dispatched (trace w') /\
     echoed (transmissions (trace w'))).
Proof.
  intros r env pixels w k Ht.
  pose proof (startSession_accounted r pixels w Ht) as A.
  pose proof (startSession_session r pixels w) as S. cbn zeta in S.
  destruct S as (_ & _ & _ & _ & _ & So & _).
  assert (E0 : echoed (transmissions (trace (startSession r pixels w)))).
  { rewrite startSession_transmissions, Ht. exact I. }
  split; cbn zeta.
  - split; [|split; [apply pageEvents_transmissions|]].
    + destruct (processLoop_accounted k env 0 _ A) as (A1 & _).
      pose proof (processLoop_frame k env 0 (startSession r pixels w)) as F.
      cbn zeta in F. destruct F as (_ & O & _). rewrite A1, O, So. reflexivity.
    + apply processLoop_echoed. exact E0.
  - split; [|split; [apply pageEvents_transmissions|]].
    + destruct (processQueue_accounted r env _ A) as (A1 & _).
      pose proof (processQueue_epilogue r env (startSession r pixels w)) as E.
      cbn zeta in E. destruct E as (_ & _ & _ & _ & _ & Eo & _).
      pose proof (processLoop_frame (length (queue (emb (startSession r pixels w))))
                    env 0 (startSession r pixels w)) as F.
      cbn zeta in F. destruct F as (_ & O & _).
      rewrite A1, Eo, O, So. reflexivity.
    + rewrite processQueue_trace. apply processLoop_echoed. exact E0.
Qed.

Lemma pixels_sent_in_batch_order_witness :
  let w' := processQueue quietRun (fun _ => slowSocketTurn)
              (startSession quietRun (pixelRow 3) socketPage) in
  (rev (dispatched (trace w')) ++ queue (emb w'))%list = pixelRow 3 /\
  pageEvents (transmissions (trace w')) = dispatched (trace w') /\
  echoed (transmissions (trace w')).
Proof.
  cbn zeta.
  apply (pixels_sent_in_batch_order quietRun (fun _ => slowSocketTurn)
           (pixelRow 3) socketPage 0).
  reflexivity.
Defined.

(** On a page with a socket where a confirmation takes 500 ms, each pixel of
    a batch of three goes out twice. *)
Example three_pixels_six_transmissions :
  let w' := processQueue quietRun (fun _ => slowSocketTurn)
              (startSession quietRun (pixelRow 3) socketPage) in
  map (fun s => fst s) (rev (transmissions (trace w')))
  = [(PageEvent, mkPixel 0 0 "#FFFFFF"); (SocketEmit, mkPixel 0 0 "#FFFFFF");
     (PageEvent, mkPixel 1 0 "#FFFFFF"); (SocketEmit, mkPixel 1 0 "#FFFFFF");
     (PageEvent, mkPixel 2 0 "#FFFFFF"); (SocketEmit, mkPixel 2 0 "#FFFFFF")].
Proof. vm_compute. reflexivity. Qed.

(** X3.  In a run started by [embedImage] and observed from its start,
    [pixelsPlaced] is the number of sends [recordRequest] has recorded, and
    [errors] is the number of the other sends: every pixel sent is counted
    once, as placed or as an error. *)
Theorem counters_match_the_log :
  forall (r : RunEnv) (env : nat -> IterEnv) (pixels : list Pixel) (w : World),
    trace w = [] ->
    let w' := processQueue r env (startSession r pixels w) in
    Z.of_nat (length (recorded (trace w'))) = pixelsPlaced (emb w') /\
    Z.of_nat (length (dispatched (trace w'))) - Z.of_nat (length (recorded (trace w')))
      = errors (emb w').
Proof.
  intros r env pixels w Ht. cbn zeta.
  destruct (processQueue_accounted r env _ (startSession_accounted r pixels w Ht))
    as (_ & A2 & A3).
  split; [exact A2|lia].
Qed.

Lemma counters_match_the_log_witness :
  let w' := processQueue quietRun failsAt51 (startSession quietRun (pixelRow 100) freshPage) in
  Z.of_nat (length (recorded (trace w'))) = pixelsPlaced (emb w').
Proof.
  cbn zeta.
  apply (counters_match_the_log quietRun failsAt51 (pixelRow 100) freshPage).
  reflexivity.
Defined.

(** ** A run in which every placement is confirmed *)

(** X4.  When every placement of a batch is confirmed and nobody calls
    [stop], the run places the whole batch: [pixelsPlaced] is the size of the
    batch, there are no errors, the queue is empty, [isPlacing] is false and
    the checkpoint is gone from the store. *)
Theorem all_confirmed_run_completes :
  forall (r : RunEnv) (env : nat -> IterEnv) (pixels : list Pixel) (w : World),
    snd (preflight r pixels w) = true ->
    (forall i, (i < length pixels)%nat -> failure (outcome (env i)) = None) ->
    (forall i, (i < length pixels)%nat -> stopRequested (env i) = false) ->
    let w' := embedImage r env pixels w in
    pixelsPlaced (emb w') = Z.of_nat (length pixels) /\
    errors (emb w') = 0 /\
    queue (emb w') = [] /\
    originalPixels (emb w') = pixels /\
    isPlacing (emb w') = false /\
    slot (localStorage w') = None.
Proof.
  intros r env pixels w Hgo Hok Hstop. cbn zeta. rewrite embedImage_runs, Hgo.
  set (w0 := fst (preflight r pixels w)).
  pose proof (startSession_session r pixels w0) as HS. cbn zeta in HS.
  destruct HS as (Sq & Sp & Sn & Se & _ & So & _).
  set (ws := startSession r pixels w0) in *.
  destruct (processLoop_successes (length pixels) 0 env 0 ws)
    as (wk & Ek & Qk & _ & Nk & Rk & _ & Ok & _).
  { rewrite Sq. lia. }
  { exact Sp. }
  { intros j Hj. apply Hok. exact Hj. }
  { intros j Hj. apply Hstop. exact Hj. }
  rewrite Nat.add_0_r in Ek. cbn [processLoop] in Ek.
  rewrite Sq, skipn_all in Qk.
  pose proof (processQueue_epilogue r env ws) as E. cbn zeta in E.
  rewrite Sq, Ek in E.
  destruct E as (Eq & Ep & En & Ee & _ & Eo & _ & El).
  rewrite Qk in El. cbn [length Nat.eqb] in El.
  rewrite Eq, Ep, En, Ee, Eo, El, Qk, Nk, Rk, Ok, Sn, Se, So.
  repeat split; try lia.
Qed.

Lemma all_confirmed_run_completes_witness :
  let w' := embedImage quietRun (fun _ => quietTurn) (pixelRow 16) freshPage in
  pixelsPlaced (emb w') = Z.of_nat (length (pixelRow 16)) /\
  errors (emb w') = 0 /\
  queue (emb w') = [] /\
  originalPixels (emb w') = pixelRow 16 /\
  isPlacing (emb w') = false /\
  slot (localStorage w') = None.
Proof.
  cbn zeta.
  apply (all_confirmed_run_completes quietRun (fun _ => quietTurn) (pixelRow 16) freshPage).
  - reflexivity.
  - intros i _. reflexivity.
  - intros i _. reflexivity.
Defined.

(** ** How long a run takes *)

Lemma descending_app :
  forall l1 l2, descending (l1 ++ l2) ->
    descending l1 /\ descending l2 /\
    (forall x y, In x l1 -> In y l2 -> y <= x).
Proof.
  induction l1 as [|t l1 IH]; intros l2 H.
  - cbn in H. repeat split; [exact H|]. intros x y [].
  - cbn in H. destruct H as [F D]. destruct (IH l2 D) as (D1 & D2 & C).
    apply Forall_app in F. destruct F as [F1 F2].
    split; [cbn; split; assumption|]. split; [exact D2|].
    intros x y [<-|Hx] Hy.
    + apply (proj1 (Forall_forall _ _) F2 y Hy).
    + apply C; assumption.
Qed.

Lemma filter_all :
  forall (p : Z -> bool) l,
    (forall t, In t l -> p t = true) -> filter p l = l.
Proof.
  intros p l H. induction l as [|t l IH]; [reflexivity|].
  cbn. rewrite (H t (or_introl eq_refl)). f_equal. apply IH.
  intros u Hu. apply H. right. exact Hu.
Qed.

(** Sends in clock order of which no window holds more than fifteen: each
    further fifteen take more than a window. *)
Lemma window_span :
  forall k l lo hi,
    descending l ->
    (forall a, Z.of_nat (length (filter (inWindow a) l)) <= burstLimit) ->
    Forall (fun t => lo <= t <= hi) l ->
    (15 * k + 1 <= length l)%nat ->
    burstWindow * Z.of_nat k <= hi - lo.
Proof.
  induction k as [|k IH]; intros l lo hi D W B L.
  - destruct l as [|t l]; [cbn in L; lia|].
    inversion B; subst. lia.
  - pose proof (firstn_skipn 15 l) as Split.
    assert (L15 : length (firstn 15 l) = 15%nat) by (rewrite length_firstn; lia).
    assert (Ls : (15 * k + 1 <= length (skipn 15 l))%nat) by (rewrite length_skipn; lia).
    destruct (skipn 15 l) as [|m later] eqn:Es; [cbn in Ls; lia|].
    rewrite <- Split in D, W, B.
    destruct (descending_app _ _ D) as (D1 & D2 & C).
    apply Forall_app in B. destruct B as [B1 B2].
    (* the newest of the older part closes a window that is older than the
       newest send *)
    destruct (firstn 15 l) as [|h newer] eqn:Ef; [discriminate|].
    assert (Hh : m + burstWindow < h).
    { destruct (Z.lt_ge_cases (m + burstWindow) h) as [Hlt|Hge]; [exact Hlt|exfalso].
      specialize (W m). rewrite filter_app, length_app in W.
      rewrite (filter_all (inWindow m) (h :: newer)) in W.
      - cbn [filter] in W.
        assert (Pm : inWindow m m = true).
        { unfold inWindow. apply andb_true_iff. split; apply Z.leb_le;
            unfold burstWindow; lia. }
        rewrite Pm in W. cbn [length] in W, L15.
        unfold burstLimit in W. lia.
      - intros t Ht. unfold inWindow. apply andb_true_iff.
        split; apply Z.leb_le.
        + apply C; [exact Ht|left; reflexivity].
        + cbn in D1. destruct D1 as [F1 _]. destruct Ht as [<-|Ht]; [lia|].
          pose proof (proj1 (Forall_forall _ _) F1 t Ht) as Hle. cbn beta in Hle. lia. }
    assert (B2' : Forall (fun t => lo <= t <= m) (m :: later)).
    { cbn in D2. destruct D2 as [F2 _].
      inversion B2 as [|? ? Bm Bl]; subst.
      constructor; [lia|].
      apply Forall_forall. intros t Ht.
      pose proof (proj1 (Forall_forall _ _) Bl t Ht) as H1.
      pose proof (proj1 (Forall_forall _ _) F2 t Ht) as H2. cbn beta in *. lia. }
    assert (W2 : forall a, Z.of_nat (length (filter (inWindow a) (m :: later))) <= burstLimit).
    { intros a. specialize (W a). rewrite filter_app, length_app in W. lia. }
    specialize (IH (m :: later) lo m D2 W2 B2' Ls).
    inversion B1; subst. lia.
Qed.

Lemma iteration_timeline :
  forall start e w,
    loopGuard w = true -> timeline start w -> timeline start (fst (iteration e w)).
Proof.
  intros start e w G (T1 & T2 & T3).
  destruct (loopGuard_true w G) as (_ & p & rest & Hq).
  destruct (iteration_log e w p rest Hq) as (_ & C & R).
  unfold timeline. split; [lia|].
  assert (T2' : Forall (fun t => start <= t <= clock (fst (iteration e w)))
                  (recorded (trace w))).
  { eapply Forall_impl; [|exact T2]. cbn beta. intros t Ht. lia. }
  destruct (failure (outcome e)).
  - rewrite R. split; assumption.
  - destruct R as (r & Hr & ->). split.
    + constructor; [lia|exact T2'].
    + cbn. split; [|exact T3].
      eapply Forall_impl; [|exact T2]. cbn beta. intros t Ht. lia.
Qed.

Lemma processLoop_timeline :
  forall start fuel env i w,
    timeline start w -> timeline start (processLoop fuel env i w).
Proof.
  intros start. induction fuel as [|fuel IH]; intros env i w T; [exact T|].
  rewrite processLoop_S. destruct (loopGuard w) eqn:G; [|exact T].
  pose proof (iteration_timeline start (env i) w G T) as B.
  destruct (snd (iteration (env i) w)); [exact B|apply IH; exact B].
Qed.

(** X5.  A run started by [embedImage] that places [n] pixels takes at least
    [burstWindow * ((n - 1) / 15)] ms: 660 seconds for a thousand. *)
Theorem run_takes_a_window_per_fifteen :
  forall (r : RunEnv) (env : nat -> IterEnv) (pixels : list Pixel) (w : World),
    0 < clock w ->
    trace w = [] ->
    (forall i, jitterOk (env i)) ->
    snd (preflight r pixels w) = true ->
    let w' := embedImage r env pixels w in
    burstWindow * ((pixelsPlaced (emb w') - 1) / 15) <= clock w' - clock w.
Proof.
  intros r env pixels w Hc Ht J Hgo. cbn zeta.
  rewrite embedImage_runs, Hgo.
  set (w0 := fst (preflight r pixels w)) in *.
  destruct (preflight_view r pixels w) as (Pc & Pr & Pa). fold w0 in Pc, Pr, Pa.
  rewrite Ht in Pr, Pa. cbn in Pr, Pa.
  (* no window holds more than fifteen of them *)
  assert (W : forall a,
             Z.of_nat (windowCount a (trace (processQueue r env (startSession r pixels w0))))
             <= burstLimit).
  { apply (processQueue_rate env J).
    apply startSession_rate; [lia|exact Pr|exact Pa]. }
  (* the recorded sends of the run, in clock order *)
  assert (T : timeline (clock w) (processQueue r env (startSession r pixels w0))).
  { assert (T0 : timeline (clock w) (startSession r pixels w0)).
    { unfold startSession.
      pose proof (saveProgress_limiter
                    (set_isPlacing true (set_queue pixels (set_lastRequestTime None
                       (set_burstTracker [] (set_errors 0 (set_pixelsPlaced 0
                          (set_originalPixels pixels
                             (set_sessionId (Some (generateSessionId r w0)) w0))))))))) as L.
      apply limiter_fields in L. destruct L as (_ & _ & Lc & Lt).
      unfold timeline. rewrite Lc, Lt.
      change (clock (set_isPlacing true _)) with (clock w0).
      change (recorded (trace (set_isPlacing true _))) with (recorded (trace w0)).
      rewrite Pr. repeat split; [lia|constructor]. }
    pose proof (processLoop_timeline (clock w)
                  (length (queue (emb (startSession r pixels w0)))) env 0 _ T0) as T1.
    pose proof (processQueue_epilogue r env (startSession r pixels w0)) as E.
    cbn zeta in E. destruct E as (_ & _ & _ & _ & _ & _ & Ec & _).
    unfold timeline. rewrite processQueue_trace, Ec. exact T1. }
  destruct T as (T1 & T2 & T3).
  (* their number is [pixelsPlaced] *)
  assert (A : accounted (processQueue r env (startSession r pixels w0))).
  { apply processQueue_accounted.
    pose proof (startSession_session r pixels w0) as S. cbn zeta in S.
    destruct S as (Sq & _ & Sn & Se & _ & So & _).
    assert (Tr : recorded (trace (startSession r pixels w0)) = [] /\
                 dispatched (trace (startSession r pixels w0)) = []).
    { unfold startSession.
      pose proof (saveProgress_limiter
                    (set_isPlacing true (set_queue pixels (set_lastRequestTime None
                       (set_burstTracker [] (set_errors 0 (set_pixelsPlaced 0
                          (set_originalPixels pixels
                             (set_sessionId (Some (generateSessionId r w0)) w0))))))))) as L.
      apply limiter_fields in L. destruct L as (_ & _ & _ & Lt). rewrite Lt.
      change (recorded (trace (set_isPlacing true _))) with (recorded (trace w0)).
      change (dispatched (trace (set_isPlacing true _))) with (dispatched (trace w0)).
      split; [exact Pr|].
      unfold w0, preflight. destruct (isPlacing (emb w)); [cbn [fst]; rewrite Ht; reflexivity|].
      assert (H1 : dispatched
                     (trace (if socket (emb w) then sleep 300 (socketOver r) w else w)) = []).
      { destruct (socket (emb w)); cbn; rewrite Ht; reflexivity. }
      generalize dependent (if socket (emb w) then sleep 300 (socketOver r) w else w).
      intros w1 H1.
      destruct (length pixels =? 0)%nat; [exact H1|].
      destruct (creditsAtStart r) as [c|]; cbn [getCurrentCredits]; [|exact H1].
      destruct (c <? Z.of_nat (length pixels)); exact H1. }
    destruct Tr as [Tr Td].
    unfold accounted. rewrite Tr, Td, Sq, Sn, Se, So. cbn. repeat split. }
  destruct A as (_ & A2 & _).
  set (w' := processQueue r env (startSession r pixels w0)) in *.
  unfold windowCount in W.
  destruct (recorded (trace w')) as [|t l] eqn:El.
  { cbn in A2. rewrite <- A2.
    change ((0 - 1) / 15) with (-1). unfold burstWindow. lia. }
  set (k := Z.to_nat ((pixelsPlaced (emb w') - 1) / 15)).
  assert (Hn : 0 <= pixelsPlaced (emb w') - 1) by (rewrite <- A2; cbn [length]; lia).
  assert (Hk : Z.of_nat k = (pixelsPlaced (emb w') - 1) / 15).
  { subst k. apply Z2Nat.id. apply Z.div_pos; lia. }
  rewrite <- Hk.
  apply (window_span k (t :: l) (clock w) (clock w') T3 W T2).
  pose proof (Z.mul_div_le (pixelsPlaced (emb w') - 1) 15 ltac:(lia)) as M.
  rewrite <- Hk in M. lia.
Qed.

Lemma run_takes_a_window_per_fifteen_witness :
  let w' := embedImage quietRun (fun _ => quietTurn) (pixelRow 16) freshPage in
  burstWindow * ((pixelsPlaced (emb w') - 1) / 15) <= clock w' - clock freshPage.
Proof.
  cbn zeta.
  apply (run_takes_a_window_per_fifteen quietRun (fun _ => quietTurn) (pixelRow 16) freshPage).
  - reflexivity.
  - reflexivity.
  - intros i. unfold jitterOk. cbn. lia.
  - reflexivity.
Defined.

(** ** Stopping *)

Lemma handleError_breaks :
  forall message e w, snd (handleError message e w) = isCreditError message.
Proof.
  intros message e w. unfold handleError, isCreditError.
  destruct (includes (toLowerCase message) "burst limit"); [reflexivity|].
  destruct (includes (toLowerCase message) "rate" || includes (toLowerCase message) "limit");
    [reflexivity|].
  destruct (includes (toLowerCase message) "credit"); reflexivity.
Qed.

Lemma iteration_breaks :
  forall e w p rest,
    queue (emb w) = p :: rest ->
    snd (iteration e w)
    = match failure (outcome e) with
      | Some message => isCreditError message
      | None => false
      end.
Proof.
  intros e w p rest Hq.
  destruct (failure (outcome e)) as [message|] eqn:Hf.
  - destruct (iteration_failed e w p rest message Hq Hf) as (w5 & E & _).
    rewrite E. apply handleError_breaks.
  - destruct (outcome e) as [l| |] eqn:Ho; try discriminate.
    destruct (iteration_placed e w p rest l Hq Ho) as (w' & E & _).
    rewrite E. reflexivity.
Qed.

Lemma iteration_isPlacing :
  forall e w p rest,
    queue (emb w) = p :: rest ->
    isPlacing (emb (fst (iteration e w)))
    = isPlacing (emb w) && negb (stopRequested e) && negb (snd (iteration e w)).
Proof.
  intros e w p rest Hq.
  destruct (failure (outcome e)) as [message|] eqn:Hf.
  - destruct (iteration_failed e w p rest message Hq Hf) as (w5 & E & _ & P & _).
    rewrite E.
    pose proof (handleError_frame message e (saveProgress w5)) as F.
    cbn zeta in F. destruct F as (_ & _ & _ & _ & _ & _ & Fp).
    rewrite Fp, saveProgress_emb, P. reflexivity.
  - destruct (outcome e) as [l| |] eqn:Ho; try discriminate.
    destruct (iteration_placed e w p rest l Hq Ho) as (w' & E & _ & P & _).
    rewrite E. cbn [fst snd]. rewrite P, andb_true_r. reflexivity.
Qed.

(** X6.  [stop()] is cooperative: when it is called during a turn, the pixel
    of that turn is still sent and counted, no further pixel is sent, the
    rest of the queue stays, [isPlacing] ends false, and (with a session and
    a storage that accepts the write) the checkpoint left in the store holds
    exactly the rest of the queue. *)
Theorem stop_is_cooperative :
  forall (r : RunEnv) (env : nat -> IterEnv) (w : World) (p : Pixel)
         (rest : list Pixel),
    queue (emb w) = p :: rest ->
    isPlacing (emb w) = true ->
    stopRequested (env 0%nat) = true ->
    let w' := processQueue r env w in
    dispatched (trace w') = p :: dispatched (trace w) /\
    queue (emb w') = rest /\
    pixelsPlaced (emb w') + errors (emb w') = pixelsPlaced (emb w) + errors (emb w) + 1 /\
    isPlacing (emb w') = false /\
    (rest <> [] ->
     truthy_string (sessionId (emb w)) = true ->
     quotaExceeded (localStorage w) = false ->
     storedQueue w' = Some rest).
Proof.
  intros r env w p rest Hq Hp Hstop. cbn zeta.
  assert (G : loopGuard w = true).
  { unfold loopGuard. rewrite Hq, Hp. reflexivity. }
  pose proof (iteration_isPlacing (env 0%nat) w p rest Hq) as P.
  rewrite Hstop, andb_false_r in P. cbn [andb] in P.
  destruct (iteration_log (env 0%nat) w p rest Hq) as (D & _ & _).
  pose proof (iteration_frame (env 0%nat) w p rest Hq) as F. cbn zeta in F.
  destruct (F) as (Q & N & Hs & _ & L & _).
  assert (Eloop : processLoop (length (queue (emb w))) env 0 w
                  = fst (iteration (env 0%nat) w)).
  { rewrite Hq. cbn [length]. rewrite processLoop_S, G.
    destruct (snd (iteration (env 0%nat) w)); [reflexivity|].
    apply processLoop_guard_false. unfold loopGuard. rewrite P. apply andb_false_r. }
  pose proof (processQueue_epilogue r env w) as E. cbn zeta in E.
  rewrite Eloop in E. destruct E as (Eq & Ep & En & Ee & _ & _ & _ & El).
  rewrite processQueue_trace, Eloop.
  split; [exact D|]. split; [rewrite Eq; exact Q|].
  split; [rewrite En, Ee; exact N|]. split; [exact Ep|].
  intros Hrest Htruthy Hquota.
  unfold storedQueue. rewrite El, Q.
  destruct rest as [|q rest']; [congruence|]. cbn [length Nat.eqb].
  rewrite saveProgress_stores.
  - cbn. rewrite Q. reflexivity.
  - cbn. rewrite Hs. exact Htruthy.
  - cbn. rewrite L. exact Hquota.
Qed.

Lemma stop_is_cooperative_witness :
  let env := fun _ : nat =>
    {| lag := 0; burstOver := 0; spaceOver := 0; jitter := 50; jitterOver := 0;
       outcome := Placed 1; fallback := noSocket; coolOver := 0;
       creditsShown := None; stopRequested := true |} in
  let w := startSession quietRun (pixelRow 3) freshPage in
  queue (emb (processQueue quietRun env w)) = skipn 1 (pixelRow 3) /\
  isPlacing (emb (processQueue quietRun env w)) = false.
Proof.
  cbn zeta.
  pose proof (stop_is_cooperative quietRun
    (fun _ : nat =>
       {| lag := 0; burstOver := 0; spaceOver := 0; jitter := 50; jitterOver := 0;
          outcome := Placed 1; fallback := noSocket; coolOver := 0;
          creditsShown := None; stopRequested := true |})
    (startSession quietRun (pixelRow 3) freshPage)
    (mkPixel 0 0 "#FFFFFF") (skipn 1 (pixelRow 3))
    eq_refl eq_refl eq_refl) as H.
  cbn zeta in H. destruct H as (_ & Q & _ & P & _). split; assumption.
Defined.

(** X7.  A turn ends the loop of its own accord ([break]) exactly when the
    placement failed with a message that mentions 'credit' and neither
    'rate' nor 'limit'.  So a confirmed placement, a timeout, a rejection
    without a message, and any message that mentions a limit (even one that
    also mentions credits) let the loop go on. *)
Theorem loop_breaks_only_for_credits :
  forall (e : IterEnv) (w : World) (p : Pixel) (rest : list Pixel),
    queue (emb w) = p :: rest ->
    snd (iteration e w)
    = match failure (outcome e) with
      | Some message => isCreditError message
      | None => false
      end /\
    (forall late, outcome e = TimedOut late -> snd (iteration e w) = false) /\
    (forall l, outcome e = Rejected l None -> snd (iteration e w) = false) /\
    (forall l message,
        outcome e = Rejected l (Some message) ->
        includes (toLowerCase message) "limit" = true ->
        snd (iteration e w) = false).
Proof.
  intros e w p rest Hq.
  pose proof (iteration_breaks e w p rest Hq) as B.
  split; [exact B|]. split; [|split].
  - intros late Ho. rewrite B, Ho. reflexivity.
  - intros l Ho. rewrite B, Ho. reflexivity.
  - intros l message Ho Hl. rewrite B, Ho. cbn [failure].
    destruct message as [|c message'].
    + cbn in Hl. discriminate.
    + cbn [errorMessage]. unfold isCreditError. rewrite Hl, orb_true_r.
      destruct (includes (toLowerCase (String c message')) "burst limit");
        reflexivity.
Qed.

Lemma loop_breaks_only_for_credits_witness :
  snd (iteration creditFailure (startSession quietRun (pixelRow 3) freshPage)) = true.
Proof.
  pose proof (loop_breaks_only_for_credits creditFailure
                (startSession quietRun (pixelRow 3) freshPage)
                (mkPixel 0 0 "#FFFFFF") (skipn 1 (pixelRow 3)) eq_refl) as (H & _).
  rewrite H. vm_compute. reflexivity.
Defined.

(** ** Checkpoints during a run *)

Lemma iteration_failed_store :
  forall e w p rest message,
    queue (emb w) = p :: rest ->
    failure (outcome e) = Some message ->
    truthy_string (sessionId (emb w)) = true ->
    quotaExceeded (localStorage w) = false ->
    exists data,
      slot (localStorage (fst (iteration e w))) = Some (Json data) /\
      pg_queue data = rest /\
      pg_errors data = errors (emb w) + 1 /\
      pg_pixelsPlaced data = pixelsPlaced (emb w) /\
      pg_originalPixels data = originalPixels (emb w) /\
      pg_sessionId data = sessionId (emb w).
Proof.
  intros e w p rest message Hq Hf Hs Hquota.
  destruct (iteration_failed e w p rest message Hq Hf)
    as (w5 & E & Q & _ & N & R & S & O & L).
  rewrite E.
  pose proof (handleError_frame message e (saveProgress w5)) as F.
  cbn zeta in F. destruct F as (_ & _ & _ & _ & _ & Fl & _).
  rewrite Fl. exists (progressData w5).
  split.
  - apply saveProgress_stores; [rewrite S; exact Hs|rewrite L; exact Hquota].
  - unfold progressData. cbn. rewrite Q, N, R, S, O. repeat split.
Qed.

(** X8.  A failed placement is checkpointed at once: after the turn the
    store holds a checkpoint with the failed pixel off the queue and the
    error counted (given a session and a storage that accepts the write). *)
Theorem failure_is_checkpointed :
  forall (e : IterEnv) (w : World) (p : Pixel) (rest : list Pixel)
         (message : string),
    queue (emb w) = p :: rest ->
    failure (outcome e) = Some message ->
    truthy_string (sessionId (emb w)) = true ->
    quotaExceeded (localStorage w) = false ->
    exists data,
      slot (localStorage (fst (iteration e w))) = Some (Json data) /\
      pg_queue data = rest /\
      pg_errors data = errors (emb w) + 1 /\
      pg_pixelsPlaced data = pixelsPlaced (emb w) /\
      pg_originalPixels data = originalPixels (emb w) /\
      pg_sessionId data = sessionId (emb w).
Proof. exact iteration_failed_store. Qed.

Lemma failure_is_checkpointed_witness :
  exists data,
    slot (localStorage (fst (iteration creditFailure
                               (startSession quietRun (pixelRow 3) freshPage))))
      = Some (Json data) /\
    pg_queue data = skipn 1 (pixelRow 3) /\
    pg_errors data = 1.
Proof.
  destruct (failure_is_checkpointed creditFailure
              (startSession quietRun (pixelRow 3) freshPage)
              (mkPixel 0 0 "#FFFFFF") (skipn 1 (pixelRow 3)) "Insufficient credits"
              eq_refl eq_refl eq_refl eq_refl) as (data & H1 & H2 & H3 & _).
  exists data. repeat split; assumption.
Defined.

Lemma onSuccess_store :
  forall e w3,
    localStorage (onSuccess e w3)
    = localStorage (if (pixelsPlaced (emb w3) + 1) mod 10 =? 0
                    then saveProgress (set_pixelsPlaced (pixelsPlaced (emb w3) + 1) w3)
                    else w3).
Proof.
  intros e w3. unfold onSuccess.
  change (pixelsPlaced (emb (set_pixelsPlaced (pixelsPlaced (emb w3) + 1) w3)))
    with (pixelsPlaced (emb w3) + 1).
  destruct ((pixelsPlaced (emb w3) + 1) mod 10 =? 0).
  - destruct (_ =? 0); [|reflexivity].
    destruct (creditsShown e); reflexivity.
  - destruct (_ =? 0); [|reflexivity].
    destruct (creditsShown e); reflexivity.
Qed.

Lemma iteration_placed_store :
  forall e w p rest l,
    queue (emb w) = p :: rest ->
    outcome e = Placed l ->
    truthy_string (sessionId (emb w)) = true ->
    quotaExceeded (localStorage w) = false ->
    if (pixelsPlaced (emb w) + 1) mod 10 =? 0 then
      exists data,
        slot (localStorage (fst (iteration e w))) = Some (Json data) /\
        pg_queue data = rest /\
        pg_errors data = errors (emb w) /\
        pg_pixelsPlaced data = pixelsPlaced (emb w) + 1 /\
        pg_originalPixels data = originalPixels (emb w) /\
        pg_sessionId data = sessionId (emb w)
    else localStorage (fst (iteration e w)) = localStorage w.
Proof.
  intros e w p rest l Hq Ho Hs Hquota.
  pose proof (inFlight_session e p rest w) as H. unfold inFlight in H.
  rewrite (iteration_eq e w p rest Hq).
  destruct (placePixel p (outcome e) (fallback e) (gate e rest w)) as [s w3] eqn:E.
  assert (s = Resolved) as ->.
  { rewrite Ho in E. cbn in E. inversion E. reflexivity. }
  cbn [snd] in H. unfold session in H.
  injection H as Hq3 _ Hn3 He3 Hs3 Ho3 Hl3.
  cbn [settle fst]. rewrite onSuccess_store, Hn3.
  destruct ((pixelsPlaced (emb w) + 1) mod 10 =? 0).
  - exists (progressData (set_pixelsPlaced (pixelsPlaced (emb w) + 1) w3)).
    split.
    + apply saveProgress_stores.
      * change (sessionId (emb (set_pixelsPlaced (pixelsPlaced (emb w) + 1) w3)))
          with (sessionId (emb w3)). rewrite Hs3. exact Hs.
      * change (localStorage (set_pixelsPlaced (pixelsPlaced (emb w) + 1) w3))
          with (localStorage w3). rewrite Hl3. exact Hquota.
    + unfold progressData. cbn. rewrite Hq3, He3, Hs3, Ho3. repeat split.
  - exact Hl3.
Qed.

Lemma iteration_checkpointed :
  forall e w,
    loopGuard w = true ->
    truthy_string (sessionId (emb w)) = true ->
    quotaExceeded (localStorage w) = false ->
    checkpointed w -> checkpointed (fst (iteration e w)).
Proof.
  intros e w G Hs Hquota (data & redo & C1 & C2 & C3 & C4 & C5 & C6 & C7).
  destruct (loopGuard_true w G) as (_ & p & rest & Hq).
  pose proof (iteration_frame e w p rest Hq) as F. cbn zeta in F.
  destruct F as (Q & _ & S & O & _).
  pose proof (iteration_counts e w p rest Hq) as N.
  destruct (failure (outcome e)) as [message|] eqn:Hf.
  - destruct (iteration_failed_store e w p rest message Hq Hf Hs Hquota)
      as (d & D1 & D2 & D3 & D4 & D5 & D6).
    destruct (iteration_failed e w p rest message Hq Hf) as (w5 & E & _ & _ & _ & R & _).
    assert (Re : errors (emb (fst (iteration e w))) = errors (emb w) + 1).
    { rewrite E.
      pose proof (handleError_frame message e (saveProgress w5)) as Fh.
      cbn zeta in Fh. destruct Fh as (_ & _ & Fe & _).
      rewrite Fe, saveProgress_emb. exact R. }
    exists d, []. rewrite Q, S, O, N, Re. cbn [app length Z.of_nat].
    pose proof (Z.mod_pos_bound (pixelsPlaced (emb w) + 0) 10 ltac:(lia)).
    repeat split; try assumption; lia.
  - destruct (outcome e) as [l| |] eqn:Ho; try discriminate.
    destruct (iteration_placed e w p rest l Hq Ho) as (w' & E & _ & _ & _ & R & _).
    assert (Re : errors (emb (fst (iteration e w))) = errors (emb w)).
    { rewrite E. exact R. }
    pose proof (iteration_placed_store e w p rest l Hq Ho Hs Hquota) as St.
    destruct ((pixelsPlaced (emb w) + 1) mod 10 =? 0) eqn:M.
    + destruct St as (d & D1 & D2 & D3 & D4 & D5 & D6).
      exists d, []. rewrite Q, S, O, N, Re. cbn [app length Z.of_nat].
      pose proof (Z.mod_pos_bound (pixelsPlaced (emb w) + 1) 10 ltac:(lia)).
      repeat split; try assumption; lia.
    + exists data, (redo ++ [p])%list.
      rewrite St, Q, S, O, N, Re, length_app. cbn [length].
      split; [exact C1|].
      split; [rewrite C2, Hq, <- app_assoc; reflexivity|].
      apply Z.eqb_neq in M.
      pose proof (Z.div_mod (pixelsPlaced (emb w)) 10 ltac:(lia)) as E1.
      pose proof (Z.div_mod (pixelsPlaced (emb w) + 1) 10 ltac:(lia)) as E2.
      pose proof (Z.mod_pos_bound (pixelsPlaced (emb w)) 10 ltac:(lia)) as B1.
      pose proof (Z.mod_pos_bound (pixelsPlaced (emb w) + 1) 10 ltac:(lia)) as B2.
      repeat split; try assumption; lia.
Qed.

Lemma processLoop_checkpointed :
  forall fuel env i w,
    truthy_string (sessionId (emb w)) = true ->
    quotaExceeded (localStorage w) = false ->
    checkpointed w -> checkpointed (processLoop fuel env i w).
Proof.
  induction fuel as [|fuel IH]; intros env i w Hs Hquota C; [exact C|].
  rewrite processLoop_S. destruct (loopGuard w) eqn:G; [|exact C].
  pose proof (iteration_checkpointed (env i) w G Hs Hquota C) as B.
  destruct (loopGuard_true w G) as (_ & p & rest & Hq).
  pose proof (iteration_frame (env i) w p rest Hq) as F. cbn zeta in F.
  destruct F as (_ & _ & S & _ & L & _).
  destruct (snd (iteration (env i) w)); [exact B|].
  apply IH; [rewrite S; exact Hs|rewrite L; exact Hquota|exact B].
Qed.

(** X9.  During a run started by [embedImage], with a storage that accepts
    writes, the store holds a checkpoint of the run at every turn boundary,
    and it is at most nine placed pixels behind: the checkpoint's queue is
    the current queue preceded by the pixels placed since the last save, its
    error count is the current one, and its [pixelsPlaced] is the current one
    less those pixels.  A resume after a crash may send up to nine placed
    pixels again and never skips a pending one. *)
Theorem checkpoint_lags_by_at_most_nine :
  forall (r : RunEnv) (env : nat -> IterEnv) (pixels : list Pixel) (w : World)
         (k : nat),
    quotaExceeded (localStorage w) = false ->
    let wk := processLoop k env 0 (startSession r pixels w) in
    exists data redo,
      slot (localStorage wk) = Some (Json data) /\
      pg_queue data = (redo ++ queue (emb wk))%list /\
      (length redo <= 9)%nat /\
      pg_pixelsPlaced data + Z.of_nat (length redo) = pixelsPlaced (emb wk) /\
      pg_errors data = errors (emb wk) /\
      pg_originalPixels data = pixels /\
      pg_sessionId data = sessionId (emb wk).
Proof.
  intros r env pixels w k Hquota. cbn zeta.
  pose proof (startSession_session r pixels w) as HS. cbn zeta in HS.
  destruct HS as (Sq & _ & Sn & Se & Ss & So & Sl).
  assert (C0 : checkpointed (startSession r pixels w)).
  { unfold checkpointed. eexists. exists [].
    split; [unfold startSession; apply saveProgress_stores;
            [reflexivity|exact Hquota]|].
    rewrite Sq, Sn, Se, Ss, So. cbn. repeat split. discriminate. }
  assert (Hs : truthy_string (sessionId (emb (startSession r pixels w))) = true).
  { rewrite Ss. apply generateSessionId_truthy. }
  assert (Hq : quotaExceeded (localStorage (startSession r pixels w)) = false).
  { rewrite Sl. exact Hquota. }
  destruct (processLoop_checkpointed k env 0 _ Hs Hq C0)
    as (data & redo & C1 & C2 & C3 & C4 & C5 & C6 & C7).
  pose proof (processLoop_frame k env 0 (startSession r pixels w)) as F.
  cbn zeta in F. destruct F as (_ & O & _).
  exists data, redo. rewrite O, So in C6.
  repeat split; try assumption.
  pose proof (Z.mod_pos_bound
                (pixelsPlaced (emb (processLoop k env 0 (startSession r pixels w)))) 10
                ltac:(lia)). lia.
Qed.

Lemma checkpoint_lags_by_at_most_nine_witness :
  exists data redo,
    slot (localStorage interruptedAfterTen) = Some (Json data) /\
    pg_queue data = (redo ++ queue (emb interruptedAfterTen))%list /\
    (length redo <= 9)%nat.
Proof.
  destruct (checkpoint_lags_by_at_most_nine quietRun (fun _ => quietTurn)
              (pixelRow 10) freshPage 10 eq_refl)
    as (data & redo & H1 & H2 & H3 & _).
  exists data, redo. repeat split; assumption.
Defined.

(** ** Crash, reload, resume *)

Lemma processLoop_order :
  forall fuel env i w,
    (rev (dispatched (trace (processLoop fuel env i w)))
       ++ queue (emb (processLoop fuel env i w)))%list
    = (rev (dispatched (trace w)) ++ queue (emb w))%list.
Proof.
  induction fuel as [|fuel IH]; intros env i w; [reflexivity|].
  rewrite processLoop_S. destruct (loopGuard w) eqn:G; [|reflexivity].
  destruct (loopGuard_true w G) as (_ & p & rest & Hq).
  destruct (iteration_log (env i) w p rest Hq) as (D & _ & _).
  pose proof (iteration_frame (env i) w p rest Hq) as F. cbn zeta in F.
  destruct F as (Q & _).
  assert (B : (rev (dispatched (trace (fst (iteration (env i) w))))
                 ++ queue (emb (fst (iteration (env i) w))))%list
              = (rev (dispatched (trace w)) ++ queue (emb w))%list).
  { rewrite D, Q, Hq. cbn [rev]. rewrite <- app_assoc. reflexivity. }
  destruct (snd (iteration (env i) w)); [exact B|].
  rewrite IH. exact B.
Qed.

(** A new embedder on a page whose stored checkpoint has not expired. *)
Lemma newEmbedder_keeps_checkpoint :
  forall hasSocket now ls data,
    slot ls = Some (Json data) ->
    now - pg_timestamp data <= dayMs ->
    newEmbedder hasSocket now ls
    = {| emb := {| queue := []; isPlacing := false; pixelsPlaced := 0; errors := 0;
                   currentCredits := None; sessionId := None; originalPixels := [];
                   currentTier := "Standard"; tierLogged := false;
                   burstTracker := []; requestTimes := []; lastRequestTime := None;
                   socket := hasSocket |};
         clock := now; localStorage := ls; trace := [] |}.
Proof.
  intros hasSocket now ls data Hslot Hfresh.
  unfold newEmbedder, checkForExistingSession, loadProgress.
  cbn [localStorage clock]. rewrite Hslot.
  assert (E : (dayMs <? now - pg_timestamp data) = false) by (apply Z.ltb_ge; lia).
  rewrite E. reflexivity.
Qed.

(** The state a confirmed resume starts the loop in. *)
Lemma resumeEmbedding_starts :
  forall r env w data,
    slot (localStorage w) = Some (Json data) ->
    clock w - pg_timestamp data <= dayMs ->
    pg_queue data <> [] ->
    isPlacing (emb w) = false ->
    resumeConfirmed r = true ->
    resumeEmbedding r env w
    = (true, processQueue r env
               (set_isPlacing true (tick (dialogTime r) (restore data w)))).
Proof.
  intros r env w data Hslot Hfresh Hq Hp Hc.
  unfold resumeEmbedding, loadProgress. rewrite Hslot.
  assert (E : (dayMs <? clock w - pg_timestamp data) = false) by (apply Z.ltb_ge; lia).
  rewrite E, Hp, Hc.
  destruct (pg_queue data) as [|p q]; [congruence|]. reflexivity.
Qed.

(** A loop in which every placement is confirmed and nobody stops. *)
Lemma processQueue_all_confirmed :
  forall r env w,
    isPlacing (emb w) = true ->
    (forall i, failure (outcome (env i)) = None) ->
    (forall i, stopRequested (env i) = false) ->
    let w' := processQueue r env w in
    queue (emb w') = [] /\
    pixelsPlaced (emb w') = pixelsPlaced (emb w) + Z.of_nat (length (queue (emb w))) /\
    errors (emb w') = errors (emb w) /\
    isPlacing (emb w') = false /\
    slot (localStorage w') = None /\
    rev (dispatched (trace w')) = (rev (dispatched (trace w)) ++ queue (emb w))%list.
Proof.
  intros r env w Hp Hok Hstop. cbn zeta.
  destruct (processLoop_successes (length (queue (emb w))) 0 env 0 w)
    as (wk & Ek & Qk & _ & Nk & Rk & _).
  { lia. }
  { exact Hp. }
  { intros j _. apply Hok. }
  { intros j _. apply Hstop. }
  rewrite Nat.add_0_r in Ek. cbn [processLoop] in Ek.
  rewrite skipn_all in Qk.
  pose proof (processLoop_order (length (queue (emb w))) env 0 w) as Ord.
  rewrite Ek, Qk, app_nil_r in Ord.
  pose proof (processQueue_epilogue r env w) as E. cbn zeta in E.
  rewrite Ek in E. destruct E as (Eq & Ep & En & Ee & _ & _ & _ & El).
  rewrite Qk in El. cbn [length Nat.eqb] in El.
  rewrite processQueue_trace, Ek, Eq, Ep, En, Ee, El, Qk, Nk, Rk, Ord.
  repeat split.
Qed.

(** X10.  A run whose page is closed at a turn boundary with pixels still
    pending, and which is resumed on a reloaded page within 24 hours and then
    runs to the end without failures, loses nothing: the resume is accepted,
    the pixels it sends are the pending queue preceded by at most nine pixels
    that had been placed since the last save, the queue ends empty, the
    errors are those of the first part, [pixelsPlaced + errors] is the size
    of the batch, and the checkpoint is purged. *)
Theorem crash_and_resume_loses_nothing :
  forall (r r2 : RunEnv) (env env2 : nat -> IterEnv) (pixels : list Pixel)
         (w : World) (k : nat) (hasSocket : bool) (now : Z),
    quotaExceeded (localStorage w) = false ->
    trace w = [] ->
    let wk := processLoop k env 0 (startSession r pixels w) in
    queue (emb wk) <> [] ->
    (forall data, slot (localStorage wk) = Some (Json data) ->
                  now - pg_timestamp data <= dayMs) ->
    resumeConfirmed r2 = true ->
    (forall i, failure (outcome (env2 i)) = None) ->
    (forall i, stopRequested (env2 i) = false) ->
    let w2 := snd (resumeEmbedding r2 env2 (newEmbedder hasSocket now (localStorage wk))) in
    fst (resumeEmbedding r2 env2 (newEmbedder hasSocket now (localStorage wk))) = true /\
    queue (emb w2) = [] /\
    errors (emb w2) = errors (emb wk) /\
    pixelsPlaced (emb w2) + errors (emb w2) = Z.of_nat (length pixels) /\
    slot (localStorage w2) = None /\
    exists redo,
      (length redo <= 9)%nat /\
      rev (dispatched (trace w2)) = (redo ++ queue (emb wk))%list /\
      (rev (dispatched (trace wk)) ++ queue (emb wk))%list = pixels.
Proof.
  intros r r2 env env2 pixels w k hasSocket now Hquota Ht wk Hpending Hfresh Hc Hok Hstop.
  cbn zeta.
  pose proof (startSession_session r pixels w) as HS. cbn zeta in HS.
  destruct HS as (Sq & _ & Sn & Se & Ss & So & Sl).
  (* the checkpoint the first part left *)
  assert (C : checkpointed wk).
  { apply processLoop_checkpointed.
    - rewrite Ss. apply generateSessionId_truthy.
    - rewrite Sl. exact Hquota.
    - unfold checkpointed. eexists. exists [].
      split; [unfold startSession; apply saveProgress_stores;
              [reflexivity|exact Hquota]|].
      rewrite Sq, Sn, Se, Ss, So. cbn. repeat split. discriminate. }
  destruct C as (data & redo & C1 & C2 & C3 & C4 & C5 & C6 & C7).
  specialize (Hfresh data C1).
  (* the ledger of the first part *)
  destruct (processLoop_accounted k env 0 _ (startSession_accounted r pixels w Ht))
    as (A1 & _ & A3).
  fold wk in A1, A3.
  pose proof (processLoop_frame k env 0 (startSession r pixels w)) as F.
  cbn zeta in F. fold wk in F. destruct F as (_ & O & _ & Cons).
  rewrite Sn, Se, Sq in Cons. rewrite O, So in A1.
  (* the reloaded page and the resume *)
  rewrite (newEmbedder_keeps_checkpoint hasSocket now (localStorage wk) data C1 Hfresh).
  set (page := {| emb := _; clock := now; localStorage := localStorage wk; trace := [] |}).
  assert (Hq : pg_queue data <> []).
  { rewrite C2. destruct redo; [exact Hpending|discriminate]. }
  rewrite (resumeEmbedding_starts r2 env2 page data C1 Hfresh Hq eq_refl Hc).
  cbn [fst snd].
  set (s := set_isPlacing true (tick (dialogTime r2) (restore data page))).
  destruct (processQueue_all_confirmed r2 env2 s eq_refl Hok Hstop)
    as (Q & N & R & _ & L & D).
  change (queue (emb s)) with (pg_queue data) in N, D.
  change (pixelsPlaced (emb s)) with (pg_pixelsPlaced data) in N.
  change (errors (emb s)) with (pg_errors data) in R.
  change (dispatched (trace s)) with (@nil Pixel) in D. cbn [rev app] in D.
  split; [reflexivity|]. split; [exact Q|]. split; [rewrite R; exact C5|].
  split.
  { rewrite N, R, C2, length_app, C5. lia. }
  split; [exact L|].
  exists redo. split.
  { pose proof (Z.mod_pos_bound (pixelsPlaced (emb wk)) 10 ltac:(lia)). lia. }
  split; [rewrite D; exact C2|exact A1].
Qed.

Lemma crash_and_resume_loses_nothing_witness :
  let wk := processLoop 5 (fun _ => quietTurn) 0
              (startSession quietRun (pixelRow 8) freshPage) in
  let w2 := snd (resumeEmbedding quietRun (fun _ => quietTurn)
                   (newEmbedder false 1700000100000 (localStorage wk))) in
  queue (emb wk) <> [] /\
  queue (emb w2) = [] /\
  pixelsPlaced (emb w2) + errors (emb w2) = Z.of_nat (length (pixelRow 8)).
Proof.
  cbn zeta.
  assert (P : queue (emb (processLoop 5 (fun _ => quietTurn) 0
                            (startSession quietRun (pixelRow 8) freshPage))) <> []).
  { vm_compute. discriminate. }
  split; [exact P|].
  pose proof (crash_and_resume_loses_nothing quietRun quietRun
                (fun _ => quietTurn) (fun _ => quietTurn) (pixelRow 8) freshPage 5
                false 1700000100000 eq_refl eq_refl P) as H.
  cbn zeta in H.
  destruct H as (_ & Q & _ & N & _).
  - intros data Hd. vm_compute in Hd. injection Hd as <-. vm_compute. discriminate.
  - reflexivity.
  - intros i. reflexivity.
  - intros i. reflexivity.
  - split; assumption.
Defined.

(** ** When a run starts *)

Lemma preflight_frame :
  forall r pixels w,
    session (fst (preflight r pixels w)) = session w /\
    burstTracker (emb (fst (preflight r pixels w))) = burstTracker (emb w) /\
    lastRequestTime (emb (fst (preflight r pixels w))) = lastRequestTime (emb w) /\
    dispatched (trace (fst (preflight r pixels w))) = dispatched (trace w).
Proof.
  intros r pixels w. unfold preflight.
  destruct (isPlacing (emb w)); [repeat split|].
  destruct (socket (emb w)); destruct (length pixels =? 0)%nat;
    try (repeat split; fail);
    destruct (creditsAtStart r) as [c|]; cbn [getCurrentCredits];
    try (repeat split; fail);
    destruct (c <? Z.of_nat (length pixels)); repeat split.
Qed.

(** X11.  [embedImage] starts a run exactly when no run is in progress, the
    batch is not empty, and the credits shown cover the batch or are unknown
    or the user chose to go on.  When it does not start, it leaves the
    session, the queue, the counters, the checkpoint store and the
    rate-limiter state as they were and sends nothing; when a run is in
    progress it changes nothing at all. *)
Theorem embedImage_start_condition :
  forall (r : RunEnv) (env : nat -> IterEnv) (pixels : list Pixel) (w : World),
    snd (preflight r pixels w)
    = negb (isPlacing (emb w))
      && negb (length pixels =? 0)%nat
      && match creditsAtStart r with
         | Some c => if c <? Z.of_nat (length pixels) then proceedAnyway r else true
         | None => true
         end /\
    (snd (preflight r pixels w) = false ->
     session (embedImage r env pixels w) = session w /\
     burstTracker (emb (embedImage r env pixels w)) = burstTracker (emb w) /\
     lastRequestTime (emb (embedImage r env pixels w)) = lastRequestTime (emb w) /\
     dispatched (trace (embedImage r env pixels w)) = dispatched (trace w)) /\
    (isPlacing (emb w) = true -> embedImage r env pixels w = w).
Proof.
  intros r env pixels w. split; [|split].
  - unfold preflight. destruct (isPlacing (emb w)); [reflexivity|].
    destruct (length pixels =? 0)%nat; [reflexivity|].
    destruct (creditsAtStart r) as [c|]; cbn [getCurrentCredits negb andb].
    + destruct (c <? Z.of_nat (length pixels)); reflexivity.
    + reflexivity.
  - intros H. rewrite embedImage_runs, H. apply preflight_frame.
  - intros H. unfold embedImage, preflight. rewrite H. reflexivity.
Qed.

Lemma embedImage_start_condition_witness :
  embedImage quietRun (fun _ => quietTurn) (pixelRow 4)
    (startSession quietRun (pixelRow 3) freshPage)
  = startSession quietRun (pixelRow 3) freshPage.
Proof.
  apply (embedImage_start_condition quietRun (fun _ => quietTurn) (pixelRow 4)
           (startSession quietRun (pixelRow 3) freshPage)).
  reflexivity.
Defined.

(** ** When a resume starts *)

(** X12.  [resumeEmbedding] starts the loop exactly when
    [checkForExistingSession] reports a session (a checkpoint not older than
    24 hours with a non-empty queue), no run is in progress and the user
    confirms.  A resume refused for lack of a session or because a run is in
    progress changes nothing but the purge of an expired checkpoint; a resume
    the user declines sends nothing and leaves the store alone, but has
    already loaded the saved session into the embedder. *)
Theorem resumeEmbedding_start_condition :
  forall (r : RunEnv) (env : nat -> IterEnv) (w : World),
    fst (resumeEmbedding r env w)
    = fst (checkForExistingSession w) && negb (isPlacing (emb w)) && resumeConfirmed r /\
    (fst (checkForExistingSession w) && negb (isPlacing (emb w)) = false ->
     snd (resumeEmbedding r env w) = if expired w then clearProgress w else w) /\
    (forall data,
        fst (checkForExistingSession w) = true ->
        isPlacing (emb w) = false ->
        resumeConfirmed r = false ->
        slot (localStorage w) = Some (Json data) ->
        let w' := snd (resumeEmbedding r env w) in
        trace w' = trace w /\
        localStorage w' = localStorage w /\
        isPlacing (emb w') = false /\
        queue (emb w') = pg_queue data /\
        sessionId (emb w') = pg_sessionId data /\
        pixelsPlaced (emb w') = pg_pixelsPlaced data /\
        errors (emb w') = pg_errors data).
Proof.
  intros r env w.
  unfold resumeEmbedding, checkForExistingSession.
  rewrite loadProgress_spec. unfold expired.
  destruct (slot (localStorage w)) as [[data|]|] eqn:Hslot.
  - destruct (dayMs <? clock w - pg_timestamp data) eqn:E.
    + cbn. repeat split; try reflexivity; intros; discriminate.
    + cbn [fst snd]. destruct (pg_queue data) as [|p q] eqn:Hq.
      * cbn. repeat split; try reflexivity; intros; discriminate.
      * cbn [length Nat.eqb Nat.ltb Nat.leb andb].
        destruct (isPlacing (emb w)) eqn:Hp.
        { cbn. repeat split; try reflexivity; intros; discriminate. }
        destruct (resumeConfirmed r) eqn:Hc.
        { cbn [fst negb andb]. repeat split; try reflexivity;
            intros; discriminate. }
        cbn [fst snd negb andb]. split; [reflexivity|]. split; [discriminate|].
        intros d _ _ _ Hd. injection Hd as <-. cbn zeta.
        cbn. rewrite Hq. repeat split. exact Hp.
  - cbn. repeat split; try reflexivity; intros; discriminate.
  - cbn. repeat split; try reflexivity; intros; discriminate.
Qed.

Lemma resumeEmbedding_start_condition_witness :
  let w := tick 1000 stalledRun in
  fst (resumeEmbedding quietRun (fun _ => quietTurn) w) = true.
Proof.
  cbn zeta.
  rewrite (proj1 (resumeEmbedding_start_condition quietRun (fun _ => quietTurn)
                    (tick 1000 stalledRun))).
  vm_compute. reflexivity.
Defined.

(** ** Clearing the session *)

(** X13.  After [clearSession] there is nothing to resume and nothing in
    progress: the store is empty, [checkForExistingSession] reports no
    session, [resumeEmbedding] returns false and changes nothing, and a
    second [clearSession] changes nothing.  The rate-limiter logs are not
    cleared. *)
Theorem clearSession_leaves_nothing_to_resume :
  forall (r : RunEnv) (env : nat -> IterEnv) (w : World),
    slot (localStorage (clearSession w)) = None /\
    checkForExistingSession (clearSession w) = (false, clearSession w) /\
    resumeEmbedding r env (clearSession w) = (false, clearSession w) /\
    clearSession (clearSession w) = clearSession w /\
    conserved (clearSession w) /\
    limiter (clearSession w) = limiter w /\
    requestTimes (emb (clearSession w)) = requestTimes (emb w).
Proof.
  intros r env w.
  assert (A : slot (localStorage (clearSession w)) = None) by reflexivity.
  split; [exact A|].
  split; [unfold checkForExistingSession;
          rewrite (loadProgress_absent _ A); reflexivity|].
  split; [unfold resumeEmbedding;
          rewrite (loadProgress_absent _ A); reflexivity|].
  split; [reflexivity|].
  split; [unfold conserved; reflexivity|].
  split; reflexivity.
Qed.

(** ** What the status shows *)

(** X14.  The burst usage [getStatus] reports is the number of burst-log
    entries of the last [burstWindow] ms; it never exceeds the length of the
    log, so in every state in which the log has kept to the quota it is at
    most 15, and [getStatus] leaves the log as it is. *)
Theorem status_burst_usage :
  forall (dom : option Z) (w : World),
    (st_burstUsed (fst (getStatus dom w)) <= length (burstTracker (emb w)))%nat /\
    (trackerBound w -> Z.of_nat (st_burstUsed (fst (getStatus dom w))) <= burstLimit) /\
    burstTracker (emb (snd (getStatus dom w))) = burstTracker (emb w).
Proof.
  intros dom w.
  assert (E : st_burstUsed (fst (getStatus dom w))
              = length (filter (inBurstWindow (clock w)) (burstTracker (emb w))) /\
              burstTracker (emb (snd (getStatus dom w))) = burstTracker (emb w)).
  { unfold getStatus. destruct dom as [c|]; cbn [getCurrentCredits];
      rewrite loadProgress_spec; destruct (expired _); repeat split. }
  destruct E as (E1 & E2).
  pose proof (filter_length_le (inBurstWindow (clock w)) (burstTracker (emb w))) as L.
  rewrite E1, E2. repeat split; auto.
  intros [Hl _]. lia.
Qed.

Lemma status_burst_usage_witness :
  let w := embedImage quietRun (fun _ => quietTurn) (pixelRow 16) freshPage in
  trackerBound w /\
  Z.of_nat (st_burstUsed (fst (getStatus None w))) <= burstLimit.
Proof.
  cbn zeta.
  assert (B : trackerBound
                (embedImage quietRun (fun _ => quietTurn) (pixelRow 16) freshPage)).
  { rewrite embedImage_runs. cbn [snd preflight].
    change (snd (preflight quietRun (pixelRow 16) freshPage)) with true.
    cbn iota. apply processQueue_bound, startSession_bound. constructor. }
  split; [exact B|].
  apply (status_burst_usage None
           (embedImage quietRun (fun _ => quietTurn) (pixelRow 16) freshPage)).
  exact B.
Defined.

(** ** When the gate does not hold a send back *)

(** X15.  When fewer than 15 burst-log entries lie in the last
    [burstWindow] ms and the last admission is at least [universalDelay] ms
    old (or there has been none), [safeDelay] asks for the jitter only, and
    the send is admitted when the jitter timer fires. *)
Theorem safeDelay_idle_gate :
  forall (e : IterEnv) (w : World),
    Z.of_nat (length (filter (inBurstWindow (clock w)) (burstTracker (emb w))))
      < burstLimit ->
    (forall t, lastRequestTime (emb w) = Some t -> universalDelay <= clock w - t) ->
    requested w (safeDelay e w) = Z.max 0 (jitter e) /\
    clock (safeDelay e w) = clock w + Z.max 0 (jitter e) + Z.of_N (jitterOver e) /\
    lastRequestTime (emb (safeDelay e w)) = Some (clock (safeDelay e w)).
Proof.
  intros e w Hroom Hlast. rewrite safeDelay_stages.
  assert (V : burstTracker (emb (cleanStage w))
              = filter (inBurstWindow (clock w)) (burstTracker (emb w)) /\
              lastRequestTime (emb (cleanStage w)) = lastRequestTime (emb w) /\
              clock (cleanStage w) = clock w /\
              requested w (cleanStage w) = 0).
  { repeat split. unfold requested.
    change (trace (cleanStage w)) with
      (EvTracker (filter (inBurstWindow (clock w)) (burstTracker (emb w))) :: trace w).
    change (totalSlept (EvTracker ?l :: trace w)) with (totalSlept (trace w)). lia. }
  destruct V as (Vb & Vl & Vc & Vr).
  rewrite <- Vb in Hroom. rewrite <- Vl in Hlast.
  generalize dependent (cleanStage w). intros w2 Hroom Hlast _ _ Vc Vr.
  assert (B : burstStage e (clock w) w2 = w2).
  { unfold burstStage.
    destruct (burstLimit <=? Z.of_nat (length (burstTracker (emb w2)))) eqn:G;
      [apply Z.leb_le in G; lia|reflexivity]. }
  rewrite B.
  assert (S : spacingStage e (clock w) w2 = w2).
  { unfold spacingStage. destruct (lastRequestTime (emb w2)) as [t|]; [|reflexivity].
    destruct (t =? 0); [reflexivity|].
    specialize (Hlast t eq_refl).
    destruct (clock w - t <? universalDelay) eqn:C; [apply Z.ltb_lt in C; lia|reflexivity]. }
  rewrite S.
  destruct (admitStage_view (jitterStage e w2)) as (_ & _ & _ & Al & Ac).
  rewrite Al, Ac. unfold jitterStage. rewrite sleep_clock, Vc.
  split; [|split; reflexivity].
  unfold admitStage.
  change (requested w (log ?ev (set_lastRequestTime ?t ?x))) with (requested w x).
  rewrite (requested_trans w w2 (sleep (jitter e) (jitterOver e) w2)), sleep_requested.
  lia.
Qed.

Lemma safeDelay_idle_gate_witness :
  let w := startSession quietRun (pixelRow 3) freshPage in
  requested w (safeDelay quietTurn w) = Z.max 0 (jitter quietTurn).
Proof.
  cbn zeta.
  apply (safeDelay_idle_gate quietTurn (startSession quietRun (pixelRow 3) freshPage)).
  - vm_compute. reflexivity.
  - intros t H. vm_compute in H. discriminate.
Defined.

(** ** Stopping and resuming on the same page *)

Lemma resumeEmbedding_rate :
  forall r env w,
    (forall j, jitterOk (env j)) ->
    rateInv (burstWindow - 1) burstLimit w ->
    rateInv (burstWindow - 1) burstLimit (snd (resumeEmbedding r env w)).
Proof.
  intros r env w J I. unfold resumeEmbedding.
  destruct (loadProgress_limiter w) as [L _].
  pose proof (rateInv_limiter _ _ _ _ L I) as I1.
  destruct (loadProgress w) as [[s|] w1]; cbn [snd] in *; [|exact I1].
  destruct (length (pg_queue s) =? 0)%nat; [exact I1|].
  destruct (isPlacing (emb w1)); [exact I1|].
  assert (I2 : rateInv (burstWindow - 1) burstLimit (tick (dialogTime r) (restore s w1))).
  { apply rateInv_tick. eapply rateInv_limiter; [|exact I1]. reflexivity. }
  destruct (resumeConfirmed r); cbn [snd]; [|exact I2].
  apply (processQueue_rate env J).
  eapply rateInv_limiter; [|exact I2]. reflexivity.
Qed.

(** X16.  [resumeEmbedding] keeps the burst log and [lastRequestTime], so a
    run that is stopped and later resumed on the same page keeps the rate
    bound over both parts together: no window of [burstWindow] ms holds more
    than 15 recorded sends of the two parts, and all admissions are at least
    [universalDelay] ms apart. *)
Theorem resume_keeps_the_rate_bound :
  forall (r r2 : RunEnv) (env env2 : nat -> IterEnv) (pixels : list Pixel)
         (w : World) (pause : N),
    0 < clock w ->
    trace w = [] ->
    (forall i, jitterOk (env i)) ->
    (forall i, jitterOk (env2 i)) ->
    snd (preflight r pixels w) = true ->
    let w1 := embedImage r env pixels w in
    let w2 := snd (resumeEmbedding r2 env2 (tick pause w1)) in
    (forall a, Z.of_nat (windowCount a (trace w2)) <= burstLimit) /\
    spaced universalDelay (admitted (trace w2)).
Proof.
  intros r r2 env env2 pixels w pause Hc Ht J J2 Hgo. cbn zeta.
  rewrite embedImage_runs, Hgo.
  destruct (preflight_view r pixels w) as (Pc & Pr & Pa).
  rewrite Ht in Pr, Pa. cbn in Pr, Pa.
  assert (I1 : rateInv (burstWindow - 1) burstLimit
                 (processQueue r env (startSession r pixels (fst (preflight r pixels w))))).
  { apply (processQueue_rate env J).
    apply startSession_rate; [lia|exact Pr|exact Pa]. }
  pose proof (resumeEmbedding_rate r2 env2 _ J2 (rateInv_tick _ _ pause _ I1)) as I2.
  destruct I2 as (_ & _ & _ & _ & I5 & I6 & _). split; assumption.
Qed.

Lemma resume_keeps_the_rate_bound_witness :
  let w1 := embedImage quietRun failsAt51 (pixelRow 100) freshPage in
  let w2 := snd (resumeEmbedding quietRun (fun _ => quietTurn) (tick 1000 w1)) in
  spaced universalDelay (admitted (trace w2)).
Proof.
  assert (J1 : forall i, jitterOk (failsAt51 i)).
  { intros i. unfold failsAt51. destruct (i =? 50)%nat; unfold jitterOk; cbn; lia. }
  assert (J2 : forall i : nat, jitterOk quietTurn).
  { intros i. unfold jitterOk. cbn. lia. }
  exact (proj2 (resume_keeps_the_rate_bound quietRun quietRun failsAt51
                  (fun _ => quietTurn) (pixelRow 100) freshPage 1000
                  eq_refl eq_refl J1 J2 eq_refl)).
Defined.

(** ** The pixels of an image *)

Lemma ordered_app (R : Pixel -> Pixel -> Prop) (l1 l2 : list Pixel) :
  ordered R l1 -> ordered R l2 ->
  (forall p q, In p l1 -> In q l2 -> R p q) ->
  ordered R (l1 ++ l2)%list.
Proof.
  induction l1 as [|p l1 IH]; intros O1 O2 Hc; [exact O2|].
  destruct O1 as [F1 O1]. cbn [app ordered]. split.
  - apply Forall_app. split; [exact F1|].
    apply Forall_forall. intros q Hq. apply Hc; [left; reflexivity | exact Hq].
  - apply IH; [exact O1 | exact O2 |].
    intros a b Ha Hb. apply Hc; [right; exact Ha | exact Hb].
Qed.

(** A loop over [s, s + n) whose turns all return: what it collects. *)
Lemma collect_seq (turn : nat -> option (list Pixel))
    (P : nat -> Pixel -> Prop) (R : Pixel -> Pixel -> Prop) (k : nat) :
  (forall a b p q, (a < b)%nat -> P a p -> P b q -> R p q) ->
  forall n s,
  (forall a, (s <= a < s + n)%nat ->
     exists ps, turn a = Some ps /\ (forall p, In p ps <-> P a p) /\
                ordered R ps /\ (length ps <= k)%nat) ->
  exists ps, collect turn (seq s n) = Some ps /\
    (forall p, In p ps <-> exists a, (s <= a < s + n)%nat /\ P a p) /\
    ordered R ps /\ (length ps <= n * k)%nat.
Proof.
  intros HR. induction n as [|n IH]; intros s Hturn.
  - exists []. cbn. repeat split; try lia; try tauto.
    intros [a [Ha _]]. lia.
  - destruct (Hturn s ltac:(lia)) as [ps [Es [Hin [Ho Hk]]]].
    destruct (IH (Datatypes.S s)) as [qs [Eq [Hqin [Hqo Hqk]]]].
    { intros a Ha. apply Hturn. lia. }
    exists (ps ++ qs)%list. cbn [seq collect]. rewrite Es, Eq.
    split; [reflexivity|]. split; [|split].
    + intros p. rewrite in_app_iff, Hin, Hqin. split.
      * intros [Hp | [a [Ha Hp]]]; [exists s | exists a]; split; try lia; assumption.
      * intros [a [Ha Hp]].
        destruct (Nat.eq_dec a s) as [->|Hne]; [left; exact Hp|].
        right. exists a. split; [lia | exact Hp].
    + apply ordered_app; [exact Ho | exact Hqo |].
      intros p q Hp Hq. apply Hin in Hp. apply Hqin in Hq.
      destruct Hq as [b [Hb Hq]]. apply (HR s b); [lia | exact Hp | exact Hq].
    + rewrite length_app. lia.
Qed.

(** Inside an image of the right size every turn of the inner loop
    returns, with the opaque pixel of its position or nothing. *)
Lemma scanPixel_sized (width height : nat) (data : list Byte.byte)
    (startX startY : Z) (y x : nat) :
  length data = (4 * width * height)%nat ->
  (x < width)%nat -> (y < height)%nat ->
  exists ps, scanPixel width data startX startY y x = Some ps /\
    (forall p, In p ps <-> opaqueAt width data startX startY y x p) /\
    ordered rowMajor ps /\ (length ps <= 1)%nat.
Proof.
  intros Hlen Hx Hy.
  assert (Hi : ((y * width + x) * 4 + 3 < length data)%nat) by nia.
  unfold scanPixel, opaqueAt.
  set (i := ((y * width + x) * 4)%nat) in *.
  destruct (nth_error data i) as [r|] eqn:Er;
    [|apply nth_error_None in Er; lia].
  destruct (nth_error data (i + 1)) as [g|] eqn:Eg;
    [|apply nth_error_None in Eg; lia].
  destruct (nth_error data (i + 2)) as [b|] eqn:Eb;
    [|apply nth_error_None in Eb; lia].
  destruct (nth_error data (i + 3)) as [a|] eqn:Ea;
    [|apply nth_error_None in Ea; lia].
  destruct (Strings.Byte.to_N a <? 128)%N eqn:Ht.
  - exists []. split; [reflexivity|]. split; [|cbn; split; [exact I | lia]].
    intros p. split; [intros []|].
    intros [r' [g' [b' [a' [_ [_ [_ [Ha' [Hop _]]]]]]]]].
    injection Ha' as <-. apply N.ltb_lt in Ht. lia.
  - eexists. split; [reflexivity|].
    split; [|cbn; split; [split; [constructor | exact I] | lia]].
    intros p. split.
    + intros [<-|[]]. exists r, g, b, a.
      apply N.ltb_ge in Ht. repeat split; try reflexivity; exact Ht.
    + intros [r' [g' [b' [a' [Hr [Hg [Hb [_ [_ ->]]]]]]]]].
      injection Hr as <-. injection Hg as <-. injection Hb as <-.
      left. reflexivity.
Qed.

(** What the two loops collect from an image of the right size. *)
Lemma extractPixels_sized (width height : nat) (data : list Byte.byte)
    (startX startY : Z) :
  length data = (4 * width * height)%nat ->
  exists pixels,
    extractPixels width height data startX startY = Some pixels /\
    (forall p, In p pixels <->
       exists y x, (y < height)%nat /\ (x < width)%nat /\
                   opaqueAt width data startX startY y x p) /\
    ordered rowMajor pixels /\
    (length pixels <= height * width)%nat.
Proof.
  intros Hlen. unfold extractPixels.
  destruct (collect_seq
    (fun y => collect (scanPixel width data startX startY y) (seq 0 width))
    (fun y p => exists x, (x < width)%nat /\
                          opaqueAt width data startX startY y x p)
    rowMajor width) with (n := height) (s := 0%nat)
    as [pixels [E [Hin [Ho Hk]]]].
  - intros a b p q Hab [x [_ Hp]] [x' [_ Hq]].
    destruct Hp as [? [? [? [? [_ [_ [_ [_ [_ ->]]]]]]]]].
    destruct Hq as [? [? [? [? [_ [_ [_ [_ [_ ->]]]]]]]]].
    left. cbn. lia.
  - intros y Hy.
    destruct (collect_seq (scanPixel width data startX startY y)
      (opaqueAt width data startX startY y) rowMajor 1)
      with (n := width) (s := 0%nat) as [row [Er [Hrin [Hro Hrk]]]].
    + intros a b p q Hab Hp Hq.
      destruct Hp as [? [? [? [? [_ [_ [_ [_ [_ ->]]]]]]]]].
      destruct Hq as [? [? [? [? [_ [_ [_ [_ [_ ->]]]]]]]]].
      right. cbn. lia.
    + intros x Hx. apply (scanPixel_sized width height); [exact Hlen | lia | lia].
    + exists row. split; [exact Er|]. split; [|split; [exact Hro | lia]].
      intros p. rewrite Hrin. split.
      * intros [x [Hx Hp]]. exists x. split; [lia | exact Hp].
      * intros [x [Hx Hp]]. exists x. split; [lia | exact Hp].
  - exists pixels. split; [exact E|]. split; [|split; assumption].
    intros p. rewrite Hin. split.
    + intros [y [Hy [x [Hx Hp]]]]. exists y, x. repeat split; try lia; exact Hp.
    + intros [y [x [Hy [Hx Hp]]]]. exists y. split; [lia|]. exists x. split; assumption.
Qed.

(** X17. From the data of a [width] by [height] image the pixel loop of
    [loadImage] returns exactly the pixels whose alpha is at least 128, each
    at its own position shifted by the start point, in reading order (rows
    from the top, each from the left), so no position occurs twice and
    there are at most [width * height] of them. *)
Theorem loadImage_reads_the_opaque_pixels (width height : nat)
    (data : list Byte.byte) (startX startY : Z) :
  length data = (4 * width * height)%nat ->
  exists pixels,
    loadImage (Decoded width height data) startX startY = Some pixels /\
    (forall p, In p pixels <->
       exists y x, (y < height)%nat /\ (x < width)%nat /\
                   opaqueAt width data startX startY y x p) /\
    ordered rowMajor pixels /\
    NoDup (map (fun p => (px p, py p)) pixels) /\
    (length pixels <= height * width)%nat /\
    Forall (fun p => startX <= px p < startX + Z.of_nat width /\
                     startY <= py p < startY + Z.of_nat height) pixels.
Proof.
  intros Hlen.
  destruct (extractPixels_sized width height data startX startY Hlen)
    as [pixels [E [Hin [Ho Hk]]]].
  exists pixels. split; [exact E|]. split; [exact Hin|].
  split; [exact Ho|]. split; [|split; [exact Hk|]].
  - clear - Ho. induction pixels as [|p rest IH]; [constructor|].
    destruct Ho as [F O]. cbn [map]. constructor; [|apply IH; exact O].
    intros Hp. apply in_map_iff in Hp. destruct Hp as [q [Eq Hq]].
    rewrite Forall_forall in F. specialize (F q Hq).
    injection Eq as Ex Ey. unfold rowMajor in F. lia.
  - apply Forall_forall. intros p Hp. apply Hin in Hp.
    destruct Hp as [y [x [Hy [Hx Hp]]]].
    destruct Hp as [? [? [? [? [_ [_ [_ [_ [_ ->]]]]]]]]]. cbn. lia.
Qed.

Lemma loadImage_reads_the_opaque_pixels_witness :
  exists pixels,
    loadImage (Decoded 3 2 twoByThree) 10 20 = Some pixels /\
    (forall p, In p pixels <->
       exists y x, (y < 2)%nat /\ (x < 3)%nat /\
                   opaqueAt 3 twoByThree 10 20 y x p) /\
    ordered rowMajor pixels /\
    NoDup (map (fun p => (px p, py p)) pixels) /\
    (length pixels <= 2 * 3)%nat /\
    Forall (fun p => 10 <= px p < 10 + Z.of_nat 3 /\
                     20 <= py p < 20 + Z.of_nat 2) pixels.
Proof.
  apply (loadImage_reads_the_opaque_pixels 3 2 twoByThree 10 20).
  reflexivity.
Defined.

Lemma toUpperCase_app (s t : string) :
  toUpperCase (s ++ t) = toUpperCase s ++ toUpperCase t.
Proof.
  induction s as [|c s IH]; [reflexivity|]. cbn. rewrite IH. reflexivity.
Qed.

(** One channel: two upper-case hexadecimal digits that spell its value. *)
Lemma channel_digits (v : Byte.byte) :
  match toUpperCase (padStart 2 "0" (toString16 (Strings.Byte.to_N v))) with
  | String c1 (String c2 EmptyString) =>
      hexUpper c1 && hexUpper c2 &&
      (16 * hexValue c1 + hexValue c2 =? Strings.Byte.to_N v)%N
  | _ => false
  end = true.
Proof. destruct v; vm_compute; reflexivity. Qed.

Lemma channel_split (v : Byte.byte) :
  exists c1 c2,
    toUpperCase (padStart 2 "0" (toString16 (Strings.Byte.to_N v)))
      = String c1 (String c2 EmptyString) /\
    hexUpper c1 = true /\ hexUpper c2 = true /\
    (16 * hexValue c1 + hexValue c2 = Strings.Byte.to_N v)%N.
Proof.
  pose proof (channel_digits v) as H.
  destruct (toUpperCase _) as [|c1 [|c2 [|? ?]]]; try discriminate.
  apply andb_true_iff in H. destruct H as [H H3].
  apply andb_true_iff in H. destruct H as [H1 H2].
  apply N.eqb_eq in H3. exists c1, c2. repeat split; assumption.
Qed.

Lemma colorOf_digits (r g b : Byte.byte) :
  exists r1 r2 g1 g2 b1 b2,
    colorOf r g b =
      String "#" (String r1 (String r2 (String g1 (String g2
        (String b1 (String b2 EmptyString)))))) /\
    forallb hexUpper [r1; r2; g1; g2; b1; b2] = true /\
    (16 * hexValue r1 + hexValue r2 = Strings.Byte.to_N r)%N /\
    (16 * hexValue g1 + hexValue g2 = Strings.Byte.to_N g)%N /\
    (16 * hexValue b1 + hexValue b2 = Strings.Byte.to_N b)%N.
Proof.
  destruct (channel_split r) as [r1 [r2 [Er [R1 [R2 Rv]]]]].
  destruct (channel_split g) as [g1 [g2 [Eg [G1 [G2 Gv]]]]].
  destruct (channel_split b) as [b1 [b2 [Eb [B1 [B2 Bv]]]]].
  exists r1, r2, g1, g2, b1, b2. split; [|split; [|repeat split; assumption]].
  - unfold colorOf.
    change ("#" ++ ?s) with (String "#" s).
    change (toUpperCase (String "#" ?s)) with (String "#" (toUpperCase s)).
    rewrite !toUpperCase_app, Er, Eg, Eb. reflexivity.
  - cbn [forallb]. rewrite R1, R2, G1, G2, B1, B2. reflexivity.
Qed.

Lemma to_N_inj (u v : Byte.byte) :
  Strings.Byte.to_N u = Strings.Byte.to_N v -> u = v.
Proof.
  intros H. pose proof (Strings.Byte.of_to_N u) as Hu.
  rewrite H, Strings.Byte.of_to_N in Hu. injection Hu as ->. reflexivity.
Qed.

(** X18. The colour of a pixel is a hash sign and six upper-case
    hexadecimal digits, two for each of red, green and blue in that order,
    which spell the channel's value; so pixels of different colours get
    different strings. *)
Theorem colorOf_is_a_hex_triplet (r g b : Byte.byte) :
  (exists r1 r2 g1 g2 b1 b2,
     colorOf r g b =
       String "#" (String r1 (String r2 (String g1 (String g2
         (String b1 (String b2 EmptyString)))))) /\
     forallb hexUpper [r1; r2; g1; g2; b1; b2] = true /\
     (16 * hexValue r1 + hexValue r2 = Strings.Byte.to_N r)%N /\
     (16 * hexValue g1 + hexValue g2 = Strings.Byte.to_N g)%N /\
     (16 * hexValue b1 + hexValue b2 = Strings.Byte.to_N b)%N) /\
  String.length (colorOf r g b) = 7%nat /\
  (forall r' g' b', colorOf r g b = colorOf r' g' b' ->
     r = r' /\ g = g' /\ b = b').
Proof.
  split; [apply colorOf_digits|].
  destruct (colorOf_digits r g b)
    as [r1 [r2 [g1 [g2 [b1 [b2 [E [_ [Rv [Gv Bv]]]]]]]]]].
  split; [rewrite E; reflexivity|].
  intros r' g' b' Heq.
  destruct (colorOf_digits r' g' b')
    as [s1 [s2 [h1 [h2 [c1 [c2 [E' [_ [Rv' [Gv' Bv']]]]]]]]]].
  rewrite E, E' in Heq.
  injection Heq as -> -> -> -> -> ->.
  repeat split; apply to_N_inj; congruence.
Qed.

Lemma colorOf_is_a_hex_triplet_witness :
  colorOf Byte.xff Byte.x80 Byte.x00 = colorOf Byte.xff Byte.x80 Byte.x00 /\
  (Byte.xff = Byte.xff /\ Byte.x80 = Byte.x80 /\ Byte.x00 = Byte.x00).
Proof.
  split; [reflexivity|].
  apply (proj2 (proj2 (colorOf_is_a_hex_triplet Byte.xff Byte.x80 Byte.x00))).
  reflexivity.
Defined.

(** X19. [embedAtCenter] puts the [maxWidth] square in the middle of the
    1000 by 1000 canvas, the margins on either side differing by at most
    one; every pixel read from an image no larger than that square lands
    on the canvas. *)
Theorem embedAtCenter_stays_on_the_canvas (maxWidth : Z) (width height : nat)
    (data : list Byte.byte) :
  0 <= maxWidth <= 1000 ->
  Z.of_nat width <= maxWidth -> Z.of_nat height <= maxWidth ->
  length data = (4 * width * height)%nat ->
  let '(centerX, centerY, size) := embedAtCenter maxWidth in
  size = maxWidth /\ centerY = centerX /\
  0 <= centerX /\ centerX + maxWidth <= 1000 /\
  0 <= (1000 - (centerX + maxWidth)) - centerX <= 1 /\
  exists pixels,
    loadImage (Decoded width height data) centerX centerY = Some pixels /\
    Forall onCanvas pixels.
Proof.
  intros Hm Hw Hh Hlen. unfold embedAtCenter. cbv zeta.
  pose proof (Z.div_mod (1000 - maxWidth) 2 ltac:(lia)) as Hd.
  pose proof (Z.mod_pos_bound (1000 - maxWidth) 2 ltac:(lia)) as Hr.
  set (c := (1000 - maxWidth) / 2) in *.
  split; [reflexivity|]. split; [reflexivity|].
  split; [lia|]. split; [lia|]. split; [lia|].
  destruct (extractPixels_sized width height data c c Hlen)
    as [pixels [E [Hin _]]].
  exists pixels. split; [exact E|].
  apply Forall_forall. intros p Hp. apply Hin in Hp.
  destruct Hp as [y [x [Hy [Hx Hp]]]].
  destruct Hp as [? [? [? [? [_ [_ [_ [_ [_ ->]]]]]]]]].
  unfold onCanvas. cbn. lia.
Qed.

Lemma embedAtCenter_stays_on_the_canvas_witness :
  let '(centerX, centerY, size) := embedAtCenter 200 in
  size = 200 /\ centerY = centerX /\
  0 <= centerX /\ centerX + 200 <= 1000 /\
  0 <= (1000 - (centerX + 200)) - centerX <= 1 /\
  exists pixels,
    loadImage (Decoded 3 2 twoByThree) centerX centerY = Some pixels /\
    Forall onCanvas pixels.
Proof.
  apply (embedAtCenter_stays_on_the_canvas 200 3 2 twoByThree);
    [lia | vm_compute; discriminate | vm_compute; discriminate | reflexivity].
Defined.
